(** * MegaFlow SDK: a shallow embedding of the batch-transaction engine

    The development follows the TypeScript sources:
    - [utils.ts]   revert decoding, receipt parsing, safe-approve helper,
                   precondition assertions ([Module Utils]);
    - [builder.ts] the call ledger of [MegaFlowBuilder] over a store of
                   JavaScript objects ([Module Builder]) and its terminal
                   operations [simulate], [executeSync], [executeRealtime]
                   as programs over chain-client requests
                   ([Module Orchestrator]);
    - [client.ts]  the nonce cache of [MegaFlowClient] ([Module Client]).

    The chain-client library (viem) is an external collaborator.  Its ABI
    codec is the interface [Viem]; [Module Abi] gives one implementation
    of it, written after the Solidity ABI layout, that the concrete
    examples run on. *)

From stdpp Require Import gmap strings list fin_maps.
From Stdlib Require Import ZArith NArith Ascii DecimalString HexadecimalString Sorted.
From Stdlib Require DecimalPos DecimalN HexadecimalFacts HexadecimalPos HexadecimalN.
From Stdlib Require SpecFloat.

Local Open Scope string_scope.
Local Open Scope Z_scope.

(* ===================================================================== *)
(** * JavaScript values and primitives                                    *)
(* ===================================================================== *)

Module Js.

(** The stable codes of [MegaFlowErrorCode] (types.ts). *)
Inductive MegaFlowErrorCode :=
| EMPTY_BATCH | WALLET_NOT_CONNECTED | NO_ACCOUNT | SIMULATION_FAILED
| EXECUTION_FAILED | INSUFFICIENT_BALANCE | INSUFFICIENT_ALLOWANCE
| KYBER_API_ERROR | NETWORK_ERROR | USER_REJECTED | TIMEOUT.

(** What a [throw] (or a rejected promise) carries. *)
Inductive Thrown :=
| ThrownError (name message : string)
    (* an [Error] instance raised by the runtime or by a library *)
| ThrownMegaFlowError (message : string) (code : MegaFlowErrorCode)
    (* [new MegaFlowError(message, code)], itself an [Error] *)
| ThrownValue (asString : string).
    (* any other thrown value, known through [String(err)] *)

(** Outcome of an expression that may throw. *)
Inductive res (A : Type) : Type :=
| Ok (a : A)
| Throw (e : Thrown).
Arguments Ok {A} a.
Arguments Throw {A} e.

#[global] Instance res_ret : MRet res := fun A a => Ok a.
#[global] Instance res_bind : MBind res := fun A B f m =>
  match m with
  | Ok a => f a
  | Throw e => Throw e
  end.
#[global] Instance res_fmap : FMap res := fun A B f m =>
  match m with
  | Ok a => Ok (f a)
  | Throw e => Throw e
  end.

(** [try { body } catch (e) { handler(e) }] *)
Definition try_catch {A} (body : res A) (handler : Thrown -> res A) : res A :=
  match body with
  | Ok a => Ok a
  | Throw e => handler e
  end.

(** ** Strings

    A JavaScript string is represented by a [string]; on ASCII text,
    which is all that hex payloads, selectors and addresses contain,
    [.length] is [String.length] and [slice] cuts at the same places. *)

(** [s.slice(n)] for [0 <= n] *)
Fixpoint slice_from (n : nat) (s : string) : string :=
  match n, s with
  | O, _ => s
  | S n', String _ s' => slice_from n' s'
  | S _, EmptyString => EmptyString
  end.

(** [s.slice(a, b)] for [0 <= a <= b] *)
Definition slice (a b : nat) (s : string) : string :=
  String.substring a (b - a) s.

Definition lower_ascii (c : ascii) : ascii :=
  let n := nat_of_ascii c in
  if ((65 <=? n)%nat && (n <=? 90)%nat)%bool then ascii_of_nat (n + 32) else c.

(** [s.toLowerCase()] *)
Fixpoint toLowerCase (s : string) : string :=
  match s with
  | EmptyString => EmptyString
  | String c s' => String (lower_ascii c) (toLowerCase s')
  end.

Fixpoint repeat_char (c : ascii) (n : nat) : string :=
  match n with
  | O => EmptyString
  | S n' => String c (repeat_char c n')
  end.

(** [s.padStart(n, c)] with a one-character filler *)
Definition padStart (n : nat) (c : ascii) (s : string) : string :=
  repeat_char c (n - String.length s) ++ s.

(** ** Numbers

    [bigint] is [Z].  A [number] that holds an integer is the [Z] it
    holds.  [Number(b)] rounds a bigint to the nearest double, ties to
    even; below [2^53] it is the identity. *)

Definition Number (b : Z) : Z :=
  let a := Z.abs b in
  if a <? 2 ^ 53 then b
  else
    let e := Z.log2 a - 52 in
    let q := Z.shiftr a e in
    let r := Z.land a (Z.ones e) in
    let half := Z.shiftl 1 (e - 1) in
    let q' := if ((half <? r) || ((r =? half) && Z.odd q))%bool then q + 1 else q in
    Z.sgn b * Z.shiftl q' e.

(** A [number] that need not hold an integer is the double itself: an
    IEEE 754 binary64 value, 53 bits of precision, exponents up to
    [1024].  [number_of_Z] is the number an integer literal denotes,
    [number_add] is [+] on two numbers, rounding to nearest, ties to
    even. *)
Definition number : Type := SpecFloat.spec_float.

Definition number_of_Z (z : Z) : number :=
  SpecFloat.binary_normalize 53 1024 z 0 false.

Definition number_add (x y : number) : number :=
  SpecFloat.SFadd 53 1024 x y.

(** [BigInt(x)] of a number: the integer [x] holds; a [RangeError] for a
    number with a fractional part, for [NaN] and for the infinities. *)
Definition BigInt_number (x : number) : res Z :=
  let notAnInteger :=
    Throw (ThrownError "RangeError"
             "The number cannot be converted to a BigInt because it is not an integer") in
  match x with
  | SpecFloat.S754_zero _ => Ok 0
  | SpecFloat.S754_finite sign m e =>
      let mantissa := if sign then Z.neg m else Z.pos m in
      if 0 <=? e then Ok (mantissa * 2 ^ e)
      else if Z.pos m mod 2 ^ (- e) =? 0 then Ok (mantissa / 2 ^ (- e))
      else notAnInteger
  | SpecFloat.S754_infinity _ => notAnInteger
  | SpecFloat.S754_nan => notAnInteger
  end.

(** [`${b}`] / [b.toString()] of an integer *)
Definition toString (b : Z) : string :=
  DecimalString.NilZero.string_of_int (Z.to_int b).

(** [b.toString(16)] of an integer *)
Definition toString16 (b : Z) : string :=
  let digits := HexadecimalString.NilZero.string_of_uint (N.to_hex_uint (Z.to_N (Z.abs b))) in
  if b <? 0 then "-" ++ digits else digits.

(** [Array.from({ length: len }, (_, i) => f(i))] for an integer [len]:
    [ToLength] clamps a negative length to [0]; a length of [2^32] or
    more is refused by the array constructor with a [RangeError]. *)
Definition Array_from_length {A} (len : Z) (f : nat -> A) : res (list A) :=
  if 2 ^ 32 <=? len
  then Throw (ThrownError "RangeError" "Invalid array length")
  else Ok (f <$> seq 0 (Z.to_nat len)).

End Js.
Export Js.

(* ===================================================================== *)
(** * Data model (types.ts)                                               *)
(* ===================================================================== *)

Definition Hex := string.       (* `0x${string}` *)
Definition Address := string.   (* `0x${string}` *)

(** [MegaCall]: mirrors the [Call] struct of the router. *)
Record MegaCall := mkCall {
  target : Address;
  value : Z;
  callData : Hex;
}.

(** [MegaCallResult]: mirrors the [Result] struct of the router.
    [success] is a [boolean] by its declared type; [parseCallResults]
    stores in it the [success] argument of a decoded event, which is
    [undefined] ([None]) when the event's data could not be decoded. *)
Record MegaCallResult := mkResult {
  success : option bool;
  returnData : Hex;
}.

(** A receipt log entry, as far as [decodeEventLog] reads it. *)
Record Log := mkLog {
  log_data : Hex;
  log_topics : list Hex;
}.

Record TransactionReceipt := mkReceipt {
  logs : list Log;
  gasUsed : Z;
  effectiveGasPrice : Z;
  blockNumber : Z;
  transactionHash : Hex;
}.

(** The events of [MEGA_ROUTER_ABI] (constants.ts), as decoded by
    [decodeEventLog] with [strict: false]: [eventName] with its [args].
    The indexed arguments come from the topics and are always there.
    The other arguments come from [data], decoded in one piece: they are
    all there, or, when [data] is empty or too short for them, all
    [undefined] ([None]).
    - [BatchExecuted(address indexed sender, uint256 callCount,
      uint256 totalValue)]: the data is [(callCount, totalValue)];
    - [CallExecuted(uint256 indexed callIndex, address indexed target,
      uint256 value, bool success)]: the data is [(value, success)]. *)
Inductive DecodedEventLog :=
| BatchExecuted (sender : Address) (data : option (Z * Z))
| CallExecuted (callIndex : Z) (callTarget : Address) (data : option (Z * bool)).

(** The ABIs of constants.ts that the builder encodes against. *)
Inductive Abi := ERC20_ABI | ERC721_ABI | UNISWAP_V2_ROUTER_ABI | WETH_ABI | CUSTOM_ABI (id : string).

(** Arguments handed to [encodeFunctionData]. *)
Inductive AbiArg :=
| ArgAddress (a : Address)
| ArgUint (n : Z)
| ArgBool (b : bool)
| ArgAddressArray (path : list Address)
| ArgOther (repr : string).

(** ** The chain-client codec (viem)

    Each [decodeAbiParameters] call of utils.ts is one method, named by
    the parameter list it is called with.  A method either returns the
    decoded values or throws. *)
Class Viem := {
  (** [decodeAbiParameters([{ type: 'string' }], data)] *)
  decodeAbiParameters_string : Hex -> res string;
  (** [decodeAbiParameters([{ type: 'uint256' }], data)] *)
  decodeAbiParameters_uint256 : Hex -> res Z;
  (** [decodeAbiParameters([{ type: 'uint256' }, { type: 'bytes' }], data)] *)
  decodeAbiParameters_uint256_bytes : Hex -> res (Z * Hex);
  (** [decodeAbiParameters([{ type: 'tuple[]', components: [bool, bytes] }], data)] *)
  decodeAbiParameters_results : Hex -> res (list MegaCallResult);
  (** [decodeEventLog({ abi: MEGA_ROUTER_ABI, data, topics, strict: false })] *)
  decodeEventLog : Log -> res DecodedEventLog;
  (** [encodeFunctionData({ abi, functionName, args })] *)
  encodeFunctionData : Abi -> string -> list AbiArg -> res Hex;
}.

(* ===================================================================== *)
(** * utils.ts                                                            *)
(* ===================================================================== *)

Module Utils.
Section WithViem.
Context {viem : Viem}.

(** ** Revert error decoder *)

(** The [codes] table of [decodePanicCode]. *)
Definition codes : gmap Z string :=
  list_to_map
    [ (0x00, "generic panic");
      (0x01, "assert failed");
      (0x11, "arithmetic overflow/underflow");
      (0x12, "division by zero");
      (0x21, "invalid enum value");
      (0x22, "storage access out of bounds");
      (0x31, "pop on empty array");
      (0x32, "array index out of bounds");
      (0x41, "out of memory");
      (0x51, "uninitialized function pointer") ].

(** [codes[code] ?? `code 0x${code.toString(16)}`] *)
Definition decodePanicCode (code : Z) : string :=
  match codes !! code with
  | Some msg => msg
  | None => "code 0x" ++ toString16 code
  end.

(** The [customErrors] table of [decodeRevertError].  Every entry is a
    non-empty string, so an own key is a truthy lookup; the keys are the
    only properties a ten-character lower-case selector can hit. *)
Definition customErrors : gmap string string :=
  list_to_map
    [ ("0x3e3f8f73", "ReentrancyGuard: re-entrant call");
      ("0xfe9ba5cd", "InsufficientETH: not enough ETH sent");
      ("0xd4a5e2bf", "InsufficientFee: flat fee not covered");
      ("0x1425f8f8", "InvalidTarget: call target is address(0)");
      ("0x4a3f0f2d", "EmptyCalldata: callData must not be empty");
      ("0x85d9d0b8", "CallFailed: one of the batch calls reverted");
      ("0xb5e9e6d2", "FeeTransferFailed: could not send fee to collector");
      ("0x750b219c", "SweepFailed: could not return leftover ETH") ].

(** [!returnData || returnData === '0x' || returnData.length < 10] *)
Definition noRevertData (returnData : Hex) : bool :=
  String.eqb returnData "" || String.eqb returnData "0x"
  || (String.length returnData <? 10)%nat.

(** [`0x${returnData.slice(10)}`] *)
Definition revertPayload (returnData : Hex) : Hex :=
  "0x" ++ slice_from 10 returnData.

(** [decodeRevertError], with the recursion on the inner revert data of
    [CallFailed] counted down by [fuel]: [None] is a recursion cut short,
    [Some (Ok s)] a returned string, [Some (Throw e)] an exception that
    leaves the function. *)
Fixpoint decodeRevertError_fuel (fuel : nat) (returnData : Hex) : option (res string) :=
  if noRevertData returnData then Some (Ok "Execution reverted with no data")
  else
    let selector := toLowerCase (slice 0 10 returnData) in
    if String.eqb selector "0x08c379a0" then
      (* Standard Error(string) *)
      Some (try_catch
              (message ← decodeAbiParameters_string (revertPayload returnData);
               mret ("Reverted: " ++ message))
              (fun _ => Ok "Reverted (Error selector found but decode failed)"))
    else if String.eqb selector "0x4e487b71" then
      (* Panic(uint256) *)
      Some (try_catch
              (code ← decodeAbiParameters_uint256 (revertPayload returnData);
               mret ("Panic: " ++ decodePanicCode (Number code)))
              (fun _ => Ok "Panic: unknown code"))
    else
      match customErrors !! selector with
      | Some fixed =>
          if String.eqb selector "0x85d9d0b8" then
            (* CallFailed: the try block decodes, recurses and formats;
               whatever it throws is caught by the one catch *)
            match decodeAbiParameters_uint256_bytes (revertPayload returnData) with
            | Throw _ => Some (Ok fixed)
            | Ok (callIndex, innerData) =>
                match fuel with
                | O => None
                | S fuel' =>
                    match decodeRevertError_fuel fuel' innerData with
                    | None => None
                    | Some (Ok inner) =>
                        Some (Ok ("Call #" ++ toString callIndex ++ " failed → " ++ inner))
                    | Some (Throw _) => Some (Ok fixed)
                    end
                end
            end
          else Some (Ok fixed)
      | None => Some (Ok ("Reverted with unknown selector " ++ selector))
      end.

(** The exported function: one unit of fuel per character of the
    payload is enough whenever a decoded inner payload is shorter than
    the payload it was cut from. *)
Definition decodeRevertError (returnData : Hex) : option (res string) :=
  decodeRevertError_fuel (String.length returnData) returnData.

(** ** Receipt / log parsing *)

Definition assumedSuccess : MegaCallResult :=
  {| success := Some true; returnData := "0x" |}.

(** Strategy 1 of [parseCallResults]: the guard on [rawReturnData], the
    [tuple[]] decode inside its [try], and the [map] over the decoded
    array.  [None] is the fall-through to the event-based strategies. *)
Definition resultsFromReturnData (rawReturnData : option Hex) : option (list MegaCallResult) :=
  match rawReturnData with
  | None => None
  | Some raw =>
      if negb (String.eqb raw "") && negb (String.eqb raw "0x") && (2 <? String.length raw)%nat
      then
        match decodeAbiParameters_results raw with
        | Ok results =>
            Some ((fun r => {| success := success r; returnData := returnData r |}) <$> results)
        | Throw _ => None
        end
      else None
  end.

(** One turn of the loop over [receipt.logs]: a log that decodes to
    [CallExecuted] sets [resultMap] at [Number(callIndex)] to the
    [success] argument of the event, [undefined] when the event came
    without its data arguments; any other log, or one whose decoding
    throws, leaves the map as it is. *)
Definition recordCallExecuted (resultMap : gmap Z MegaCallResult) (log : Log)
  : gmap Z MegaCallResult :=
  match decodeEventLog log with
  | Ok (CallExecuted callIndex _ data) =>
      <[Number callIndex := {| success := snd <$> data; returnData := "0x" |}]> resultMap
  | Ok (BatchExecuted _ _) => resultMap
  | Throw _ => resultMap
  end.

Definition callExecutedMap (receipt : TransactionReceipt) : gmap Z MegaCallResult :=
  foldl recordCallExecuted ∅ (logs receipt).

(** Strategies 2 and 3 of [parseCallResults]. *)
Definition resultsFromLogs (receipt : TransactionReceipt) (callCount : Z)
  : res (list MegaCallResult) :=
  let resultMap := callExecutedMap receipt in
  if (0 <? size resultMap)%nat then
    Array_from_length callCount
      (fun i => default assumedSuccess (resultMap !! Z.of_nat i))
  else
    Array_from_length callCount (fun _ => assumedSuccess).

(** [parseCallResults(receipt, callCount, rawReturnData?)]; [callCount]
    is a [number], here the integer it holds. *)
Definition parseCallResults (receipt : TransactionReceipt) (callCount : Z)
    (rawReturnData : option Hex) : res (list MegaCallResult) :=
  match resultsFromReturnData rawReturnData with
  | Some results => Ok results
  | None => resultsFromLogs receipt callCount
  end.

(** ** Gas helpers *)

(** [(estimate * BigInt(100 + bufferPct)) / 100n].  [bufferPct] is a
    [number]: [100 + bufferPct] is an addition of doubles, and [BigInt]
    throws unless the sum is an integer.  Bigint division truncates. *)
Definition applyMegaethGasBuffer (estimate : Z) (bufferPct : number) : res Z :=
  factor ← BigInt_number (number_add (number_of_Z 100) bufferPct);
  mret (Z.quot (estimate * factor) 100).

(** The default of the [bufferPct] parameter. *)
Definition defaultBufferPct : number := number_of_Z 10.

(** ** Safe approve helper *)

(** The local [approveCalldata] of [buildSafeApproveCalls]. *)
Definition approveCalldata (spender : Address) (amt : Z) : Hex :=
  let selector := "0x095ea7b3" in
  let paddedSpender := padStart 64 "0" (slice_from 2 spender) in
  let paddedAmount := padStart 64 "0" (toString16 amt) in
  selector ++ paddedSpender ++ paddedAmount.

Definition buildSafeApproveCalls (token spender : Address) (amount currentAllowance : Z)
  : list MegaCall :=
  let calls : list MegaCall := [] in
  let calls :=
    if (0 <? currentAllowance) && negb (currentAllowance =? amount)
    then (calls ++ [ {| target := token; value := 0; callData := approveCalldata spender 0 |} ])%list
    else calls in
  (calls ++ [ {| target := token; value := 0; callData := approveCalldata spender amount |} ])%list.

(** ** Custom error and validation helpers *)

(** [new MegaFlowError(message, code)]: the constructor prefixes the
    message. *)
Definition MegaFlowError (message : string) (code : MegaFlowErrorCode) : Thrown :=
  ThrownMegaFlowError ("[MegaFlow] " ++ message) code.

(** [err instanceof Error ? err.message : String(err)] *)
Definition errorMessage (err : Thrown) : string :=
  match err with
  | ThrownError _ message => message
  | ThrownMegaFlowError message _ => message
  | ThrownValue asString => asString
  end.

Definition assertCallsNotEmpty {A} (calls : list A) : res unit :=
  if (length calls =? 0)%nat
  then Throw (MegaFlowError "No calls in batch. Add at least one call before executing." EMPTY_BATCH)
  else Ok tt.

(** ** Batch utilities *)

(** [calls.reduce((sum, call) => sum + call.value, 0n)] *)
Definition calculateTotalValue (calls : list MegaCall) : Z :=
  foldl (fun sum call => sum + value call) 0 calls.

End WithViem.
End Utils.

(* ===================================================================== *)
(** * A reference ABI codec                                               *)
(* ===================================================================== *)

(** An implementation of [Viem] over hex strings, following the Solidity
    ABI layout: 32-byte big-endian words, dynamic values behind offsets,
    a length word in front of [bytes], [string] and array contents.  Every
    read is bounds-checked and throws outside the payload. *)
Module Abi.

Definition outOfBounds {A} : res A :=
  Throw (ThrownError "PositionOutOfBoundsError" "Position is out of bounds").
Definition invalidBytes {A} : res A :=
  Throw (ThrownError "BaseError" "Invalid byte sequence").

(** *** Hex strings and bytes; a byte is an integer below 256 *)

Definition hexDigitValue (c : ascii) : option Z :=
  let n := Z.of_nat (nat_of_ascii c) in
  if (48 <=? n) && (n <=? 57) then Some (n - 48)
  else if (97 <=? n) && (n <=? 102) then Some (n - 87)
  else if (65 <=? n) && (n <=? 70) then Some (n - 55)
  else None.

Fixpoint pairsToBytes (s : string) : res (list Z) :=
  match s with
  | String hi (String lo rest) =>
      match hexDigitValue hi, hexDigitValue lo with
      | Some h, Some l => bs ← pairsToBytes rest; mret (h * 16 + l :: bs)
      | _, _ => invalidBytes
      end
  | String _ EmptyString => invalidBytes
  | EmptyString => Ok []
  end.

(** Drops the two-character prefix and left-pads an odd digit string. *)
Definition hexToBytes (h : Hex) : res (list Z) :=
  let digits := slice_from 2 h in
  pairsToBytes (if Nat.odd (String.length digits) then String "0" digits else digits).

Definition hexDigit (d : Z) : ascii :=
  if d <? 10 then ascii_of_nat (Z.to_nat (d + 48)) else ascii_of_nat (Z.to_nat (d + 87)).

Fixpoint bytesToDigits (bs : list Z) : string :=
  match bs with
  | [] => EmptyString
  | b :: bs' => String (hexDigit (b / 16)) (String (hexDigit (b mod 16)) (bytesToDigits bs'))
  end.

Definition bytesToHex (bs : list Z) : Hex := "0x" ++ bytesToDigits bs.

Fixpoint bytesToString (bs : list Z) : string :=
  match bs with
  | [] => EmptyString
  | b :: bs' => String (ascii_of_nat (Z.to_nat b)) (bytesToString bs')
  end.

(** *** Cursor reads *)

Definition bytesToBigInt (bs : list Z) : Z :=
  foldl (fun acc b => acc * 256 + b) 0 bs.

Definition readBytes (bs : list Z) (pos len : Z) : res (list Z) :=
  if (0 <=? pos) && (0 <=? len) && (pos + len <=? Z.of_nat (length bs))
  then Ok (take (Z.to_nat len) (drop (Z.to_nat pos) bs))
  else outOfBounds.

Definition readWord (bs : list Z) (pos : Z) : res Z :=
  w ← readBytes bs pos 32; mret (bytesToBigInt w).

(** A dynamic [bytes] whose offset word sits at [pos]; the offset counts
    from [base]. *)
Definition readDynamicBytes (bs : list Z) (base pos : Z) : res (list Z) :=
  offset ← readWord bs pos;
  len ← readWord bs (base + offset);
  readBytes bs (base + offset + 32) len.

Definition readBool (bs : list Z) (pos : Z) : res bool :=
  w ← readWord bs pos;
  if w =? 0 then Ok false
  else if w =? 1 then Ok true
  else Throw (ThrownError "InvalidBytesBooleanError" "Bytes value is not a valid boolean").

(** *** The decoders of the interface *)

Definition decode_string (data : Hex) : res string :=
  bs ← hexToBytes data;
  s ← readDynamicBytes bs 0 0;
  mret (bytesToString s).

Definition decode_uint256 (data : Hex) : res Z :=
  bs ← hexToBytes data;
  readWord bs 0.

Definition decode_uint256_bytes (data : Hex) : res (Z * Hex) :=
  bs ← hexToBytes data;
  n ← readWord bs 0;
  b ← readDynamicBytes bs 0 32;
  mret (n, bytesToHex b).

(** One [(bool success, bytes returnData)] tuple starting at [start]. *)
Definition readResult (bs : list Z) (start : Z) : res MegaCallResult :=
  ok ← readBool bs start;
  b ← readDynamicBytes bs start (start + 32);
  mret {| success := Some ok; returnData := bytesToHex b |}.

Fixpoint readResults (bs : list Z) (elems : Z) (i : Z) (n : nat) : res (list MegaCallResult) :=
  match n with
  | O => Ok []
  | S n' =>
      offset ← readWord bs (elems + 32 * i);
      r ← readResult bs (elems + offset);
      rs ← readResults bs elems (i + 1) n';
      mret (r :: rs)
  end.

Definition decode_results (data : Hex) : res (list MegaCallResult) :=
  bs ← hexToBytes data;
  offset ← readWord bs 0;
  len ← readWord bs offset;
  if offset + 32 + 32 * len <=? Z.of_nat (length bs)
  then readResults bs (offset + 32) 0 (Z.to_nat len)
  else outOfBounds.

(** *** Event logs of [MEGA_ROUTER_ABI] *)

(** keccak256 of [BatchExecuted(address,uint256,uint256)] *)
Definition topic_BatchExecuted : Hex :=
  "0x41b62e728bad24c9793175686912a5d3533ba7b6e0ab65afb69d36a7230354d2".
(** keccak256 of [CallExecuted(uint256,address,uint256,bool)] *)
Definition topic_CallExecuted : Hex :=
  "0x032765fdd5106f1a84d4d08dea773fd105064457ae46682d379e5f7a404a6e4a".

Definition emptyTopics {A} : res A :=
  Throw (ThrownError "AbiEventSignatureEmptyTopicsError" "Cannot extract event signature from empty topics.").
Definition noMatchingEvent {A} : res A :=
  Throw (ThrownError "AbiEventSignatureNotFoundError" "Encoded event signature not found on ABI").
Definition topicsMismatch {A} : res A :=
  Throw (ThrownError "DecodeLogTopicsMismatch" "Expected a topic for the indexed event parameter").

Definition topicToAddress (topic : Hex) : Address :=
  "0x" ++ slice_from 26 topic.

(** The arguments that are not indexed, read from [data] by [read].
    With [strict: false] an empty [data] ([''] or ['0x']) leaves them
    out, and so does a [data] that [read] cannot decode: the error is
    caught and dropped. *)
Definition decode_data {A} (data : Hex) (read : list Z -> res A) : option A :=
  if String.eqb data "" || String.eqb data "0x" then None
  else
    match bs ← hexToBytes data; read bs with
    | Ok args => Some args
    | Throw _ => None
    end.

(** [decodeEventLog] with [strict: false]: the first topic selects the
    event and has to be there; each indexed argument needs its topic,
    further topics are not read; the data arguments are decoded last. *)
Definition decode_event (log : Log) : res DecodedEventLog :=
  match log_topics log with
  | [] => emptyTopics
  | sig :: argTopics =>
      if String.eqb sig "" then emptyTopics
      else if String.eqb sig topic_BatchExecuted then
        match argTopics with
        | t1 :: _ =>
            if String.eqb t1 "" then topicsMismatch
            else
              mret (BatchExecuted (topicToAddress t1)
                      (decode_data (log_data log)
                         (fun bs => count ← readWord bs 0;
                                    total ← readWord bs 32;
                                    mret (count, total))))
        | [] => topicsMismatch
        end
      else if String.eqb sig topic_CallExecuted then
        match argTopics with
        | t1 :: t2 :: _ =>
            if String.eqb t1 "" || String.eqb t2 "" then topicsMismatch
            else
              index ← decode_uint256 t1;
              mret (CallExecuted index (topicToAddress t2)
                      (decode_data (log_data log)
                         (fun bs => v ← readWord bs 0;
                                    ok ← readBool bs 32;
                                    mret (v, ok))))
        | _ => topicsMismatch
        end
      else noMatchingEvent
  end.

(** *** Function-call encoding *)

Definition selectors : gmap string Hex :=
  list_to_map
    [ ("approve", "0x095ea7b3");
      ("transfer", "0xa9059cbb");
      ("transferFrom", "0x23b872dd");
      ("safeTransferFrom", "0x42842e0e");
      ("setApprovalForAll", "0xa22cb465");
      ("deposit", "0xd0e30db0");
      ("withdraw", "0x2e1a7d4d");
      ("swapExactTokensForTokens", "0x38ed1739");
      ("swapExactETHForTokens", "0x7ff36ab5");
      ("swapExactTokensForETH", "0x18cbafe5") ].

Definition wordDigits (n : Z) : string :=
  padStart 64 "0" (toString16 n).

Definition isAddress (a : Address) : bool :=
  String.eqb (slice 0 2 a) "0x" && (String.length a =? 42)%nat
  && match pairsToBytes (slice_from 2 a) with Ok _ => true | Throw _ => false end.

Definition addressDigits (a : Address) : res string :=
  if isAddress a then Ok (padStart 64 "0" (toLowerCase (slice_from 2 a)))
  else Throw (ThrownError "InvalidAddressError" "Address is invalid").

Fixpoint addressesDigits (path : list Address) : res string :=
  match path with
  | [] => Ok ""
  | a :: rest => d ← addressDigits a; ds ← addressesDigits rest; mret (d ++ ds)
  end.

(** Head word and tail of one argument; [tailStart] is where its tail
    would begin, in bytes from the start of the arguments. *)
Definition encodeArg (tailStart : Z) (arg : AbiArg) : res (string * string) :=
  match arg with
  | ArgAddress a => d ← addressDigits a; mret (d, "")
  | ArgUint n =>
      if (0 <=? n) && (n <? 2 ^ 256) then Ok (wordDigits n, "")
      else Throw (ThrownError "IntegerOutOfRangeError" "Number is not in safe 256-bit unsigned integer range")
  | ArgBool b => Ok (wordDigits (if b then 1 else 0), "")
  | ArgAddressArray path =>
      ds ← addressesDigits path;
      mret (wordDigits tailStart, wordDigits (Z.of_nat (length path)) ++ ds)
  | ArgOther _ => Throw (ThrownError "InvalidAbiEncodingTypeError" "Type is not a valid encoding type")
  end.

Fixpoint encodeArgs (tailStart : Z) (args : list AbiArg) : res (string * string) :=
  match args with
  | [] => Ok ("", "")
  | arg :: rest =>
      '(h, t) ← encodeArg tailStart arg;
      '(hs, ts) ← encodeArgs (tailStart + Z.of_nat (String.length t) / 2) rest;
      mret (h ++ hs, t ++ ts)
  end.

Definition encode_call (abi : Abi) (functionName : string) (args : list AbiArg) : res Hex :=
  match selectors !! functionName with
  | Some selector =>
      '(heads, tails) ← encodeArgs (32 * Z.of_nat (length args)) args;
      mret (selector ++ heads ++ tails)
  | None => Throw (ThrownError "AbiFunctionNotFoundError" "Function not found on ABI")
  end.

Definition codec : Viem := {|
  decodeAbiParameters_string := decode_string;
  decodeAbiParameters_uint256 := decode_uint256;
  decodeAbiParameters_uint256_bytes := decode_uint256_bytes;
  decodeAbiParameters_results := decode_results;
  decodeEventLog := decode_event;
  encodeFunctionData := encode_call;
|}.

End Abi.

(* ===================================================================== *)
(** * builder.ts: the call ledger                                         *)
(* ===================================================================== *)

(** [OperationType] (types.ts) *)
Inductive OperationType :=
| op_transfer | op_approve | op_safeApprove | op_swap | op_wrap | op_unwrap
| op_kyberSwap | op_nftTransfer | op_custom.

(** [SwapParams] and [ApproveAndSwapParams] (types.ts) *)
Record SwapParams := mkSwap {
  swap_router : Address;
  swap_amountIn : Z;
  swap_amountOutMin : Z;
  swap_path : list Address;
  swap_to : Address;
  swap_deadline : option Z;
}.

Record ApproveAndSwapParams := mkApproveAndSwap {
  aas_swap : SwapParams;
  aas_token : Address;
}.

Record KyberQuoteParams := mkKyberQuote {
  kq_tokenIn : string;
  kq_tokenOut : string;
  kq_amountIn : Z;
  kq_slippageBps : option Z;
}.

Record KyberBuildResult := mkKyberBuild {
  kb_routerAddress : Address;
  kb_data : Hex;
  kb_value : string;
  kb_gas : string;
}.

Record Account := mkAccount { account_address : Address }.
Record WalletClient := mkWallet { wallet_account : option Account }.

(** The host the builder runs on: the system clock and the two
    aggregator requests of utils.ts ([getKyberQuote], [buildKyberSwap]),
    known by their outcome; [BigInt(s)] on a string of the response. *)
Class Host := {
  Date_now : nat -> Z;   (* the n-th reading of [Date.now()] *)
  getKyberQuote : KyberQuoteParams -> res string;
  buildKyberSwap : string -> Address -> Address -> option Z -> res KyberBuildResult;
  BigInt : string -> res Z;
}.

Module Builder.

(** ** The object store

    [MegaCall] records, [RecordedOperation] records and arrays are
    JavaScript objects: each lives at a location, and arrays and
    operation records hold locations, so that two arrays can share their
    elements. *)

Definition loc := positive.

Record RecordedOperation := mkOperation {
  op_type : OperationType;
  op_call : loc;
  op_metadata : option (list (string * string));
  op_timestamp : Z;
}.

Inductive Obj :=
| ObjCall (c : MegaCall)
| ObjOperation (o : RecordedOperation)
| ObjArray (elems : list loc).

(** The fields of a [MegaFlowBuilder] together with the store. *)
Record State := mkState {
  heap : gmap loc Obj;
  calls : loc;                          (* [this.calls] *)
  operations : loc;                     (* [this.operations] *)
  walletClient : option WalletClient;   (* [this.walletClient] *)
  routerAddress : Address;
  chainId : Z;                          (* [this.chain.id] *)
  debug : bool;
  ticks : nat;                          (* clock readings taken so far *)
}.

Definition set_heap (h : gmap loc Obj) (σ : State) : State :=
  mkState h (calls σ) (operations σ) (walletClient σ) (routerAddress σ) (chainId σ) (debug σ) (ticks σ).
Definition set_calls (l : loc) (σ : State) : State :=
  mkState (heap σ) l (operations σ) (walletClient σ) (routerAddress σ) (chainId σ) (debug σ) (ticks σ).
Definition set_operations (l : loc) (σ : State) : State :=
  mkState (heap σ) (calls σ) l (walletClient σ) (routerAddress σ) (chainId σ) (debug σ) (ticks σ).
Definition set_walletClient (w : option WalletClient) (σ : State) : State :=
  mkState (heap σ) (calls σ) (operations σ) w (routerAddress σ) (chainId σ) (debug σ) (ticks σ).
Definition set_ticks (n : nat) (σ : State) : State :=
  mkState (heap σ) (calls σ) (operations σ) (walletClient σ) (routerAddress σ) (chainId σ) (debug σ) n.

(** Contents of the array at [l] (empty when [l] is not an array). *)
Definition array_at (h : gmap loc Obj) (l : loc) : list loc :=
  match h !! l with
  | Some (ObjArray elems) => elems
  | _ => []
  end.

Definition call_at (h : gmap loc Obj) (l : loc) : option MegaCall :=
  match h !! l with
  | Some (ObjCall c) => Some c
  | _ => None
  end.

Definition operation_at (h : gmap loc Obj) (l : loc) : option RecordedOperation :=
  match h !! l with
  | Some (ObjOperation o) => Some o
  | _ => None
  end.

(** ** Builder methods: state passing, with exceptions

    A method maps the state before to an outcome and the state after;
    what was mutated before a [throw] stays mutated. *)

Definition M (A : Type) : Type := State -> res A * State.

#[global] Instance M_ret : MRet M := fun A a σ => (Ok a, σ).
#[global] Instance M_bind : MBind M := fun A B f m σ =>
  match m σ with
  | (Ok a, σ') => f a σ'
  | (Throw e, σ') => (Throw e, σ')
  end.

Definition lift {A} (r : res A) : M A := fun σ => (r, σ).
Definition gets {A} (f : State -> A) : M A := fun σ => (Ok (f σ), σ).
Definition modify (f : State -> State) : M unit := fun σ => (Ok tt, f σ).

(** [new] object: a location the store does not use yet. *)
Definition alloc (o : Obj) : M loc := fun σ =>
  let l := fresh (dom (heap σ)) in
  (Ok l, set_heap (<[l := o]> (heap σ)) σ).

(** [arr.push(x)] *)
Definition push (arr : loc) (x : loc) : M unit :=
  modify (fun σ => set_heap (<[arr := ObjArray (array_at (heap σ) arr ++ [x])]> (heap σ)) σ).

(** [arr.pop()]: removes and returns the last element, [undefined] on
    an empty array. *)
Definition array_pop (arr : loc) : M (option loc) := fun σ =>
  let elems := array_at (heap σ) arr in
  match last elems with
  | None => (Ok None, σ)
  | Some x => (Ok (Some x), set_heap (<[arr := ObjArray (removelast elems)]> (heap σ)) σ)
  end.

(** [[...arr]]: a new array with the same elements. *)
Definition spread (arr : loc) : M loc :=
  elems ← gets (fun σ => array_at (heap σ) arr);
  alloc (ObjArray elems).

Section WithEnvironment.
Context {viem : Viem} {host : Host}.

(** [Date.now()] *)
Definition dateNow : M Z := fun σ =>
  (Ok (Date_now (ticks σ)), set_ticks (S (ticks σ)) σ).

(** [deadlineInMinutes(minutes)] (utils.ts):
    [BigInt(Math.floor(Date.now() / 1000) + minutes * 60)] *)
Definition deadlineInMinutes (minutes : Z) : M Z :=
  now ← dateNow;
  mret (now / 1000 + minutes * 60).

(** [recordOperation(type, call, metadata)] *)
Definition recordOperation (type : OperationType) (call : loc)
    (metadata : option (list (string * string))) : M unit :=
  now ← dateNow;
  operations_ ← gets operations;
  o ← alloc (ObjOperation {| op_type := type; op_call := call;
                             op_metadata := metadata; op_timestamp := now |});
  push operations_ o.

(** ** Generic call builders *)

Definition add (target : Address) (callData : Hex) (value : Z) : M unit :=
  call ← alloc (ObjCall {| target := target; value := value; callData := callData |});
  calls_ ← gets calls;
  push calls_ call;;
  recordOperation op_custom call None.

Definition addCall (target : Address) (abi : Abi) (functionName : string)
    (args : list AbiArg) (value : option Z) : M unit :=
  callData ← lift (encodeFunctionData abi functionName args);
  add target callData (default 0 value).

Definition sendETH (to : Address) (value : Z) : M unit :=
  call ← alloc (ObjCall {| target := to; value := value; callData := "0x00" |});
  calls_ ← gets calls;
  push calls_ call;;
  recordOperation op_custom call
    (Some [("type", "sendETH"); ("to", to); ("value", toString value)]).

(** ** ERC20 helpers *)

Definition approve (token spender : Address) (amount : Z) : M unit :=
  addCall token ERC20_ABI "approve" [ArgAddress spender; ArgUint amount] None.

(** The loop of [safeApprove] over [approvalCalls]. *)
Fixpoint pushApprovalCalls (approvalCalls : list MegaCall)
    (metadata : list (string * string)) : M unit :=
  match approvalCalls with
  | [] => mret tt
  | c :: rest =>
      call ← alloc (ObjCall c);
      calls_ ← gets calls;
      push calls_ call;;
      recordOperation op_safeApprove call (Some metadata);;
      pushApprovalCalls rest metadata
  end.

Definition safeApprove (token spender : Address) (amount currentAllowance : Z) : M unit :=
  let approvalCalls := Utils.buildSafeApproveCalls token spender amount currentAllowance in
  pushApprovalCalls approvalCalls
    [("token", token); ("spender", spender); ("amount", toString amount)].

Definition transfer (token to : Address) (amount : Z) : M unit :=
  addCall token ERC20_ABI "transfer" [ArgAddress to; ArgUint amount] None.

Definition transferFrom (token from to : Address) (amount : Z) : M unit :=
  addCall token ERC20_ABI "transferFrom" [ArgAddress from; ArgAddress to; ArgUint amount] None.

Fixpoint multiTransfer (token : Address) (transfers : list (Address * Z)) : M unit :=
  match transfers with
  | [] => mret tt
  | (to, amount) :: rest => transfer token to amount;; multiTransfer token rest
  end.

(** ** ERC721 helpers *)

Definition transferNFT (nft from to : Address) (tokenId : Z) : M unit :=
  addCall nft ERC721_ABI "safeTransferFrom" [ArgAddress from; ArgAddress to; ArgUint tokenId] None.

Definition approveNFT (nft to : Address) (tokenId : Z) : M unit :=
  addCall nft ERC721_ABI "approve" [ArgAddress to; ArgUint tokenId] None.

Definition setApprovalForAll (nft operator : Address) (approved : bool) : M unit :=
  addCall nft ERC721_ABI "setApprovalForAll" [ArgAddress operator; ArgBool approved] None.

(** ** WETH helpers *)

(** [MEGAETH_TOKENS.WETH] (constants.ts), the default [wethAddress] *)
Definition MEGAETH_TOKENS_WETH : Address := "0x4200000000000000000000000000000000000006".

Definition wrapETH (wethAddress : option Address) (amount : Z) : M unit :=
  addCall (default MEGAETH_TOKENS_WETH wethAddress) WETH_ABI "deposit" [] (Some amount).

Definition unwrapWETH (wethAddress : option Address) (amount : Z) : M unit :=
  addCall (default MEGAETH_TOKENS_WETH wethAddress) WETH_ABI "withdraw" [ArgUint amount] None.

(** ** DEX helpers *)

(** [params.deadline ?? deadlineInMinutes(5)] *)
Definition deadlineOf (params : SwapParams) : M Z :=
  match swap_deadline params with
  | Some d => mret d
  | None => deadlineInMinutes 5
  end.

Definition swapExactTokensForTokens (params : SwapParams) : M unit :=
  deadline ← deadlineOf params;
  addCall (swap_router params) UNISWAP_V2_ROUTER_ABI "swapExactTokensForTokens"
    [ArgUint (swap_amountIn params); ArgUint (swap_amountOutMin params);
     ArgAddressArray (swap_path params); ArgAddress (swap_to params); ArgUint deadline] None.

Definition swapExactETHForTokens (params : SwapParams) : M unit :=
  deadline ← deadlineOf params;
  addCall (swap_router params) UNISWAP_V2_ROUTER_ABI "swapExactETHForTokens"
    [ArgUint (swap_amountOutMin params); ArgAddressArray (swap_path params);
     ArgAddress (swap_to params); ArgUint deadline] (Some (swap_amountIn params)).

Definition swapExactTokensForETH (params : SwapParams) : M unit :=
  deadline ← deadlineOf params;
  addCall (swap_router params) UNISWAP_V2_ROUTER_ABI "swapExactTokensForETH"
    [ArgUint (swap_amountIn params); ArgUint (swap_amountOutMin params);
     ArgAddressArray (swap_path params); ArgAddress (swap_to params); ArgUint deadline] None.

Definition approveAndSwap (params : ApproveAndSwapParams) : M unit :=
  approve (aas_token params) (swap_router (aas_swap params)) (swap_amountIn (aas_swap params));;
  swapExactTokensForTokens (aas_swap params).

(** ** KyberSwap integration *)

Definition kyberSwap (params : KyberQuoteParams) (sender : Address) : M unit :=
  route ← lift (getKyberQuote params);
  built ← lift (buildKyberSwap route sender sender (kq_slippageBps params));
  v ← lift (BigInt (kb_value built));
  add (kb_routerAddress built) (kb_data built) v.

(** ** Utility methods *)

(** [getCalls()]: [[...this.calls]] *)
Definition getCalls : M loc :=
  calls_ ← gets calls;
  spread calls_.

(** [getOperations()]: [[...this.operations]] *)
Definition getOperations : M loc :=
  operations_ ← gets operations;
  spread operations_.

(** The values of the calls queued in the array at [arr]. *)
Definition calls_in (h : gmap loc Obj) (arr : loc) : list MegaCall :=
  omap (call_at h) (array_at h arr).

(** [getTotalValue()]: [this.calls.reduce((sum, c) => sum + c.value, 0n)] *)
Definition getTotalValue (σ : State) : Z :=
  foldl (fun sum c => sum + value c) 0 (calls_in (heap σ) (calls σ)).

(** [BuilderState] (types.ts): the object returned by [getState()]. *)
Record BuilderState := mkBuilderState {
  state_calls : loc;
  state_operations : loc;
  state_totalValue : Z;
  state_chainId : Z;
}.

Definition getState : M BuilderState :=
  calls_ ← gets calls;
  callsCopy ← spread calls_;
  operations_ ← gets operations;
  operationsCopy ← spread operations_;
  totalValue ← gets getTotalValue;
  chainId_ ← gets chainId;
  mret {| state_calls := callsCopy; state_operations := operationsCopy;
          state_totalValue := totalValue; state_chainId := chainId_ |}.

(** [clear()]: both fields get a new empty array. *)
Definition clear : M unit :=
  a ← alloc (ObjArray []);
  modify (set_calls a);;
  b ← alloc (ObjArray []);
  modify (set_operations b).

(** [pop()]: [this.operations.pop(); return this.calls.pop();] *)
Definition pop : M (option loc) :=
  operations_ ← gets operations;
  array_pop operations_;;
  calls_ ← gets calls;
  array_pop calls_.

(** [get length()] *)
Definition length_ (σ : State) : nat := length (array_at (heap σ) (calls σ)).

(** [get isEmpty()] *)
Definition isEmpty (σ : State) : bool := (length_ σ =? 0)%nat.

(** ** Connection *)

Definition connect (w : WalletClient) : M unit := modify (set_walletClient (Some w)).
Definition disconnect : M unit := modify (set_walletClient None).

(** ** Construction: [new MegaFlowBuilder(config)] in a store [h] *)

Definition construct (h : gmap loc Obj) (router : Address) (chain : Z) (dbg : bool) : State :=
  let a := fresh (dom h) in
  let h1 := <[a := ObjArray []]> h in
  let b := fresh (dom h1) in
  {| heap := <[b := ObjArray []]> h1; calls := a; operations := b;
     walletClient := None; routerAddress := router; chainId := chain;
     debug := dbg; ticks := 0 |}.

(** ** Method invocations, for sequences of builder operations *)

Inductive Invocation :=
| call_add (target : Address) (callData : Hex) (value : option Z)
| call_addCall (target : Address) (abi : Abi) (functionName : string)
    (args : list AbiArg) (value : option Z)
| call_sendETH (to : Address) (value : Z)
| call_approve (token spender : Address) (amount : Z)
| call_safeApprove (token spender : Address) (amount currentAllowance : Z)
| call_transfer (token to : Address) (amount : Z)
| call_transferFrom (token from to : Address) (amount : Z)
| call_multiTransfer (token : Address) (transfers : list (Address * Z))
| call_transferNFT (nft from to : Address) (tokenId : Z)
| call_approveNFT (nft to : Address) (tokenId : Z)
| call_setApprovalForAll (nft operator : Address) (approved : bool)
| call_wrapETH (wethAddress : option Address) (amount : Z)
| call_unwrapWETH (wethAddress : option Address) (amount : Z)
| call_swapExactTokensForTokens (params : SwapParams)
| call_swapExactETHForTokens (params : SwapParams)
| call_swapExactTokensForETH (params : SwapParams)
| call_approveAndSwap (params : ApproveAndSwapParams)
| call_kyberSwap (params : KyberQuoteParams) (sender : Address)
| call_getCalls
| call_getOperations
| call_getState
| call_clear
| call_pop
| call_connect (w : WalletClient)
| call_disconnect.

(** The state a method invocation leaves behind, whether it returned or
    threw. *)
Definition invoke (i : Invocation) (σ : State) : State :=
  match i with
  | call_add t d v => (add t d (default 0 v) σ).2
  | call_addCall t a f args v => (addCall t a f args v σ).2
  | call_sendETH to v => (sendETH to v σ).2
  | call_approve t s a => (approve t s a σ).2
  | call_safeApprove t s a c => (safeApprove t s a c σ).2
  | call_transfer t to a => (transfer t to a σ).2
  | call_transferFrom t f to a => (transferFrom t f to a σ).2
  | call_multiTransfer t ts => (multiTransfer t ts σ).2
  | call_transferNFT n f t i => (transferNFT n f t i σ).2
  | call_approveNFT n t i => (approveNFT n t i σ).2
  | call_setApprovalForAll n o a => (setApprovalForAll n o a σ).2
  | call_wrapETH w a => (wrapETH w a σ).2
  | call_unwrapWETH w a => (unwrapWETH w a σ).2
  | call_swapExactTokensForTokens p => (swapExactTokensForTokens p σ).2
  | call_swapExactETHForTokens p => (swapExactETHForTokens p σ).2
  | call_swapExactTokensForETH p => (swapExactTokensForETH p σ).2
  | call_approveAndSwap p => (approveAndSwap p σ).2
  | call_kyberSwap p s => (kyberSwap p s σ).2
  | call_getCalls => (getCalls σ).2
  | call_getOperations => (getOperations σ).2
  | call_getState => (getState σ).2
  | call_clear => (clear σ).2
  | call_pop => (pop σ).2
  | call_connect w => (connect w σ).2
  | call_disconnect => (disconnect σ).2
  end.

Definition invoke_all (invocations : list Invocation) (σ : State) : State :=
  foldl (fun σ i => invoke i σ) σ invocations.

(** ** Code that holds a snapshot

    What a holder of object references can do to the store: change an
    array in place (push, pop, splice, assignment to an index or to
    [length]) or assign fields of a record. *)
Inductive Mutation :=
| set_array (arr : loc) (elems : list loc)
| set_call (c : loc) (new : MegaCall)
| set_operation (o : loc) (new : RecordedOperation).

Definition mutate_heap (μ : Mutation) (h : gmap loc Obj) : gmap loc Obj :=
  match μ with
  | set_array arr elems =>
      match h !! arr with Some (ObjArray _) => <[arr := ObjArray elems]> h | _ => h end
  | set_call c new =>
      match h !! c with Some (ObjCall _) => <[c := ObjCall new]> h | _ => h end
  | set_operation o new =>
      match h !! o with Some (ObjOperation _) => <[o := ObjOperation new]> h | _ => h end
  end.

Definition mutate (μ : Mutation) (σ : State) : State := set_heap (mutate_heap μ (heap σ)) σ.

(** A mutation of the snapshot's own arrays. *)
Definition mutates_arrays_of (snap : BuilderState) (μ : Mutation) : Prop :=
  match μ with
  | set_array arr _ => arr = state_calls snap ∨ arr = state_operations snap
  | _ => False
  end.

(** A mutation of the snapshot: of its arrays, of a record element
    inside them, or of the call record of an operation inside them. *)
Definition mutates_snapshot (snap : BuilderState) (h : gmap loc Obj) (μ : Mutation) : Prop :=
  match μ with
  | set_array arr _ => arr = state_calls snap ∨ arr = state_operations snap
  | set_call c _ =>
      c ∈ array_at h (state_calls snap)
      ∨ ∃ o op, o ∈ array_at h (state_operations snap)
                ∧ operation_at h o = Some op ∧ op_call op = c
  | set_operation o _ => o ∈ array_at h (state_operations snap)
  end.

(** The live ledger as a caller observes it: the queued calls, the
    recorded operations with the call each refers to, the total value. *)
Definition read_operation (h : gmap loc Obj) (o : loc)
  : option (RecordedOperation * option MegaCall) :=
  op ← operation_at h o; Some (op, call_at h (op_call op)).

Definition operations_in (h : gmap loc Obj) (arr : loc)
  : list (RecordedOperation * option MegaCall) :=
  omap (read_operation h) (array_at h arr).

Definition ledger (σ : State)
  : list loc * list loc * list MegaCall * list (RecordedOperation * option MegaCall) * Z :=
  (array_at (heap σ) (calls σ), array_at (heap σ) (operations σ),
   calls_in (heap σ) (calls σ), operations_in (heap σ) (operations σ),
   getTotalValue σ).

End WithEnvironment.
End Builder.

(* ===================================================================== *)
(** * builder.ts: simulation and synchronous execution                    *)
(* ===================================================================== *)

(** Doubles ([performance.now()] readings and their differences) are kept
    abstract. *)
Class Float64 := {
  Double : Type;
  Double_sub : Double -> Double -> Double;
  Double_toFixed : Z -> Double -> string;
}.

(** [ExecuteOptions] (types.ts) *)
Record ExecuteOptions := mkOptions {
  gasLimit : option Z;
  maxFeePerGas : option Z;
  maxPriorityFeePerGas : option Z;
  nonce : option Z;
}.

(** The argument of [simulateContract] / [estimateContractGas] against
    [MEGA_ROUTER_ABI], which is also the shape of the validated [request]
    that [simulateContract] hands back. *)
Record ContractCall := mkContractCall {
  cc_address : Address;
  cc_functionName : string;
  cc_args : list MegaCall;
  cc_value : Z;
  cc_account : option Account;
  cc_gas : option Z;
}.

Record SimulateContractReturn := mkSimulateReturn {
  sim_request : ContractCall;
  sim_result : list MegaCallResult;
}.

(** [MegaFlowSimulationResult] (types.ts) *)
Record MegaFlowSimulationResult := mkSimulation {
  simulation_success : bool;
  simulation_results : option (list MegaCallResult);
  simulation_gasEstimate : option Z;
  simulation_error : option string;
  simulation_revertReason : option string;
  simulation_failedCallIndex : option Z;
}.

Module Orchestrator.
Section WithEnvironment.
Context {viem : Viem} {float : Float64}.

(** [MegaFlowSyncResult] (types.ts) *)
Record MegaFlowSyncResult := mkSyncResult {
  sync_receipt : TransactionReceipt;
  sync_results : list MegaCallResult;
  sync_gasUsed : Z;
  sync_executionTimeMs : Double;
}.

(** ** Programs over the chain client

    An awaited chain-client request resolves or rejects; a local effect
    (clock, console) returns.  [Cut] stands for a callee whose recursion
    was cut short by its fuel. *)

Inductive Request : Type -> Type :=
| readContract (address : Address) (functionName : string) (args : list MegaCall) : Request Z
| simulateContract (call : ContractCall) : Request SimulateContractReturn
| estimateContractGas (call : ContractCall) : Request Z
| signTransaction (request : ContractCall) : Request Hex
| request (method : string) (params : list Hex) : Request TransactionReceipt.

Inductive Local : Type -> Type :=
| performance_now : Local Double
| console_log (message : string) (data : list (string * string)) : Local unit.

Inductive Prog (A : Type) : Type :=
| Ret (a : A)
| Raise (e : Thrown)
| Cut
| Await {X : Type} (r : Request X) (k : res X -> Prog A)
| Perform {X : Type} (l : Local X) (k : X -> Prog A).
Arguments Ret {A} a.
Arguments Raise {A} e.
Arguments Cut {A}.
Arguments Await {A X} r k.
Arguments Perform {A X} l k.

Fixpoint bind {A B} (p : Prog A) (f : A -> Prog B) : Prog B :=
  match p with
  | Ret a => f a
  | Raise e => Raise e
  | Cut => Cut
  | Await r k => Await r (fun x => bind (k x) f)
  | Perform l k => Perform l (fun x => bind (k x) f)
  end.

#[global] Instance Prog_ret : MRet Prog := fun A a => Ret a.
#[global] Instance Prog_bind : MBind Prog := fun A B f p => bind p f.

(** [try { body } catch (err) { handler(err) }] *)
Fixpoint try_catch {A} (body : Prog A) (handler : Thrown -> Prog A) : Prog A :=
  match body with
  | Ret a => Ret a
  | Raise e => handler e
  | Cut => Cut
  | Await r k => Await r (fun x => try_catch (k x) handler)
  | Perform l k => Perform l (fun x => try_catch (k x) handler)
  end.

(** [await] of a request: the value it resolves to, or a throw of what
    it rejects with. *)
Definition await {X} (r : Request X) : Prog X :=
  Await r (fun x => match x with Ok v => Ret v | Throw e => Raise e end).

Definition perform {X} (l : Local X) : Prog X := Perform l Ret.

Definition lift {A} (r : res A) : Prog A :=
  match r with Ok a => Ret a | Throw e => Raise e end.

Definition lift_fuel {A} (r : option (res A)) : Prog A :=
  match r with Some r' => lift r' | None => Cut end.

(** ** Private helpers of the builder *)

(** [this.log(message, data)] *)
Definition log (σ : Builder.State) (message : string) (data : list (string * string))
  : Prog unit :=
  if Builder.debug σ then perform (console_log ("[MegaFlow] " ++ message) data) else Ret tt.

Definition is_digit (c : ascii) : bool :=
  let n := nat_of_ascii c in ((48 <=? n) && (n <=? 57))%nat.

(** [\s] on ASCII text *)
Definition is_space (c : ascii) : bool :=
  let n := nat_of_ascii c in (((9 <=? n) && (n <=? 13)) || (n =? 32))%nat.

Fixpoint skip_spaces (s : string) : string :=
  match s with
  | String c s' => if is_space c then skip_spaces s' else s
  | EmptyString => s
  end.

(** The longest run of digits in front of [s]: [(\d+)] when non-empty. *)
Fixpoint digits_prefix (s : string) : string :=
  match s with
  | String c s' => if is_digit c then String c (digits_prefix s') else EmptyString
  | EmptyString => EmptyString
  end.

(** [parseInt(digits, 10)] of a run of decimal digits, as the integer
    the resulting double holds. *)
Definition parseInt (digits : string) : Z :=
  Number (Z.of_N (N.of_uint
    (default Decimal.Nil (DecimalString.NilEmpty.uint_of_string digits)))).

Definition starts_with (p s : string) : bool := String.prefix p s.

(** A match of [/CallFailed\((\d+)/] anchored at the front of [s]. *)
Definition match_CallFailed_here (s : string) : option string :=
  if starts_with "CallFailed(" s then
    let d := digits_prefix (slice_from 11 s) in
    if String.eqb d "" then None else Some d
  else None.

(** A match of [/call\s*#?\s*(\d+)/i] anchored at the front of [s]. *)
Definition match_call_index_here (s : string) : option string :=
  if String.eqb (toLowerCase (slice 0 4 s)) "call" then
    let s1 := skip_spaces (slice_from 4 s) in
    let s2 := if starts_with "#" s1 then slice_from 1 s1 else s1 in
    let d := digits_prefix (skip_spaces s2) in
    if String.eqb d "" then None else Some d
  else None.

(** [s.match(re)]: the capture of the leftmost match. *)
Fixpoint first_match (here : string -> option string) (s : string) : option string :=
  match here s with
  | Some d => Some d
  | None =>
      match s with
      | String _ s' => first_match here s'
      | EmptyString => None
      end
  end.

Definition extractFailedCallIndex (errorMessage : string) : option Z :=
  match first_match match_CallFailed_here errorMessage with
  | Some d => Some (parseInt d)
  | None =>
      match first_match match_call_index_here errorMessage with
      | Some d => Some (parseInt d)
      | None => None
      end
  end.

(** ** On-chain reads *)

Definition queued (σ : Builder.State) : list MegaCall :=
  Builder.calls_in (Builder.heap σ) (Builder.calls σ).

Definition calculateRequiredETH (σ : Builder.State) : Prog Z :=
  if (Builder.length_ σ =? 0)%nat then Ret 0
  else await (readContract (Builder.routerAddress σ) "calculateRequiredETH" (queued σ)).

(** [this.walletClient?.account] *)
Definition connectedAccount (σ : Builder.State) : option Account :=
  w ← Builder.walletClient σ; wallet_account w.

(** ** Simulation (dry run) *)

Definition simulate (σ : Builder.State) : Prog MegaFlowSimulationResult :=
  lift (Utils.assertCallsNotEmpty (Builder.array_at (Builder.heap σ) (Builder.calls σ)));;
  try_catch
    (requiredETH ← calculateRequiredETH σ;
     let call := {| cc_address := Builder.routerAddress σ; cc_functionName := "executeBatch";
                    cc_args := queued σ; cc_value := requiredETH;
                    cc_account := connectedAccount σ; cc_gas := None |} in
     simulated ← await (simulateContract call);
     gasEstimate ← await (estimateContractGas call);
     buffered ← lift (Utils.applyMegaethGasBuffer gasEstimate Utils.defaultBufferPct);
     mret {| simulation_success := true;
             simulation_results := Some (sim_result simulated);
             simulation_gasEstimate := Some buffered;
             simulation_error := None; simulation_revertReason := None;
             simulation_failedCallIndex := None |})
    (fun err =>
       let errorMessage := Utils.errorMessage err in
       revertReason ← lift_fuel (Utils.decodeRevertError errorMessage);
       let failedCallIndex := extractFailedCallIndex errorMessage in
       log σ "Simulation failed"
         [("error", errorMessage);
          ("failedCallIndex", from_option toString "undefined" failedCallIndex)];;
       mret {| simulation_success := false;
               simulation_results := None; simulation_gasEstimate := None;
               simulation_error := Some errorMessage;
               simulation_revertReason := Some revertReason;
               simulation_failedCallIndex := failedCallIndex |}).

(** ** Execution: synchronous *)

Definition assertWalletConnected (walletClient : option WalletClient) : res unit :=
  match walletClient with
  | Some _ => Ok tt
  | None => Throw (Utils.MegaFlowError
                     "Wallet not connected. Call connect() or connectWithAccount() first."
                     WALLET_NOT_CONNECTED)
  end.

Definition assertAccount (walletClient : option WalletClient) : res Account :=
  match walletClient ≫= wallet_account with
  | Some account => Ok account
  | None => Throw (Utils.MegaFlowError "Wallet has no account attached." NO_ACCOUNT)
  end.

Definition callCount (σ : Builder.State) : Z := Z.of_nat (Builder.length_ σ).

Definition executeSync (σ : Builder.State) (options : ExecuteOptions)
  : Prog MegaFlowSyncResult :=
  lift (Utils.assertCallsNotEmpty (Builder.array_at (Builder.heap σ) (Builder.calls σ)));;
  lift (assertWalletConnected (Builder.walletClient σ));;
  account ← lift (assertAccount (Builder.walletClient σ));
  startTime ← perform performance_now;
  log σ "Executing batch (sync)" [("callCount", toString (callCount σ))];;
  requiredETH ← calculateRequiredETH σ;
  (* 1. Simulate to get the validated request *)
  simulated ← await (simulateContract
    {| cc_address := Builder.routerAddress σ; cc_functionName := "executeBatch";
       cc_args := queued σ; cc_value := requiredETH;
       cc_account := Some account; cc_gas := gasLimit options |});
  let request_ := sim_request simulated in
  (* 2. Sign the raw transaction *)
  signedTx ← await (signTransaction
    {| cc_address := cc_address request_; cc_functionName := cc_functionName request_;
       cc_args := cc_args request_; cc_value := cc_value request_;
       cc_account := Some account; cc_gas := cc_gas request_ |});
  (* 3. Send with the sync method *)
  receipt ← await (request "eth_sendRawTransactionSync" [signedTx]);
  now ← perform performance_now;
  let executionTimeMs := Double_sub now startTime in
  log σ "Sync execution completed"
    [("executionTimeMs", Double_toFixed 2 executionTimeMs)];;
  results ← lift (Utils.parseCallResults receipt (callCount σ) None);
  mret {| sync_receipt := receipt; sync_results := results;
          sync_gasUsed := gasUsed receipt; sync_executionTimeMs := executionTimeMs |}.

Definition executeRealtime (σ : Builder.State) (options : ExecuteOptions)
  : Prog MegaFlowSyncResult :=
  lift (Utils.assertCallsNotEmpty (Builder.array_at (Builder.heap σ) (Builder.calls σ)));;
  lift (assertWalletConnected (Builder.walletClient σ));;
  account ← lift (assertAccount (Builder.walletClient σ));
  startTime ← perform performance_now;
  requiredETH ← calculateRequiredETH σ;
  simulated ← await (simulateContract
    {| cc_address := Builder.routerAddress σ; cc_functionName := "executeBatch";
       cc_args := queued σ; cc_value := requiredETH;
       cc_account := Some account; cc_gas := gasLimit options |});
  let request_ := sim_request simulated in
  signedTx ← await (signTransaction
    {| cc_address := cc_address request_; cc_functionName := cc_functionName request_;
       cc_args := cc_args request_; cc_value := cc_value request_;
       cc_account := Some account; cc_gas := cc_gas request_ |});
  receipt ← await (request "realtime_sendRawTransaction" [signedTx]);
  now ← perform performance_now;
  let executionTimeMs := Double_sub now startTime in
  results ← lift (Utils.parseCallResults receipt (callCount σ) None);
  mret {| sync_receipt := receipt; sync_results := results;
          sync_gasUsed := gasUsed receipt; sync_executionTimeMs := executionTimeMs |}.

(** ** Running a program against a chain client

    The world [W] answers requests and performs local effects; [run]
    returns the outcome, the requests and effects issued in order, and
    the world after. *)

Inductive Event :=
| requested {X} (r : Request X)
| performed {X} (l : Local X).

Inductive Outcome (A : Type) :=
| Returned (a : A)
| Threw (e : Thrown)
| CutShort.
Arguments Returned {A} a.
Arguments Threw {A} e.
Arguments CutShort {A}.

Record ChainClient (W : Type) := mkChainClient {
  answer : forall X, Request X -> W -> res X * W;
  effect : forall X, Local X -> W -> X * W;
}.
Arguments answer {W} _ {X} _ _.
Arguments effect {W} _ {X} _ _.

Fixpoint run {W A} (client : ChainClient W) (p : Prog A) (w : W) : Outcome A * list Event * W :=
  match p with
  | Ret a => (Returned a, [], w)
  | Raise e => (Threw e, [], w)
  | Cut => (CutShort, [], w)
  | Await r k =>
      let '(x, w1) := answer client r w in
      let '(o, t, w2) := run client (k x) w1 in
      (o, requested r :: t, w2)
  | Perform l k =>
      let '(x, w1) := effect client l w in
      let '(o, t, w2) := run client (k x) w1 in
      (o, performed l :: t, w2)
  end.

(** ** Comparing programs *)

(** Sameness of programs, pointwise in the continuations. *)
Inductive same {A} : Prog A -> Prog A -> Prop :=
| same_Ret a : same (Ret a) (Ret a)
| same_Raise e : same (Raise e) (Raise e)
| same_Cut : same Cut Cut
| same_Await {X} (r : Request X) k1 k2 :
    (forall x, same (k1 x) (k2 x)) -> same (Await r k1) (Await r k2)
| same_Perform {X} (l : Local X) k1 k2 :
    (forall x, same (k1 x) (k2 x)) -> same (Perform l k1) (Perform l k2).

(** The RPC method of a raw [request], renamed by [f]. *)
Definition rename_request (f : string -> string) {X} (r : Request X) : Request X :=
  match r with
  | request method params => request (f method) params
  | r' => r'
  end.

Fixpoint rename_method (f : string -> string) {A} (p : Prog A) : Prog A :=
  match p with
  | Ret a => Ret a
  | Raise e => Raise e
  | Cut => Cut
  | Await r k => Await (rename_request f r) (fun x => rename_method f (k x))
  | Perform l k => Perform l (fun x => rename_method f (k x))
  end.

(** The program without its console output. *)
Fixpoint silent {A} (p : Prog A) : Prog A :=
  match p with
  | Ret a => Ret a
  | Raise e => Raise e
  | Cut => Cut
  | Await r k => Await r (fun x => silent (k x))
  | Perform l k =>
      match l in Local X return (X -> Prog A) -> Prog A with
      | console_log _ _ => fun k' => k' tt
      | performance_now => fun k' => Perform performance_now k'
      end (fun x => silent (k x))
  end.

(** The standardized name to the original one. *)
Definition sync_to_realtime (method : string) : string :=
  if String.eqb method "eth_sendRawTransactionSync" then "realtime_sendRawTransaction"
  else method.

End WithEnvironment.

Arguments Ret {float A} a.
Arguments Raise {float A} e.
Arguments Cut {float A}.
Arguments Await {float A X} r k.
Arguments Perform {float A X} l k.
Arguments Returned {A} a.
Arguments Threw {A} e.
Arguments CutShort {A}.
Arguments answer {float W} _ {X} _ _.
Arguments effect {float W} _ {X} _ _.
Arguments mkChainClient {float W} _ _.

End Orchestrator.

(* ===================================================================== *)
(** * client.ts: nonce management                                         *)
(* ===================================================================== *)

Module Client.

(** [getNextNonce(address)], with the awaited
    [getTransactionCount({ address, blockTag: 'pending' })] known by its
    outcome [pending].  Between the await and the cache update nothing
    suspends.  Nonces are [number]s holding integers: [lastUsed + 1] is
    the sum rounded to the nearest double, which from [2^53] on can be
    [lastUsed] itself. *)
Definition getNextNonce (address : Address) (pending : res Z) (nonceCache : gmap string Z)
  : res Z * gmap string Z :=
  let key := toLowerCase address in
  match pending with
  | Throw e => (Throw e, nonceCache)
  | Ok networkNonce =>
      let lastUsed := default (-1) (nonceCache !! key) in
      let nonce := Z.max networkNonce (Number (lastUsed + 1)) in
      (Ok nonce, <[key := nonce]> nonceCache)
  end.

(** [resetNonce(address)] *)
Definition resetNonce (address : Address) (nonceCache : gmap string Z) : gmap string Z :=
  delete (toLowerCase address) nonceCache.

(** Calls made on one client, in order. *)
Inductive Invocation :=
| call_getNextNonce (address : Address) (pending : res Z)
| call_resetNonce (address : Address).

(** The nonces handed out by a sequence of calls ([None] for a call
    that hands out none), and the cache after. *)
Fixpoint invoke_all (invocations : list Invocation) (nonceCache : gmap string Z)
  : list (option Z) * gmap string Z :=
  match invocations with
  | [] => ([], nonceCache)
  | call_getNextNonce address pending :: rest =>
      let '(r, cache1) := getNextNonce address pending nonceCache in
      let '(issued, cache2) := invoke_all rest cache1 in
      (match r with Ok n => Some n | Throw _ => None end :: issued, cache2)
  | call_resetNonce address :: rest =>
      let '(issued, cache2) := invoke_all rest (resetNonce address nonceCache) in
      (None :: issued, cache2)
  end.


End Client.

(* ===================================================================== *)
(** * Properties of the revert decoder                                    *)
(* ===================================================================== *)

Section StringFacts.

Lemma length_slice_from n s : String.length (slice_from n s) = (String.length s - n)%nat.
Proof.
  revert s; induction n as [|n IH]; intros [|c s]; simpl; try rewrite IH; lia.
Qed.

Lemma length_toLowerCase s : String.length (toLowerCase s) = String.length s.
Proof. induction s as [|c s IH]; simpl; [reflexivity|by rewrite IH]. Qed.

Lemma length_substring_le n m s : (String.length (String.substring n m s) <= String.length s)%nat.
Proof.
  revert n m; induction s as [|c s IH]; intros [|n] [|m]; simpl;
    try lia; try (specialize (IH 0%nat m); lia); try (specialize (IH n 0%nat); lia);
    specialize (IH n (S m)); lia.
Qed.

Lemma length_append s t : String.length (s ++ t) = (String.length s + String.length t)%nat.
Proof. induction s as [|c s IH]; simpl; [reflexivity|by rewrite IH]. Qed.

Lemma append_nonempty_l s t : s <> "" -> s ++ t <> "".
Proof. intros H; destruct s; [by destruct H | discriminate]. Qed.

End StringFacts.

Section RevertDecoder.
Context {viem : Viem}.
Import Utils.

(** What the codec owes the decoder: the [bytes] cut out of a payload
    are shorter than the payload. *)
Definition inner_bytes_shorter : Prop :=
  forall data index inner,
    decodeAbiParameters_uint256_bytes data = Ok (index, inner) ->
    (String.length inner < String.length data)%nat.

Lemma customErrors_nonempty selector fixed :
  customErrors !! selector = Some fixed -> fixed <> "".
Proof.
  intros H. apply elem_of_list_to_map_2 in H.
  repeat (apply elem_of_cons in H as [H|H]; [inversion H; subst; discriminate|]).
  by apply elem_of_nil in H.
Qed.

Lemma noRevertData_false_length returnData :
  noRevertData returnData = false -> (10 <= String.length returnData)%nat.
Proof.
  unfold noRevertData. intros H.
  apply orb_false_elim in H as [_ H]. apply Nat.ltb_ge in H. exact H.
Qed.

Lemma length_revertPayload returnData :
  (10 <= String.length returnData)%nat ->
  (String.length (revertPayload returnData) < String.length returnData)%nat.
Proof.
  intros H. unfold revertPayload. rewrite length_append, length_slice_from. simpl. lia.
Qed.

(** Enough fuel gives a non-empty string, never an exception. *)
Lemma decodeRevertError_fuel_total :
  inner_bytes_shorter ->
  forall fuel returnData,
    (String.length returnData <= fuel)%nat ->
    exists s, decodeRevertError_fuel fuel returnData = Some (Ok s) /\ s <> "".
Proof.
  intros Hshort fuel. induction fuel as [|fuel IH]; intros returnData Hlen.
  - exists "Execution reverted with no data". split; [|discriminate].
    destruct returnData; [reflexivity | simpl in Hlen; lia].
  - cbn [decodeRevertError_fuel].
    destruct (noRevertData returnData) eqn:Hno; [eexists; split; [reflexivity|discriminate]|].
    apply noRevertData_false_length in Hno.
    destruct (String.eqb _ "0x08c379a0").
    { destruct (decodeAbiParameters_string _); simpl;
        eexists; (split; [reflexivity|discriminate]). }
    destruct (String.eqb _ "0x4e487b71").
    { destruct (decodeAbiParameters_uint256 _); simpl;
        eexists; (split; [reflexivity|discriminate]). }
    destruct (customErrors !! _) as [fixed|] eqn:Hfixed;
      [|eexists; split; [reflexivity|discriminate]].
    apply customErrors_nonempty in Hfixed.
    destruct (String.eqb _ "0x85d9d0b8"); [|eexists; split; [reflexivity|assumption]].
    destruct (decodeAbiParameters_uint256_bytes _) as [[callIndex innerData]|] eqn:Hdec;
      [|eexists; split; [reflexivity|assumption]].
    apply Hshort in Hdec. pose proof (length_revertPayload returnData Hno).
    destruct (IH innerData) as (inner & -> & _); [lia|].
    eexists; split; [reflexivity|discriminate].
Qed.

(** More fuel than the payload is long changes nothing. *)
Lemma decodeRevertError_fuel_irrelevant :
  inner_bytes_shorter ->
  forall fuel1 fuel2 returnData,
    (String.length returnData <= fuel1)%nat ->
    (String.length returnData <= fuel2)%nat ->
    decodeRevertError_fuel fuel1 returnData = decodeRevertError_fuel fuel2 returnData.
Proof.
  intros Hshort fuel1. induction fuel1 as [|fuel1 IH]; intros fuel2 returnData H1 H2.
  - destruct returnData; [|simpl in H1; lia]. by destruct fuel2.
  - destruct fuel2 as [|fuel2].
    { destruct returnData; [reflexivity|simpl in H2; lia]. }
    cbn [decodeRevertError_fuel].
    destruct (noRevertData returnData) eqn:Hno; [reflexivity|].
    apply noRevertData_false_length in Hno.
    destruct (String.eqb _ "0x08c379a0"); [reflexivity|].
    destruct (String.eqb _ "0x4e487b71"); [reflexivity|].
    destruct (customErrors !! _) as [fixed|]; [|reflexivity].
    destruct (String.eqb _ "0x85d9d0b8"); [|reflexivity].
    destruct (decodeAbiParameters_uint256_bytes _) as [[callIndex innerData]|] eqn:Hdec;
      [|reflexivity].
    apply Hshort in Hdec. pose proof (length_revertPayload returnData Hno).
    rewrite (IH fuel2 innerData); [reflexivity|lia|lia].
Qed.

(** With the fuel the exported function gives itself, the decoder
    returns a string. *)
Lemma decodeRevertError_returns :
  inner_bytes_shorter ->
  forall returnData : Hex, exists s, decodeRevertError returnData = Some (Ok s).
Proof.
  intros Hshort returnData.
  destruct (decodeRevertError_fuel_total Hshort (String.length returnData) returnData)
    as (s & Hs & _); [lia|]. by exists s.
Qed.

(** C4.  [decodeRevertError] is total: for every input string, under a
    codec whose decoded inner bytes are shorter than the payload, it
    returns, it never throws, and the string returned is not empty. *)
Theorem decodeRevertError_total :
  inner_bytes_shorter ->
  forall returnData : Hex,
    exists s, decodeRevertError returnData = Some (Ok s) /\ s <> "".
Proof.
  intros Hshort returnData. apply decodeRevertError_fuel_total; [assumption|lia].
Qed.

(** Each classification branch, as the source lists them. *)
Lemma decodeRevertError_no_data returnData :
  noRevertData returnData = true ->
  decodeRevertError returnData = Some (Ok "Execution reverted with no data").
Proof.
  intros H. unfold decodeRevertError.
  destruct (String.length returnData); simpl; by rewrite H.
Qed.

Lemma codes_has_ten_entries : size codes = 10%nat.
Proof. reflexivity. Qed.

Lemma customErrors_has_eight_entries : size customErrors = 8%nat.
Proof. reflexivity. Qed.

(** An unknown panic code renders as its raw hex value. *)
Lemma decodePanicCode_unknown code :
  codes !! code = None -> decodePanicCode code = "code 0x" ++ toString16 code.
Proof. unfold decodePanicCode. by intros ->. Qed.

Definition selector_of (returnData : Hex) : string := toLowerCase (slice 0 10 returnData).

Lemma selector_length returnData :
  String.length (selector_of returnData) = 10%nat -> noRevertData returnData = false.
Proof.
  unfold selector_of, slice. rewrite length_toLowerCase. intros H.
  pose proof (length_substring_le 0 (10 - 0) returnData) as Hle. rewrite H in Hle.
  unfold noRevertData.
  destruct returnData as [|a [|b [|c r]]]; simpl in Hle; try lia.
  simpl String.length. destruct (String.eqb _ "0x") eqn:E.
  { apply String.eqb_eq in E. discriminate. }
  rewrite orb_false_r. simpl.
  apply Nat.ltb_ge. simpl in Hle. lia.
Qed.

End RevertDecoder.

Section ReferenceCodec.
Import Abi.

Lemma pairsToBytes_length_bounded n : forall s bs,
  (String.length s <= n)%nat ->
  pairsToBytes s = Ok bs -> (2 * length bs = String.length s)%nat.
Proof.
  induction n as [|n IH]; intros s bs Hn.
  - destruct s; [|simpl in Hn; lia]. intros [= <-]. reflexivity.
  - destruct s as [|hi [|lo rest]]; simpl.
    + intros [= <-]. reflexivity.
    + discriminate.
    + destruct (hexDigitValue hi); [|discriminate].
      destruct (hexDigitValue lo); [|discriminate].
      destruct (pairsToBytes rest) as [bs'|] eqn:E; simpl; [|discriminate].
      intros [= <-]. simpl. rewrite <- (IH rest bs'); [lia| simpl in Hn; lia |exact E].
Qed.

Lemma pairsToBytes_length s bs :
  pairsToBytes s = Ok bs -> (2 * length bs = String.length s)%nat.
Proof. apply (pairsToBytes_length_bounded (String.length s)). lia. Qed.

Lemma hexToBytes_length data bs :
  hexToBytes data = Ok bs -> (2 * length bs <= String.length data - 1)%nat.
Proof.
  unfold hexToBytes. intros H. apply pairsToBytes_length in H.
  pose proof (length_slice_from 2 data) as Hs.
  destruct (Nat.odd _) eqn:Hodd; [|lia].
  cbn [String.length] in H.
  assert (String.length (slice_from 2 data) <> 0%nat)
    by (intros E; rewrite E in Hodd; discriminate).
  lia.
Qed.

Lemma length_bytesToDigits bs : String.length (bytesToDigits bs) = (2 * length bs)%nat.
Proof. induction bs as [|b bs IH]; simpl; [reflexivity|rewrite IH; lia]. Qed.

Lemma readBytes_length bs pos len out :
  readBytes bs pos len = Ok out -> 0 <= pos /\ Z.of_nat (length out) <= Z.of_nat (length bs) - pos.
Proof.
  unfold readBytes. destruct (_ && _) eqn:E; [|discriminate].
  apply andb_prop in E as [E E3]. apply andb_prop in E as [E1 E2].
  intros [= <-]. rewrite length_take, length_drop. lia.
Qed.

Lemma readDynamicBytes_length bs pos out :
  readDynamicBytes bs 0 pos = Ok out -> (length out + 32 <= length bs)%nat.
Proof.
  unfold readDynamicBytes, readWord.
  destruct (readBytes bs pos 32) as [w|]; simpl; [|discriminate].
  destruct (readBytes bs (0 + bytesToBigInt w) 32) as [w'|] eqn:E; simpl; [|discriminate].
  apply readBytes_length in E as [E _].
  intros H. apply readBytes_length in H as [_ H]. lia.
Qed.

(** The reference codec cuts inner bytes out of the payload, behind
    their length word. *)
Lemma codec_inner_bytes_shorter : @inner_bytes_shorter codec.
Proof.
  intros data index inner. simpl. unfold decode_uint256_bytes.
  destruct (hexToBytes data) as [bs|] eqn:Hbs; simpl; [|discriminate].
  destruct (readWord bs 0); simpl; [|discriminate].
  destruct (readDynamicBytes bs 0 32) as [b|] eqn:Hb; simpl; [|discriminate].
  intros [= _ <-]. apply hexToBytes_length in Hbs. apply readDynamicBytes_length in Hb.
  unfold bytesToHex. rewrite length_append, length_bytesToDigits. simpl. lia.
Qed.

End ReferenceCodec.

Section RevertDecoderCallFailed.
Context {viem : Viem}.
Import Utils.

(** C3.  A payload that starts with the CallFailed selector [0x85d9d0b8]:
    when its tail decodes as [(uint256 index, bytes innerBytes)], the
    decoder returns ["Call #{index} failed → {m}"] with [m] what the
    decoder itself returns on [innerBytes]; when the tail does not decode,
    it returns the fixed CallFailed message, on any fuel, so without
    recursing. *)
Theorem decodeRevertError_CallFailed :
  inner_bytes_shorter ->
  forall returnData : Hex,
    selector_of returnData = "0x85d9d0b8" ->
    match decodeAbiParameters_uint256_bytes (revertPayload returnData) with
    | Ok (index, innerBytes) =>
        exists m,
          decodeRevertError innerBytes = Some (Ok m)
          /\ decodeRevertError returnData
             = Some (Ok ("Call #" ++ toString index ++ " failed → " ++ m))
    | Throw _ =>
        forall fuel,
          decodeRevertError_fuel fuel returnData
          = Some (Ok "CallFailed: one of the batch calls reverted")
    end.
Proof.
  intros Hshort returnData Hsel.
  assert (Hno : noRevertData returnData = false)
    by (apply selector_length; rewrite Hsel; reflexivity).
  pose proof (noRevertData_false_length _ Hno) as Hlen.
  pose proof (length_revertPayload returnData Hlen) as Hpay.
  destruct (decodeAbiParameters_uint256_bytes _) as [[index innerBytes]|e] eqn:Hdec.
  - destruct (decodeRevertError_returns Hshort innerBytes) as (m & Hm).
    exists m. split; [exact Hm|].
    unfold decodeRevertError.
    destruct (String.length returnData) as [|fuel] eqn:Hfuel; [lia|].
    cbn [decodeRevertError_fuel]. rewrite Hno.
    fold (selector_of returnData). rewrite Hsel. simpl String.eqb.
    change (customErrors !! "0x85d9d0b8")
      with (Some "CallFailed: one of the batch calls reverted").
    cbn iota. rewrite Hdec.
    pose proof (Hshort _ _ _ Hdec) as Hin.
    rewrite (decodeRevertError_fuel_irrelevant Hshort fuel (String.length innerBytes));
      [|lia|lia].
    unfold decodeRevertError in Hm. rewrite Hm. reflexivity.
  - intros fuel.
    destruct fuel; cbn [decodeRevertError_fuel]; rewrite Hno;
      fold (selector_of returnData); rewrite Hsel; simpl String.eqb;
      change (customErrors !! "0x85d9d0b8")
        with (Some "CallFailed: one of the batch calls reverted");
      cbn iota; rewrite Hdec; reflexivity.
Qed.

End RevertDecoderCallFailed.

Section RevertDecoderExamples.
Import Utils.

(** [Panic(0x11)] *)
Definition panic_example : Hex :=
  "0x4e487b710000000000000000000000000000000000000000000000000000000000000011".

(** [CallFailed(2, Error("transfer amount exceeds balance"))] *)
Definition CallFailed_example : Hex :=
  "0x85d9d0b800000000000000000000000000000000000000000000000000000000000000020000000000000000000000000000000000000000000000000000000000000040000000000000000000000000000000000000000000000000000000000000006408c379a00000000000000000000000000000000000000000000000000000000000000020000000000000000000000000000000000000000000000000000000000000001f7472616e7366657220616d6f756e7420657863656564732062616c616e63650000000000000000000000000000000000000000000000000000000000".

Lemma decodeRevertError_total_witness :
  @inner_bytes_shorter Abi.codec
  /\ exists s, @decodeRevertError Abi.codec panic_example = Some (Ok s) /\ s <> "".
Proof.
  split; [exact codec_inner_bytes_shorter|].
  apply (@decodeRevertError_total Abi.codec codec_inner_bytes_shorter).
Defined.

Lemma decodeRevertError_CallFailed_witness :
  @inner_bytes_shorter Abi.codec
  /\ @selector_of CallFailed_example = "0x85d9d0b8"
  /\ @decodeRevertError Abi.codec CallFailed_example
     = Some (Ok "Call #2 failed → Reverted: transfer amount exceeds balance").
Proof.
  split; [exact codec_inner_bytes_shorter|]. split; [reflexivity|].
  pose proof (@decodeRevertError_CallFailed Abi.codec codec_inner_bytes_shorter
                CallFailed_example eq_refl) as H.
  vm_compute in H. destruct H as (m & Hm & H). injection Hm as <-. exact H.
Defined.

Example decodeRevertError_panic_overflow :
  @decodeRevertError Abi.codec panic_example
  = Some (Ok "Panic: arithmetic overflow/underflow").
Proof. vm_compute. reflexivity. Qed.

Example decodeRevertError_unknown_selector :
  @decodeRevertError Abi.codec "0xdeadbeef00000000"
  = Some (Ok "Reverted with unknown selector 0xdeadbeef").
Proof. vm_compute. reflexivity. Qed.

Example decodeRevertError_truncated_CallFailed :
  @decodeRevertError Abi.codec "0x85d9d0b80000"
  = Some (Ok "CallFailed: one of the batch calls reverted").
Proof. vm_compute. reflexivity. Qed.

End RevertDecoderExamples.

(* ===================================================================== *)
(** * Properties of the receipt parser                                    *)
(* ===================================================================== *)

Section ReceiptParser.
Context {viem : Viem}.
Import Utils.






(** It passes when there are no return bytes, when they are no longer
    than ['0x'], and when decoding them throws. *)
Lemma resultsFromReturnData_passes rawReturnData :
  (forall raw, rawReturnData = Some raw ->
     (String.length raw <= 2)%nat
     \/ exists err, decodeAbiParameters_results raw = Throw err) ->
  resultsFromReturnData rawReturnData = None.
Proof.
  intros H. unfold resultsFromReturnData. destruct rawReturnData as [raw|]; [|done].
  destruct (H raw eq_refl) as [Hlen|[err Herr]].
  - assert ((2 <? String.length raw)%nat = false) as -> by (apply Nat.ltb_ge; lia).
    by rewrite andb_false_r.
  - rewrite Herr. by destruct (_ && _).
Qed.


End ReceiptParser.

Section ReceiptParserExamples.
Import Utils.


Definition empty_receipt : TransactionReceipt :=
  {| logs := []; gasUsed := 21000; effectiveGasPrice := 1000000;
     blockNumber := 1; transactionHash := "0x00" |}.

(** A receipt with one [CallExecuted(callIndex = 1, success = false)]. *)
Definition one_event_receipt : TransactionReceipt :=
  {| logs :=
       [ {| log_data := "0x00000000000000000000000000000000000000000000000000000000000000000000000000000000000000000000000000000000000000000000000000000000";
            log_topics :=
              [ Abi.topic_CallExecuted;
                "0x0000000000000000000000000000000000000000000000000000000000000001";
                "0x0000000000000000000000001111111111111111111111111111111111111111" ] |} ];
     gasUsed := 21000; effectiveGasPrice := 1000000;
     blockNumber := 1; transactionHash := "0x00" |}.



Example parseCallResults_from_events :
  @parseCallResults Abi.codec one_event_receipt 3 None
  = Ok [ {| success := Some true; returnData := "0x" |};
         {| success := Some false; returnData := "0x" |};
         {| success := Some true; returnData := "0x" |} ].
Proof. vm_compute. reflexivity. Qed.

(** Outside the range of array lengths: a negative count gives no
    entries, a count of [2^32] makes [Array.from] throw. *)
Example parseCallResults_negative_callCount :
  @parseCallResults Abi.codec empty_receipt (-1) None = Ok [].
Proof. vm_compute. reflexivity. Qed.

Example parseCallResults_callCount_too_large :
  @parseCallResults Abi.codec empty_receipt (2 ^ 32) None
  = Throw (ThrownError "RangeError" "Invalid array length").
Proof. vm_compute. reflexivity. Qed.

Example parseCallResults_fallback :
  @parseCallResults Abi.codec empty_receipt 2 None
  = Ok [ {| success := Some true; returnData := "0x" |};
         {| success := Some true; returnData := "0x" |} ].
Proof. vm_compute. reflexivity. Qed.

End ReceiptParserExamples.

(* ===================================================================== *)
(** * Properties of the call ledger                                       *)
(* ===================================================================== *)

Section Ledger.
Context {viem : Viem} {host : Host}.
Import Builder.
Local Open Scope list_scope.

(** A well-formed ledger: [this.calls] and [this.operations] are two
    distinct arrays of the store, of equal length; the first holds call
    records, the second operation records whose call is a call record. *)
Record ledger_wf (σ : State) : Prop := mk_ledger_wf {
  wf_distinct : calls σ ≠ operations σ;
  wf_calls : exists cs, heap σ !! calls σ = Some (ObjArray cs);
  wf_operations : exists os, heap σ !! operations σ = Some (ObjArray os);
  wf_aligned :
    length (array_at (heap σ) (calls σ)) = length (array_at (heap σ) (operations σ));
  wf_call_elems :
    Forall (fun l => is_Some (call_at (heap σ) l)) (array_at (heap σ) (calls σ));
  wf_operation_elems :
    Forall (fun l => exists op, operation_at (heap σ) l = Some op
                                /\ is_Some (call_at (heap σ) (op_call op)))
           (array_at (heap σ) (operations σ));
}.

(** A method keeps the ledger well-formed, whether it returns or throws. *)
Definition keeps {A} (m : M A) : Prop :=
  forall σ, ledger_wf σ -> ledger_wf (m σ).2.

Lemma fresh_not_allocated (h : gmap loc Obj) : h !! fresh (dom h) = None.
Proof. apply not_elem_of_dom. apply is_fresh. Qed.

Lemma call_at_Some_lookup h l c : call_at h l = Some c <-> h !! l = Some (ObjCall c).
Proof.
  unfold call_at. destruct (h !! l) as [[]|]; split; intros H; by inversion H.
Qed.

Lemma operation_at_Some_lookup h l o :
  operation_at h l = Some o <-> h !! l = Some (ObjOperation o).
Proof.
  unfold operation_at. destruct (h !! l) as [[]|]; split; intros H; by inversion H.
Qed.

Lemma array_at_lookup h l elems : h !! l = Some (ObjArray elems) -> array_at h l = elems.
Proof. unfold array_at. by intros ->. Qed.

(** [h'] keeps every record (call or operation) of [h]. *)
Definition keeps_records (h h' : gmap loc Obj) : Prop :=
  forall l o, h !! l = Some o -> (forall elems, o <> ObjArray elems) -> h' !! l = Some o.

Lemma keeps_call_at h h' l :
  keeps_records h h' -> is_Some (call_at h l) -> call_at h' l = call_at h l.
Proof.
  intros Hag [c Hc]. rewrite Hc. apply call_at_Some_lookup.
  apply Hag; [by apply call_at_Some_lookup|discriminate].
Qed.

Lemma keeps_operation_at h h' l op :
  keeps_records h h' -> operation_at h l = Some op -> operation_at h' l = Some op.
Proof.
  intros Hag Hop. apply operation_at_Some_lookup.
  apply Hag; [by apply operation_at_Some_lookup|discriminate].
Qed.

Lemma keeps_records_insert_fresh h l o : h !! l = None -> keeps_records h (<[l := o]> h).
Proof.
  intros Hl l' o' H' _. rewrite lookup_insert_ne; [exact H'|]. intros ->. congruence.
Qed.

Lemma keeps_records_insert_array h l elems elems' :
  h !! l = Some (ObjArray elems) -> keeps_records h (<[l := ObjArray elems']> h).
Proof.
  intros Hl l' o' H' Hna. rewrite lookup_insert_ne; [exact H'|].
  intros ->. rewrite Hl in H'. injection H' as <-. by apply (Hna elems).
Qed.

Lemma keeps_records_refl h : keeps_records h h.
Proof. by intros l o H _. Qed.

Lemma keeps_records_trans h1 h2 h3 :
  keeps_records h1 h2 -> keeps_records h2 h3 -> keeps_records h1 h3.
Proof. intros H12 H23 l o H Hna. apply H23; [by apply H12|exact Hna]. Qed.

Lemma call_elems_kept h h' ls :
  keeps_records h h' ->
  Forall (fun l => is_Some (call_at h l)) ls ->
  Forall (fun l => is_Some (call_at h' l)) ls.
Proof.
  intros Hag HF. eapply Forall_impl; [exact HF|].
  intros l H. by rewrite (keeps_call_at h h' l Hag H).
Qed.

Lemma operation_elems_kept h h' ls :
  keeps_records h h' ->
  Forall (fun l => exists op, operation_at h l = Some op
                              /\ is_Some (call_at h (op_call op))) ls ->
  Forall (fun l => exists op, operation_at h' l = Some op
                              /\ is_Some (call_at h' (op_call op))) ls.
Proof.
  intros Hag HF. eapply Forall_impl; [exact HF|].
  intros l (op & Hop & Hc). exists op. split.
  - by apply (keeps_operation_at h h').
  - by rewrite (keeps_call_at h h' _ Hag Hc).
Qed.

Lemma omap_call_at_kept h h' (ls : list loc) :
  keeps_records h h' ->
  Forall (fun l => is_Some (call_at h l)) ls ->
  omap (call_at h') ls = omap (call_at h) ls.
Proof.
  intros Hag HF. induction HF as [|l ls Hl _ IH]; [reflexivity|].
  cbn [omap list_omap]. rewrite (keeps_call_at h h' l Hag Hl).
  destruct (call_at h l); [f_equal|]; exact IH.
Qed.

Lemma calls_in_kept h h' arr arr' :
  keeps_records h h' ->
  Forall (fun l => is_Some (call_at h l)) (array_at h arr) ->
  array_at h' arr' = array_at h arr ->
  calls_in h' arr' = calls_in h arr.
Proof.
  intros Hag HF Harr. unfold calls_in. rewrite Harr. by apply omap_call_at_kept.
Qed.

Lemma read_operation_kept h h' l op :
  keeps_records h h' ->
  operation_at h l = Some op -> is_Some (call_at h (op_call op)) ->
  read_operation h' l = read_operation h l.
Proof.
  intros Hag Hop Hc. unfold read_operation.
  rewrite Hop, (keeps_operation_at h h' l op Hag Hop). simpl.
  by rewrite (keeps_call_at h h' _ Hag Hc).
Qed.

Lemma omap_read_operation_kept h h' (ls : list loc) :
  keeps_records h h' ->
  Forall (fun l => exists op, operation_at h l = Some op
                              /\ is_Some (call_at h (op_call op))) ls ->
  omap (read_operation h') ls = omap (read_operation h) ls.
Proof.
  intros Hag HF. induction HF as [|l ls (op & Hop & Hc) _ IH]; [reflexivity|].
  cbn [omap list_omap]. rewrite (read_operation_kept h h' l op Hag Hop Hc).
  destruct (read_operation h l); [f_equal|]; exact IH.
Qed.

Lemma operations_in_kept h h' arr arr' :
  keeps_records h h' ->
  Forall (fun l => exists op, operation_at h l = Some op
                              /\ is_Some (call_at h (op_call op))) (array_at h arr) ->
  array_at h' arr' = array_at h arr ->
  operations_in h' arr' = operations_in h arr.
Proof.
  intros Hag HF Harr. unfold operations_in. rewrite Harr.
  by apply omap_read_operation_kept.
Qed.

(** Reading a well-formed ledger in a store that keeps its records and
    its two arrays. *)
Lemma ledger_wf_kept σ h' :
  ledger_wf σ ->
  keeps_records (heap σ) h' ->
  h' !! calls σ = heap σ !! calls σ ->
  h' !! operations σ = heap σ !! operations σ ->
  ledger_wf (set_heap h' σ).
Proof.
  intros [Hd [cs Hcs] [os Hos] Hal Hce Hoe] Hag Hc' Ho'.
  rewrite Hcs in Hc'. rewrite Hos in Ho'.
  rewrite (array_at_lookup _ _ _ Hcs) in Hal, Hce.
  rewrite (array_at_lookup _ _ _ Hos) in Hal, Hoe.
  constructor; simpl; try done; eauto;
    rewrite ?(array_at_lookup _ _ _ Hc'), ?(array_at_lookup _ _ _ Ho'); try done.
  - by apply (call_elems_kept (heap σ)).
  - by apply (operation_elems_kept (heap σ)).
Qed.

Lemma keeps_ret {A} (a : A) : keeps (mret a).
Proof. intros σ H. exact H. Qed.

Lemma keeps_bind {A B} (m : M A) (f : A -> M B) :
  keeps m -> (forall a, keeps (f a)) -> keeps (m ≫= f).
Proof.
  intros Hm Hf σ H. specialize (Hm σ H). unfold mbind, M_bind.
  destruct (m σ) as [[a|e] σ']; simpl in *; [by apply Hf|exact Hm].
Qed.

Lemma keeps_lift {A} (r : res A) : keeps (lift r).
Proof. intros σ H. exact H. Qed.

Lemma keeps_gets {A} (f : State -> A) : keeps (gets f).
Proof. intros σ H. exact H. Qed.

Lemma keeps_alloc o : keeps (alloc o).
Proof.
  intros σ H. unfold alloc. simpl.
  pose proof (fresh_not_allocated (heap σ)) as Hf.
  destruct H as [Hd [cs Hcs] [os Hos] Hal Hce Hoe] eqn:E. clear E.
  apply ledger_wf_kept; [by constructor; eauto| by apply keeps_records_insert_fresh | |];
    (rewrite lookup_insert_ne; [reflexivity|intros Heq; rewrite Heq in Hf; congruence]).
Qed.

Lemma keeps_spread arr : keeps (spread arr).
Proof. apply keeps_bind; [apply keeps_gets|]. intros. apply keeps_alloc. Qed.

Lemma keeps_dateNow : keeps dateNow.
Proof. intros σ [Hd Hc Ho Hal Hce Hoe]. by constructor. Qed.

Lemma keeps_set_walletClient w : keeps (modify (set_walletClient w)).
Proof. intros σ [Hd Hc Ho Hal Hce Hoe]. by constructor. Qed.

(** The step shared by [add], [sendETH] and the loop of [safeApprove]:
    a new call record is pushed on [this.calls] and recorded. *)
Definition append (type : OperationType) (c : MegaCall)
    (metadata : option (list (string * string))) : M unit :=
  call ← alloc (ObjCall c);
  calls_ ← gets calls;
  push calls_ call;;
  recordOperation type call metadata.

(** What [append] does to a well-formed ledger. *)
Record appended (type : OperationType) (c : MegaCall)
    (metadata : option (list (string * string))) (σ σ' : State) : Prop := mk_appended {
  app_wf : ledger_wf σ';
  app_calls : calls σ' = calls σ;
  app_operations : operations σ' = operations σ;
  app_wallet : walletClient σ' = walletClient σ;
  app_records : keeps_records (heap σ) (heap σ');
  app_calls_in :
    calls_in (heap σ') (calls σ') = calls_in (heap σ) (calls σ) ++ [c];
  app_operations_in :
    exists lc,
      heap σ !! lc = None
      /\ call_at (heap σ') lc = Some c
      /\ array_at (heap σ') (calls σ') = array_at (heap σ) (calls σ) ++ [lc]
      /\ operations_in (heap σ') (operations σ')
         = operations_in (heap σ) (operations σ)
           ++ [ ({| op_type := type; op_call := lc; op_metadata := metadata;
                    op_timestamp := Date_now (ticks σ) |}, Some c) ];
  app_length :
    length (array_at (heap σ') (operations σ'))
    = S (length (array_at (heap σ) (operations σ)));
}.

Lemma append_spec type c metadata σ :
  ledger_wf σ ->
  exists σ', append type c metadata σ = (Ok tt, σ') /\ appended type c metadata σ σ'.
Proof.
  intros Hwf. pose proof Hwf as [Hd [cs Hcs] [os Hos] Hal Hce Hoe].
  rewrite (array_at_lookup _ _ _ Hcs) in Hal, Hce.
  rewrite (array_at_lookup _ _ _ Hos) in Hal, Hoe.
  set (h := heap σ) in *.
  set (lc := fresh (dom h)).
  assert (Hlc : h !! lc = None) by apply fresh_not_allocated.
  assert (Hlc1 : lc <> calls σ) by (intros E; rewrite E in Hlc; congruence).
  assert (Hlc2 : lc <> operations σ) by (intros E; rewrite E in Hlc; congruence).
  set (h1 := <[lc := ObjCall c]> h).
  assert (Hcs1 : h1 !! calls σ = Some (ObjArray cs))
    by (unfold h1; by rewrite lookup_insert_ne).
  set (h2 := <[calls σ := ObjArray (cs ++ [lc])]> h1).
  set (lo := fresh (dom h2)).
  assert (Hlo : h2 !! lo = None) by apply fresh_not_allocated.
  assert (Hlo1 : lo <> calls σ).
  { intros E. rewrite E in Hlo. unfold h2 in Hlo. by rewrite lookup_insert_eq in Hlo. }
  assert (Hlo0 : lo <> lc).
  { intros E. rewrite E in Hlo. unfold h2, h1 in Hlo.
    rewrite lookup_insert_ne, lookup_insert_eq in Hlo; [discriminate|congruence]. }
  assert (Hlo2 : lo <> operations σ).
  { intros E. rewrite E in Hlo. unfold h2, h1 in Hlo.
    rewrite !lookup_insert_ne in Hlo; congruence. }
  assert (Hloh : h !! lo = None).
  { unfold h2, h1 in Hlo. by rewrite !lookup_insert_ne in Hlo. }
  set (op := {| op_type := type; op_call := lc; op_metadata := metadata;
                op_timestamp := Date_now (ticks σ) |}).
  set (h3 := <[lo := ObjOperation op]> h2).
  assert (Hos3 : h3 !! operations σ = Some (ObjArray os)).
  { unfold h3, h2, h1. by rewrite !lookup_insert_ne. }
  set (h4 := <[operations σ := ObjArray (os ++ [lo])]> h3).
  exists (mkState h4 (calls σ) (operations σ) (walletClient σ) (routerAddress σ)
            (chainId σ) (debug σ) (S (ticks σ))).
  assert (Hrun : append type c metadata σ
                 = (Ok tt, mkState h4 (calls σ) (operations σ) (walletClient σ)
                             (routerAddress σ) (chainId σ) (debug σ) (S (ticks σ)))).
  { unfold append, recordOperation, alloc, push, gets, modify, dateNow,
      mbind, M_bind, mret, M_ret, set_heap, set_ticks. simpl.
    fold h. fold lc. fold h1. rewrite (array_at_lookup _ _ _ Hcs1). fold h2. fold lo.
    fold op. fold h3. rewrite (array_at_lookup _ _ _ Hos3). reflexivity. }
  split; [exact Hrun|].
  assert (Hc4 : h4 !! calls σ = Some (ObjArray (cs ++ [lc]))).
  { unfold h4, h3. rewrite !lookup_insert_ne by congruence. unfold h2.
    by rewrite lookup_insert_eq. }
  assert (Ho4 : h4 !! operations σ = Some (ObjArray (os ++ [lo])))
    by (unfold h4; by rewrite lookup_insert_eq).
  assert (Hlc4 : call_at h4 lc = Some c).
  { apply call_at_Some_lookup. unfold h4, h3, h2, h1.
    rewrite !lookup_insert_ne by congruence. by rewrite lookup_insert_eq. }
  assert (Hlo4 : operation_at h4 lo = Some op).
  { apply operation_at_Some_lookup. unfold h4.
    rewrite lookup_insert_ne by congruence. unfold h3. by rewrite lookup_insert_eq. }
  assert (Hkeep : keeps_records h h4).
  { intros l o Hl Hna.
    assert (l <> calls σ) by (intros ->; rewrite Hcs in Hl; injection Hl as <-; by eapply Hna).
    assert (l <> operations σ)
      by (intros ->; rewrite Hos in Hl; injection Hl as <-; by eapply Hna).
    assert (l <> lc) by congruence. assert (l <> lo) by congruence.
    unfold h4, h3, h2, h1. by rewrite !lookup_insert_ne. }
  assert (Hce4 : Forall (fun l => is_Some (call_at h4 l)) (cs ++ [lc])).
  { apply Forall_app. split; [by apply (call_elems_kept h)|].
    apply Forall_singleton. by rewrite Hlc4. }
  assert (Hoe4 : Forall (fun l => exists op, operation_at h4 l = Some op
                                             /\ is_Some (call_at h4 (op_call op)))
                        (os ++ [lo])).
  { apply Forall_app. split; [by apply (operation_elems_kept h)|].
    apply Forall_singleton. exists op. split; [exact Hlo4|]. simpl. by rewrite Hlc4. }
  constructor; simpl; try reflexivity; change (heap σ) with h.
  - constructor; simpl; eauto;
      rewrite ?(array_at_lookup _ _ _ Hc4), ?(array_at_lookup _ _ _ Ho4); try done.
    rewrite !length_app. simpl. lia.
  - exact Hkeep.
  - unfold calls_in. rewrite (array_at_lookup _ _ _ Hc4), (array_at_lookup _ _ _ Hcs).
    rewrite omap_app. rewrite (omap_call_at_kept h h4 cs Hkeep Hce).
    simpl. by rewrite Hlc4.
  - exists lc. split; [exact Hlc|]. split; [exact Hlc4|].
    rewrite (array_at_lookup _ _ _ Hc4), (array_at_lookup _ _ _ Hcs).
    split; [reflexivity|].
    unfold operations_in. rewrite (array_at_lookup _ _ _ Ho4), (array_at_lookup _ _ _ Hos).
    rewrite omap_app. rewrite (omap_read_operation_kept h h4 os Hkeep Hoe).
    simpl. unfold read_operation. rewrite Hlo4. simpl. by rewrite Hlc4.
  - rewrite (array_at_lookup _ _ _ Ho4), (array_at_lookup _ _ _ Hos).
    rewrite length_app. simpl. lia.
Qed.

Lemma add_is_append target callData value :
  add target callData value
  = append op_custom {| target := target; value := value; callData := callData |} None.
Proof. reflexivity. Qed.

Lemma sendETH_is_append to value :
  sendETH to value
  = append op_custom {| target := to; value := value; callData := "0x00" |}
      (Some [("type", "sendETH"); ("to", to); ("value", toString value)]).
Proof. reflexivity. Qed.

Lemma pushApprovalCalls_cons c rest metadata σ :
  pushApprovalCalls (c :: rest) metadata σ
  = (append op_safeApprove c (Some metadata) ≫= fun _ => pushApprovalCalls rest metadata) σ.
Proof. reflexivity. Qed.

Lemma keeps_append type c metadata : keeps (append type c metadata).
Proof.
  intros σ H. destruct (append_spec type c metadata σ H) as (σ' & -> & Happ).
  exact (app_wf _ _ _ _ _ Happ).
Qed.

Lemma keeps_add target callData value : keeps (add target callData value).
Proof. rewrite add_is_append. apply keeps_append. Qed.

Lemma keeps_sendETH to value : keeps (sendETH to value).
Proof. rewrite sendETH_is_append. apply keeps_append. Qed.

Lemma keeps_addCall target abi functionName args value :
  keeps (addCall target abi functionName args value).
Proof. apply keeps_bind; [apply keeps_lift|]. intros. apply keeps_add. Qed.

Lemma keeps_pushApprovalCalls approvalCalls metadata :
  keeps (pushApprovalCalls approvalCalls metadata).
Proof.
  induction approvalCalls as [|c rest IH]; [apply keeps_ret|].
  intros σ H. rewrite pushApprovalCalls_cons.
  revert σ H. apply keeps_bind; [apply keeps_append|]. intros _. exact IH.
Qed.

Lemma keeps_multiTransfer token transfers : keeps (multiTransfer token transfers).
Proof.
  induction transfers as [|[to amount] rest IH]; [apply keeps_ret|].
  cbn [multiTransfer]. apply keeps_bind; [apply keeps_addCall|]. intros _. exact IH.
Qed.

Lemma keeps_deadlineOf params : keeps (deadlineOf params).
Proof.
  unfold deadlineOf. destruct (swap_deadline params); [apply keeps_ret|].
  apply keeps_bind; [apply keeps_dateNow|]. intros. apply keeps_ret.
Qed.

Lemma keeps_kyberSwap params sender : keeps (kyberSwap params sender).
Proof.
  repeat (apply keeps_bind; [apply keeps_lift|]; intros). apply keeps_add.
Qed.

Lemma keeps_getState : keeps getState.
Proof.
  unfold getState.
  repeat first [ apply keeps_ret | apply keeps_gets | apply keeps_spread
               | apply keeps_bind; [|intros] ].
Qed.

Lemma last_removelast {A} (l : list A) x :
  last l = Some x -> l = removelast l ++ [x].
Proof.
  intros H. destruct l as [|a l] using rev_ind; [discriminate|].
  rewrite last_snoc in H. injection H as ->. by rewrite removelast_last.
Qed.

(** [arr.pop()] on one of the two ledger arrays. *)
Lemma array_pop_spec arr σ elems :
  heap σ !! arr = Some (ObjArray elems) ->
  let σ' := (array_pop arr σ).2 in
  calls σ' = calls σ /\ operations σ' = operations σ
  /\ heap σ' !! arr = Some (ObjArray (removelast elems))
  /\ keeps_records (heap σ) (heap σ')
  /\ (forall l, l <> arr -> heap σ' !! l = heap σ !! l).
Proof.
  intros Harr. unfold array_pop. rewrite (array_at_lookup _ _ _ Harr).
  destruct (last elems) as [x|] eqn:Hlast; simpl.
  - repeat split; [by rewrite lookup_insert_eq| |].
    + by eapply keeps_records_insert_array.
    + intros l Hl. by rewrite lookup_insert_ne.
  - apply last_None in Hlast. subst elems.
    repeat split; [exact Harr|apply keeps_records_refl].
Qed.

Lemma pop_state σ :
  (pop σ).2
  = (array_pop (calls (array_pop (operations σ) σ).2) (array_pop (operations σ) σ).2).2.
Proof.
  unfold pop, gets, mbind, M_bind. simpl.
  destruct (array_pop (operations σ) σ) as [[r|e] σ1] eqn:E; [reflexivity|].
  unfold array_pop in E. destruct (last _); discriminate.
Qed.

Lemma keeps_pop : keeps pop.
Proof.
  intros σ Hwf. pose proof Hwf as [Hd [cs Hcs] [os Hos] Hal Hce Hoe].
  rewrite (array_at_lookup _ _ _ Hcs) in Hal, Hce.
  rewrite (array_at_lookup _ _ _ Hos) in Hal, Hoe.
  rewrite pop_state.
  destruct (array_pop_spec (operations σ) σ os Hos) as (Hc1 & Ho1 & Harr1 & Hk1 & Hf1).
  set (σ1 := (array_pop (operations σ) σ).2) in *.
  assert (Hcs1 : heap σ1 !! calls σ1 = Some (ObjArray cs)).
  { rewrite Hc1, Hf1; [exact Hcs|exact Hd]. }
  destruct (array_pop_spec (calls σ1) σ1 cs Hcs1) as (Hc2 & Ho2 & Harr2 & Hk2 & Hf2).
  set (σ2 := (array_pop (calls σ1) σ1).2) in *.
  assert (Hcs2 : heap σ2 !! calls σ2 = Some (ObjArray (removelast cs)))
    by (by rewrite Hc2).
  assert (Hos2 : heap σ2 !! operations σ2 = Some (ObjArray (removelast os))).
  { rewrite Ho2, Hf2; [by rewrite Ho1|]. rewrite Ho1, Hc1. congruence. }
  pose proof (keeps_records_trans _ _ _ Hk1 Hk2) as Hk.
  constructor.
  - rewrite Hc2, Hc1, Ho2, Ho1. exact Hd.
  - eauto.
  - eauto.
  - rewrite (array_at_lookup _ _ _ Hcs2), (array_at_lookup _ _ _ Hos2).
    destruct cs as [|c cs _] using rev_ind; destruct os as [|o os _] using rev_ind;
      rewrite ?length_app in Hal; simpl in Hal; try lia; try reflexivity.
    rewrite !removelast_last. lia.
  - rewrite (array_at_lookup _ _ _ Hcs2).
    apply (call_elems_kept (heap σ)); [exact Hk|].
    destruct cs as [|c cs _] using rev_ind; [exact Hce|].
    rewrite removelast_last. by apply Forall_app in Hce as [Hce _].
  - rewrite (array_at_lookup _ _ _ Hos2).
    apply (operation_elems_kept (heap σ)); [exact Hk|].
    destruct os as [|o os _] using rev_ind; [exact Hoe|].
    rewrite removelast_last. by apply Forall_app in Hoe as [Hoe _].
Qed.

(** Two new empty arrays form a well-formed, empty ledger. *)
Lemma fresh_arrays_wf (h : gmap loc Obj) w router chain dbg n :
  let a := fresh (dom h) in
  let h1 := <[a := ObjArray []]> h in
  let b := fresh (dom h1) in
  ledger_wf (mkState (<[b := ObjArray []]> h1) a b w router chain dbg n).
Proof.
  intros a h1 b.
  assert (Hb : h1 !! b = None) by apply fresh_not_allocated.
  assert (Hab : a <> b).
  { intros E. rewrite <- E in Hb. unfold h1 in Hb. by rewrite lookup_insert_eq in Hb. }
  assert (Ha' : <[b := ObjArray []]> h1 !! a = Some (ObjArray [])).
  { rewrite lookup_insert_ne by congruence. unfold h1. by rewrite lookup_insert_eq. }
  assert (Hb' : <[b := ObjArray []]> h1 !! b = Some (ObjArray []))
    by (by rewrite lookup_insert_eq).
  constructor; simpl; eauto;
    rewrite ?(array_at_lookup _ _ _ Ha'), ?(array_at_lookup _ _ _ Hb'); done.
Qed.

Lemma keeps_clear : keeps clear.
Proof. intros σ _. apply fresh_arrays_wf. Qed.

Lemma construct_wf h router chain dbg : ledger_wf (construct h router chain dbg).
Proof. apply fresh_arrays_wf. Qed.

Lemma keeps_invoke i : keeps (fun σ => (Ok tt, invoke i σ)).
Proof.
  intros σ H. simpl.
  destruct i; simpl;
    first [ by apply keeps_add | by apply keeps_addCall | by apply keeps_sendETH
          | by apply keeps_pushApprovalCalls | by apply keeps_multiTransfer
          | by apply keeps_kyberSwap | by apply keeps_getState | by apply keeps_spread
          | by apply keeps_clear | by apply keeps_pop | by apply keeps_set_walletClient
          | idtac ].
  all: revert σ H;
    repeat first [ apply keeps_addCall | apply keeps_deadlineOf
                 | apply keeps_bind; [|intros] ].
Qed.

Lemma invoke_all_wf invocations σ : ledger_wf σ -> ledger_wf (invoke_all invocations σ).
Proof.
  revert σ. induction invocations as [|i rest IH]; intros σ H; [exact H|].
  simpl. apply IH. by apply (keeps_invoke i).
Qed.

(** C8.  After every sequence of builder operations on a newly
    constructed builder, whichever of them returned or threw, the calls
    array and the operations array have equal length. *)
Theorem calls_and_operations_aligned h router chain dbg invocations :
  let σ := invoke_all invocations (construct h router chain dbg) in
  length (array_at (heap σ) (calls σ)) = length (array_at (heap σ) (operations σ)).
Proof.
  intros σ. apply wf_aligned. apply invoke_all_wf, construct_wf.
Qed.

(** C10.  [sendETH(to, value)] on a well-formed ledger returns, appends
    exactly one call [{ target: to, value, callData: '0x00' }] and records
    exactly one operation for that very call record; the call data is the
    one-byte payload [0x00], not the empty payload. *)
Theorem sendETH_appends_one_call to value σ :
  ledger_wf σ ->
  let call := {| target := to; value := value; callData := "0x00" |} in
  exists σ' lc,
    sendETH to value σ = (Ok tt, σ')
    /\ array_at (heap σ') (calls σ') = array_at (heap σ) (calls σ) ++ [lc]
    /\ calls_in (heap σ') (calls σ') = calls_in (heap σ) (calls σ) ++ [call]
    /\ operations_in (heap σ') (operations σ')
       = operations_in (heap σ) (operations σ)
         ++ [ ({| op_type := op_custom; op_call := lc;
                  op_metadata :=
                    Some [("type", "sendETH"); ("to", to); ("value", toString value)];
                  op_timestamp := Date_now (ticks σ) |}, Some call) ]
    /\ length (array_at (heap σ') (operations σ'))
       = S (length (array_at (heap σ) (operations σ)))
    /\ Abi.hexToBytes (callData call) = Ok [0]
    /\ callData call <> "0x".
Proof.
  intros Hwf call. rewrite sendETH_is_append.
  destruct (append_spec op_custom call
              (Some [("type", "sendETH"); ("to", to); ("value", toString value)]) σ Hwf)
    as (σ' & Hrun & Happ).
  destruct (app_operations_in _ _ _ _ _ Happ) as (lc & _ & _ & Harr & Hops).
  exists σ', lc. split; [exact Hrun|]. split; [exact Harr|].
  split; [exact (app_calls_in _ _ _ _ _ Happ)|]. split; [exact Hops|].
  split; [exact (app_length _ _ _ _ _ Happ)|]. split; [reflexivity|discriminate].
Qed.

(** The loop of [safeApprove] appends the calls it is given, in order. *)
Lemma pushApprovalCalls_spec approvalCalls metadata : forall σ,
  ledger_wf σ ->
  exists σ',
    pushApprovalCalls approvalCalls metadata σ = (Ok tt, σ')
    /\ ledger_wf σ'
    /\ calls_in (heap σ') (calls σ') = calls_in (heap σ) (calls σ) ++ approvalCalls
    /\ length (array_at (heap σ') (operations σ'))
       = (length (array_at (heap σ) (operations σ)) + length approvalCalls)%nat.
Proof.
  induction approvalCalls as [|c rest IH]; intros σ Hwf.
  - exists σ. split; [reflexivity|]. split; [exact Hwf|].
    rewrite app_nil_r. split; [reflexivity|simpl; lia].
  - rewrite pushApprovalCalls_cons.
    destruct (append_spec op_safeApprove c (Some metadata) σ Hwf) as (σ1 & Hrun & Happ).
    destruct (IH σ1 (app_wf _ _ _ _ _ Happ)) as (σ' & Hrest & Hwf' & Hcalls & Hlen).
    exists σ'. unfold mbind, M_bind. rewrite Hrun, Hrest.
    split; [reflexivity|]. split; [exact Hwf'|].
    rewrite Hcalls, (app_calls_in _ _ _ _ _ Happ), Hlen, (app_length _ _ _ _ _ Happ).
    rewrite <- app_assoc. split; [reflexivity|simpl; lia].
Qed.

(** ** Snapshots *)

(** The specification's reading of [getState()]: no mutation of the
    snapshot changes the live ledger. *)
Definition snapshot_isolated (σ : State) : Prop :=
  forall snap σ1 μ,
    getState σ = (Ok snap, σ1) ->
    mutates_snapshot snap (heap σ1) μ ->
    ledger (mutate μ σ1) = ledger σ.

(** [σ'] reads the ledger of [σ] unchanged. *)
Record same_ledger (σ σ' : State) : Prop := mk_same_ledger {
  same_calls : calls σ' = calls σ;
  same_operations : operations σ' = operations σ;
  same_records : keeps_records (heap σ) (heap σ');
  same_calls_array : heap σ' !! calls σ = heap σ !! calls σ;
  same_operations_array : heap σ' !! operations σ = heap σ !! operations σ;
}.

Lemma same_ledger_reads σ σ' : ledger_wf σ -> same_ledger σ σ' -> ledger σ' = ledger σ.
Proof.
  intros Hwf [Hc Ho Hk Hca Hoa].
  assert (Ha : array_at (heap σ') (calls σ') = array_at (heap σ) (calls σ))
    by (unfold array_at; by rewrite Hc, Hca).
  assert (Hb : array_at (heap σ') (operations σ') = array_at (heap σ) (operations σ))
    by (unfold array_at; by rewrite Ho, Hoa).
  assert (Hci : calls_in (heap σ') (calls σ') = calls_in (heap σ) (calls σ))
    by (apply calls_in_kept; [exact Hk|apply (wf_call_elems _ Hwf)|exact Ha]).
  unfold ledger, getTotalValue. rewrite Ha, Hb, Hci.
  rewrite (operations_in_kept (heap σ) (heap σ') (operations σ) (operations σ'));
    [reflexivity|exact Hk|apply (wf_operation_elems _ Hwf)|exact Hb].
Qed.

Lemma same_ledger_mutate_array σ σ' arr elems :
  ledger_wf σ -> same_ledger σ σ' -> heap σ !! arr = None ->
  same_ledger σ (mutate (set_array arr elems) σ').
Proof.
  intros Hwf [Hc Ho Hk Hca Hoa] Hfree.
  destruct (wf_calls _ Hwf) as [cs Hcs]. destruct (wf_operations _ Hwf) as [os Hos].
  unfold mutate, mutate_heap.
  destruct (heap σ' !! arr) as [[| |old]|] eqn:E; try by constructor.
  constructor; simpl; try done.
  - eapply keeps_records_trans; [exact Hk|]. by eapply keeps_records_insert_array.
  - rewrite lookup_insert_ne; [exact Hca|]. intros ->. congruence.
  - rewrite lookup_insert_ne; [exact Hoa|]. intros ->. congruence.
Qed.

(** What [getState()] returns and leaves behind. *)
Lemma getState_spec σ :
  ledger_wf σ ->
  exists snap σ1,
    getState σ = (Ok snap, σ1)
    /\ same_ledger σ σ1
    /\ heap σ !! state_calls snap = None
    /\ heap σ !! state_operations snap = None
    /\ array_at (heap σ1) (state_calls snap) = array_at (heap σ) (calls σ)
    /\ array_at (heap σ1) (state_operations snap) = array_at (heap σ) (operations σ)
    /\ state_totalValue snap = getTotalValue σ
    /\ state_chainId snap = chainId σ.
Proof.
  intros Hwf. destruct (wf_calls _ Hwf) as [cs Hcs].
  destruct (wf_operations _ Hwf) as [os Hos].
  set (h := heap σ).
  set (a := fresh (dom h)).
  assert (Ha : h !! a = None) by apply fresh_not_allocated.
  set (h1 := <[a := ObjArray (array_at h (calls σ))]> h).
  set (b := fresh (dom h1)).
  assert (Hb : h1 !! b = None) by apply fresh_not_allocated.
  assert (Hbh : h !! b = None).
  { unfold h1 in Hb. destruct (decide (a = b)) as [E|E].
    - rewrite E in Hb. by rewrite lookup_insert_eq in Hb.
    - by rewrite lookup_insert_ne in Hb. }
  assert (Hab : a <> b).
  { intros E. rewrite <- E in Hb. unfold h1 in Hb. by rewrite lookup_insert_eq in Hb. }
  set (h2 := <[b := ObjArray (array_at h1 (operations σ))]> h1).
  assert (Hk : keeps_records h h2).
  { eapply keeps_records_trans; by apply keeps_records_insert_fresh. }
  assert (Hl : forall l, is_Some (h !! l) -> h2 !! l = h !! l).
  { intros l [o Ho]. unfold h2, h1. rewrite !lookup_insert_ne; congruence. }
  assert (Hsame : same_ledger σ (set_heap h2 σ)).
  { constructor; simpl; try done; apply Hl; fold h; eauto. }
  eexists _, (set_heap h2 σ). split.
  { unfold getState, spread, gets, alloc, mbind, M_bind, mret, M_ret. simpl.
    fold h. fold a. fold h1. fold b. fold h2. reflexivity. }
  split; [exact Hsame|]. simpl. split; [exact Ha|]. split; [exact Hbh|].
  repeat split.
  - unfold array_at at 1. unfold h2. rewrite lookup_insert_ne by congruence.
    unfold h1. by rewrite lookup_insert_eq.
  - unfold array_at at 1. unfold h2. rewrite lookup_insert_eq.
    unfold array_at, h1. rewrite lookup_insert_ne; [reflexivity|].
    intros E. fold h in Hos. rewrite <- E in Hos. congruence.
  - pose proof (same_ledger_reads σ (set_heap h2 σ) Hwf Hsame) as Hread.
    unfold ledger in Hread. by injection Hread.
Qed.

(** [getCalls()] and [getOperations()] copy in the same way: the array
    they return is new, and changing it leaves the ledger as it is. *)
Lemma spread_isolated arr σ elems :
  ledger_wf σ ->
  let copy := fresh (dom (heap σ)) in
  spread arr σ = (Ok copy, (spread arr σ).2)
  /\ array_at (heap (spread arr σ).2) copy = array_at (heap σ) arr
  /\ ledger (mutate (set_array copy elems) (spread arr σ).2) = ledger σ.
Proof.
  intros Hwf copy.
  assert (Hfree : heap σ !! copy = None) by apply fresh_not_allocated.
  destruct (wf_calls _ Hwf) as [cs Hcs]. destruct (wf_operations _ Hwf) as [os Hos].
  assert (Hsame : same_ledger σ (spread arr σ).2).
  { constructor; simpl; try done.
    - by apply keeps_records_insert_fresh.
    - rewrite lookup_insert_ne; [reflexivity|]. intros E. fold copy in E. congruence.
    - rewrite lookup_insert_ne; [reflexivity|]. intros E. fold copy in E. congruence. }
  split; [reflexivity|]. split.
  - simpl. fold copy. unfold array_at at 1. by rewrite lookup_insert_eq.
  - apply same_ledger_reads; [exact Hwf|]. by apply same_ledger_mutate_array.
Qed.

Lemma getCalls_array_isolated σ elems :
  ledger_wf σ ->
  ledger (mutate (set_array (fresh (dom (heap σ))) elems) (getCalls σ).2) = ledger σ.
Proof. intros Hwf. by destruct (spread_isolated (calls σ) σ elems Hwf) as (_ & _ & H). Qed.

(** C2, as the code has it.  [getState()] copies the two arrays, not
    their elements: whatever a holder of the snapshot does to the
    snapshot's [calls] and [operations] arrays, any number of times, the
    builder's calls, operations and total value stay what they were when
    the snapshot was taken. *)
Theorem getState_arrays_isolated σ snap σ1 μs :
  ledger_wf σ ->
  getState σ = (Ok snap, σ1) ->
  Forall (mutates_arrays_of snap) μs ->
  ledger (foldl (fun σ' μ => mutate μ σ') σ1 μs) = ledger σ.
Proof.
  intros Hwf Hget Hμs.
  destruct (getState_spec σ Hwf) as (snap' & σ1' & Hget' & Hsame & Ha & Hb & _).
  rewrite Hget in Hget'. injection Hget' as <- <-.
  apply same_ledger_reads; [exact Hwf|].
  clear Hget. revert σ1 Hsame. induction Hμs as [|μ μs Hμ _ IH]; intros σ1 Hsame; [exact Hsame|].
  simpl. apply IH.
  destruct μ as [arr elems| |]; simpl in Hμ; try contradiction.
  apply same_ledger_mutate_array; [exact Hwf|exact Hsame|].
  by destruct Hμ as [-> | ->].
Qed.

End Ledger.

Section LedgerExamples.
Import Builder.
Local Open Scope list_scope.

(** A host for the examples: a clock that advances by one millisecond
    per reading, an aggregator that is down. *)
Definition example_host : Host := {|
  Date_now n := 1772000000000 + Z.of_nat n;
  getKyberQuote _ := Throw (ThrownError "Error" "KyberSwap API error 503: unavailable");
  buildKyberSwap _ _ _ _ :=
    Throw (ThrownError "Error" "KyberSwap build error 503: unavailable");
  BigInt s :=
    match DecimalString.NilZero.int_of_string s with
    | Some i => Ok (Z.of_int i)
    | None => Throw (ThrownError "SyntaxError" "Cannot convert to a BigInt")
    end;
|}.

Definition MAINNET_ROUTER_ADDRESS : Address := "0x9c1528e7688ee7122781dc8ed05686383b763ccb".
Definition TOKEN_USDC : Address := "0x1111111111111111111111111111111111111111".
Definition DEX_ROUTER : Address := "0x2222222222222222222222222222222222222222".
Definition RECIPIENT : Address := "0x4444444444444444444444444444444444444444".

(** [new MegaFlowBuilder()] in an empty store *)
Definition new_builder : State := construct ∅ MAINNET_ROUTER_ADDRESS 4326 false.

(** ... after [add(TOKEN_USDC, '0x00', 100n)] *)
Definition one_call_builder : State :=
  (@add example_host TOKEN_USDC "0x00" 100 new_builder).2.

Lemma one_call_builder_wf : ledger_wf one_call_builder.
Proof. apply (@keeps_add example_host). apply construct_wf. Qed.

Lemma sendETH_appends_one_call_witness :
  ledger_wf new_builder
  /\ exists σ' lc,
       @sendETH example_host RECIPIENT 42 new_builder = (Ok tt, σ')
       /\ array_at (heap σ') (calls σ') = array_at (heap new_builder) (calls new_builder) ++ [lc]
       /\ calls_in (heap σ') (calls σ')
          = calls_in (heap new_builder) (calls new_builder)
            ++ [ {| target := RECIPIENT; value := 42; callData := "0x00" |} ]
       /\ operations_in (heap σ') (operations σ')
          = operations_in (heap new_builder) (operations new_builder)
            ++ [ ({| op_type := op_custom; op_call := lc;
                     op_metadata :=
                       Some [("type", "sendETH"); ("to", RECIPIENT); ("value", toString 42)];
                     op_timestamp := @Date_now example_host (ticks new_builder) |},
                  Some {| target := RECIPIENT; value := 42; callData := "0x00" |}) ]
       /\ length (array_at (heap σ') (operations σ'))
          = S (length (array_at (heap new_builder) (operations new_builder)))
       /\ Abi.hexToBytes "0x00" = Ok [0]
       /\ "0x00" <> "0x".
Proof.
  split; [apply construct_wf|].
  apply (@sendETH_appends_one_call example_host RECIPIENT 42 new_builder), construct_wf.
Defined.

Example sendETH_on_new_builder :
  ledger (@sendETH example_host RECIPIENT 42 new_builder).2
  = ([3%positive], [4%positive],
     [ {| target := RECIPIENT; value := 42; callData := "0x00" |} ],
     [ ({| op_type := op_custom; op_call := 3%positive;
           op_metadata := Some [("type", "sendETH"); ("to", RECIPIENT); ("value", "42")];
           op_timestamp := 1772000000000 |},
        Some {| target := RECIPIENT; value := 42; callData := "0x00" |}) ],
     42).
Proof. vm_compute. reflexivity. Qed.

Example safeApprove_two_calls :
  calls_in (heap (@safeApprove example_host TOKEN_USDC DEX_ROUTER 1000000 500000 new_builder).2)
           (calls new_builder)
  = [ {| target := TOKEN_USDC; value := 0;
         callData := "0x095ea7b300000000000000000000000022222222222222222222222222222222222222220000000000000000000000000000000000000000000000000000000000000000" |};
      {| target := TOKEN_USDC; value := 0;
         callData := "0x095ea7b3000000000000000000000000222222222222222222222222222222222222222200000000000000000000000000000000000000000000000000000000000f4240" |} ].
Proof. vm_compute. reflexivity. Qed.

Example safeApprove_one_call_zero_allowance :
  Utils.buildSafeApproveCalls TOKEN_USDC DEX_ROUTER 1000 0
  = [ {| target := TOKEN_USDC; value := 0;
         callData := Utils.approveCalldata DEX_ROUTER 1000 |} ].
Proof. reflexivity. Qed.

(** The guard is [currentAllowance > 0n]: a negative [bigint], which no
    on-chain allowance is, is not reset first. *)
Example safeApprove_one_call_negative_allowance :
  Utils.buildSafeApproveCalls TOKEN_USDC DEX_ROUTER 1000 (-1)
  = [ {| target := TOKEN_USDC; value := 0;
         callData := Utils.approveCalldata DEX_ROUTER 1000 |} ].
Proof. reflexivity. Qed.

Example safeApprove_one_call_equal_allowance :
  Utils.buildSafeApproveCalls TOKEN_USDC DEX_ROUTER 1000 1000
  = [ {| target := TOKEN_USDC; value := 0;
         callData := Utils.approveCalldata DEX_ROUTER 1000 |} ].
Proof. reflexivity. Qed.

(** The snapshot of [one_call_builder] and the assignment
    [state.calls[0].value = 999n]. *)
Definition one_call_snapshot : BuilderState :=
  {| state_calls := 5%positive; state_operations := 6%positive;
     state_totalValue := 100; state_chainId := 4326 |}.

Definition overwrite_first_call : Mutation :=
  set_call 3%positive {| target := TOKEN_USDC; value := 999; callData := "0x00" |}.

(** Counterexample to C2 as stated: the snapshot's [calls] array holds
    the ledger's own call record, so assigning its [value] through the
    snapshot changes the builder's calls and total value. *)
Lemma getState_shares_call_records :
  ledger_wf one_call_builder
  /\ (getState one_call_builder).1 = Ok one_call_snapshot
  /\ mutates_snapshot one_call_snapshot (heap (getState one_call_builder).2)
       overwrite_first_call
  /\ getTotalValue one_call_builder = 100
  /\ getTotalValue (mutate overwrite_first_call (getState one_call_builder).2) = 999
  /\ ~ snapshot_isolated one_call_builder.
Proof.
  assert (Hget : (getState one_call_builder).1 = Ok one_call_snapshot)
    by (vm_compute; reflexivity).
  assert (Hmut : mutates_snapshot one_call_snapshot (heap (getState one_call_builder).2)
                   overwrite_first_call).
  { left. vm_compute. apply list_elem_of_here. }
  assert (Hbefore : getTotalValue one_call_builder = 100) by (vm_compute; reflexivity).
  assert (Hafter : getTotalValue (mutate overwrite_first_call (getState one_call_builder).2)
                   = 999) by (vm_compute; reflexivity).
  split; [exact one_call_builder_wf|]. split; [exact Hget|]. split; [exact Hmut|].
  split; [exact Hbefore|]. split; [exact Hafter|].
  intros Hiso.
  specialize (Hiso one_call_snapshot (getState one_call_builder).2 overwrite_first_call).
  assert (Hpair : getState one_call_builder
                  = (Ok one_call_snapshot, (getState one_call_builder).2))
    by (rewrite <- Hget; by destruct (getState one_call_builder)).
  specialize (Hiso Hpair Hmut).
  unfold ledger in Hiso. apply (f_equal snd) in Hiso. cbn [snd] in Hiso.
  rewrite Hbefore, Hafter in Hiso.
  discriminate.
Qed.

Lemma getState_arrays_isolated_witness :
  ledger_wf one_call_builder
  /\ getState one_call_builder = (Ok one_call_snapshot, (getState one_call_builder).2)
  /\ Forall (mutates_arrays_of one_call_snapshot)
       [set_array 5%positive []; set_array 6%positive [3%positive; 3%positive]]
  /\ ledger (foldl (fun σ' μ => mutate μ σ') (getState one_call_builder).2
               [set_array 5%positive []; set_array 6%positive [3%positive; 3%positive]])
     = ledger one_call_builder.
Proof.
  assert (Hpair : getState one_call_builder
                  = (Ok one_call_snapshot, (getState one_call_builder).2))
    by (vm_compute; reflexivity).
  assert (Hμs : Forall (mutates_arrays_of one_call_snapshot)
                  [set_array 5%positive []; set_array 6%positive [3%positive; 3%positive]])
    by (repeat constructor; simpl; auto).
  split; [exact one_call_builder_wf|]. split; [exact Hpair|]. split; [exact Hμs|].
  exact (getState_arrays_isolated one_call_builder one_call_snapshot _ _
           one_call_builder_wf Hpair Hμs).
Defined.

End LedgerExamples.

(* ===================================================================== *)
(** * Properties of simulation and synchronous execution                  *)
(* ===================================================================== *)

Section Programs.
Context {viem : Viem} {float : Float64}.
Import Orchestrator.


Lemma same_refl {A} (p : Prog A) : same p p.
Proof. induction p; constructor; auto. Qed.







End Programs.

Section Simulation.
Context {viem : Viem} {float : Float64}.
Import Orchestrator.

Definition emptyBatchError : Thrown :=
  Utils.MegaFlowError "No calls in batch. Add at least one call before executing." EMPTY_BATCH.

(** The [executeBatch] call that [simulate] hands to [simulateContract]
    and to [estimateContractGas]. *)
Definition dryCall (σ : Builder.State) (requiredETH : Z) : ContractCall :=
  {| cc_address := Builder.routerAddress σ; cc_functionName := "executeBatch";
     cc_args := queued σ; cc_value := requiredETH;
     cc_account := connectedAccount σ; cc_gas := None |}.

(** With the default buffer the factor is [BigInt(100 + 10)], and
    [applyMegaethGasBuffer] returns. *)
Lemma applyMegaethGasBuffer_default_buffer (estimate : Z) :
  Utils.applyMegaethGasBuffer estimate Utils.defaultBufferPct
  = Ok (Z.quot (estimate * 110) 100).
Proof. reflexivity. Qed.

(** [{ success: true, results, gasEstimate }], the estimate buffered by
    the default 10 percent: [gasEstimate * 110n / 100n]. *)
Definition simulationSuccess (simulated : SimulateContractReturn) (gasEstimate : Z)
  : MegaFlowSimulationResult :=
  {| simulation_success := true;
     simulation_results := Some (sim_result simulated);
     simulation_gasEstimate := Some (Z.quot (gasEstimate * 110) 100);
     simulation_error := None; simulation_revertReason := None;
     simulation_failedCallIndex := None |}.

(** [{ success: false, error, revertReason, failedCallIndex }] *)
Definition simulationFailure (err : Thrown) (revertReason : string)
  : MegaFlowSimulationResult :=
  {| simulation_success := false;
     simulation_results := None; simulation_gasEstimate := None;
     simulation_error := Some (Utils.errorMessage err);
     simulation_revertReason := Some revertReason;
     simulation_failedCallIndex := extractFailedCallIndex (Utils.errorMessage err) |}.

(** The failure [err] came back as a value, with the decoded reason. *)
Definition caught_as_value (err : Thrown) (r : MegaFlowSimulationResult) : Prop :=
  exists revertReason,
    Utils.decodeRevertError (Utils.errorMessage err) = Some (Ok revertReason)
    /\ r = simulationFailure err revertReason.

(** The [catch] block of [simulate]. *)
Definition simulationHandler (σ : Builder.State) (err : Thrown)
  : Prog MegaFlowSimulationResult :=
  let errorMessage := Utils.errorMessage err in
  revertReason ← lift_fuel (Utils.decodeRevertError errorMessage);
  let failedCallIndex := extractFailedCallIndex errorMessage in
  log σ "Simulation failed"
    [("error", errorMessage);
     ("failedCallIndex", from_option toString "undefined" failedCallIndex)];;
  mret {| simulation_success := false;
          simulation_results := None; simulation_gasEstimate := None;
          simulation_error := Some errorMessage;
          simulation_revertReason := Some revertReason;
          simulation_failedCallIndex := failedCallIndex |}.

Lemma simulationHandler_returns {W} (client : ChainClient W) σ err w :
  inner_bytes_shorter ->
  exists r t w',
    run client (simulationHandler σ err) w = (Returned r, t, w')
    /\ caught_as_value err r.
Proof.
  intros Hshort.
  destruct (decodeRevertError_returns Hshort (Utils.errorMessage err)) as (reason & Hr).
  unfold simulationHandler. rewrite Hr. cbn [lift_fuel lift mbind Prog_bind bind].
  unfold log. destruct (Builder.debug σ).
  - cbn [perform mbind Prog_bind bind run mret Prog_ret].
    destruct (effect client (console_log _ _) w) as [[] w1].
    do 3 eexists. split; [reflexivity|]. exists reason. by split.
  - cbn [mbind Prog_bind bind run mret Prog_ret].
    do 3 eexists. split; [reflexivity|]. exists reason. by split.
Qed.

Lemma simulate_empty σ :
  Builder.isEmpty σ = true -> simulate σ = Raise emptyBatchError.
Proof.
  unfold Builder.isEmpty, Builder.length_, simulate, Utils.assertCallsNotEmpty.
  by intros ->.
Qed.

Lemma simulate_nonempty σ :
  Builder.isEmpty σ = false ->
  simulate σ
  = try_catch
      (requiredETH ←
         await (readContract (Builder.routerAddress σ) "calculateRequiredETH" (queued σ));
       simulated ← await (simulateContract (dryCall σ requiredETH));
       gasEstimate ← await (estimateContractGas (dryCall σ requiredETH));
       mret (simulationSuccess simulated gasEstimate))
      (simulationHandler σ).
Proof.
  unfold Builder.isEmpty, Builder.length_, simulate, Utils.assertCallsNotEmpty,
    calculateRequiredETH, Builder.length_.
  by intros ->.
Qed.

(** C5.  [simulate()] on an empty ledger is the typed [EMPTY_BATCH]
    error itself: it throws before any request or effect.  On a non-empty
    ledger, against any chain client, it returns a value and never throws:
    the failure value of whichever of the required-value read, the dry call
    and the gas estimation rejects first, the success value when all three
    resolve. *)
Theorem simulate_throws_only_on_empty_batch :
  inner_bytes_shorter ->
  forall (σ : Builder.State) W (client : ChainClient W) (w : W),
    let outcome := (run client (simulate σ) w).1.1 in
    let trace := (run client (simulate σ) w).1.2 in
    if Builder.isEmpty σ then
      simulate σ = Raise emptyBatchError
      /\ outcome = Threw emptyBatchError /\ trace = []
    else
      exists r,
        outcome = Returned r
        /\ match answer client
                   (readContract (Builder.routerAddress σ) "calculateRequiredETH" (queued σ))
                   w with
           | (Throw err, _) => caught_as_value err r
           | (Ok requiredETH, w1) =>
               match answer client (simulateContract (dryCall σ requiredETH)) w1 with
               | (Throw err, _) => caught_as_value err r
               | (Ok simulated, w2) =>
                   match answer client (estimateContractGas (dryCall σ requiredETH)) w2 with
                   | (Throw err, _) => caught_as_value err r
                   | (Ok gasEstimate, _) => r = simulationSuccess simulated gasEstimate
                   end
               end
           end.
Proof.
  intros Hshort σ W client w outcome trace.
  destruct (Builder.isEmpty σ) eqn:Hempty.
  - unfold outcome, trace. rewrite (simulate_empty σ Hempty). by repeat split.
  - unfold outcome. clear outcome trace. rewrite (simulate_nonempty σ Hempty).
    cbn [await mbind Prog_bind bind try_catch run].
    destruct (answer client (readContract _ _ _) w) as [[requiredETH|err] w1].
    2: { cbn [bind try_catch].
         destruct (simulationHandler_returns client σ err w1 Hshort) as (r & t & w' & -> & Hr).
         by exists r. }
    cbn [bind try_catch run].
    destruct (answer client (simulateContract _) w1) as [[simulated|err] w2].
    2: { cbn [bind try_catch].
         destruct (simulationHandler_returns client σ err w2 Hshort) as (r & t & w' & -> & Hr).
         by exists r. }
    cbn [bind try_catch run].
    destruct (answer client (estimateContractGas _) w2) as [[gasEstimate|err] w3].
    2: { cbn [bind try_catch].
         destruct (simulationHandler_returns client σ err w3 Hshort) as (r & t & w' & -> & Hr).
         by exists r. }
    cbn [bind try_catch run mret Prog_ret]. by eexists.
Qed.

End Simulation.

Section SyncExecution.
Context {viem : Viem} {float : Float64}.
Import Orchestrator.

Ltac step_same :=
  cbn [rename_method rename_request silent mbind Prog_bind bind mret Prog_ret
       await perform lift sync_to_realtime];
  first [ apply same_Ret | apply same_Raise | apply same_Cut
        | apply same_Await; intros [?|?]
        | apply same_Perform; intros ? ].


(** With [debug] off there is no console line to leave out. *)
Lemma executeSync_silent_without_debug σ options :
  Builder.debug σ = false ->
  same (silent (executeSync σ options)) (executeSync σ options).
Proof.
  intros Hdebug. unfold executeSync, log, calculateRequiredETH. rewrite Hdebug.
  destruct (Utils.assertCallsNotEmpty _); [|apply same_Raise].
  destruct (assertWalletConnected _); [|apply same_Raise].
  destruct (assertAccount _) as [account|]; [|apply same_Raise].
  destruct (Builder.length_ σ =? 0)%nat; repeat step_same.
  all: destruct (Utils.parseCallResults _ _ _); repeat step_same.
Qed.




End SyncExecution.

Section ProgramExamples.
Import Orchestrator.

(** Doubles of the examples: integer microseconds. *)
Definition example_float : Float64 :=
  {| Double := Z; Double_sub := Z.sub; Double_toFixed := fun _ d => toString d |}.

Definition example_wallet : WalletClient :=
  {| wallet_account := Some {| account_address := "0x3333333333333333333333333333333333333333" |} |}.

(** [new MegaFlowBuilder().connect(wallet).add(TOKEN_USDC, '0x00', 100n)] *)
Definition connected_builder : Builder.State :=
  (Builder.connect example_wallet one_call_builder).2.

(** A chain client whose world is the clock: every request resolves. *)
Definition healthy_client : @ChainClient example_float Z :=
  @mkChainClient example_float Z
    (fun X (r : Request X) w =>
       match r in Request X return res X * Z with
       | readContract _ _ args => (Ok (Utils.calculateTotalValue args + 1000), w)
       | simulateContract call =>
           (Ok {| sim_request := call;
                  sim_result := (fun _ => {| success := Some true; returnData := "0x" |})
                                  <$> cc_args call |}, w)
       | estimateContractGas _ => (Ok 100000, w)
       | signTransaction _ => (Ok "0x02f86b", w)
       | request _ _ => (Ok one_event_receipt, w)
       end)
    (fun X (l : Local X) w =>
       match l in Local X return X * Z with
       | performance_now => (w, w + 7)
       | console_log _ _ => (tt, w)
       end).

(** A chain client on which the dry call reverts. *)
Definition reverting_client : @ChainClient example_float Z :=
  @mkChainClient example_float Z
    (fun X (r : Request X) w =>
       match r in Request X return res X * Z with
       | simulateContract _ =>
           (Throw (ThrownError "ContractFunctionExecutionError"
                     "The contract function executeBatch reverted: CallFailed(1, 0x)"), w)
       | r' => answer healthy_client r' w
       end)
    (fun X (l : Local X) w => effect healthy_client l w).

Lemma simulate_throws_only_on_empty_batch_witness :
  @inner_bytes_shorter Abi.codec
  /\ (let outcome := (run reverting_client (@simulate Abi.codec example_float one_call_builder) 0).1.1 in
      let trace := (run reverting_client (@simulate Abi.codec example_float one_call_builder) 0).1.2 in
      if Builder.isEmpty one_call_builder then
        @simulate Abi.codec example_float one_call_builder = Raise emptyBatchError
        /\ outcome = Threw emptyBatchError /\ trace = []
      else
        exists r,
          outcome = Returned r
          /\ match answer reverting_client
                     (readContract (Builder.routerAddress one_call_builder)
                        "calculateRequiredETH" (queued one_call_builder)) 0 with
             | (Throw err, _) => @caught_as_value Abi.codec err r
             | (Ok requiredETH, w1) =>
                 match answer reverting_client
                         (simulateContract (dryCall one_call_builder requiredETH)) w1 with
                 | (Throw err, _) => @caught_as_value Abi.codec err r
                 | (Ok simulated, w2) =>
                     match answer reverting_client
                             (estimateContractGas (dryCall one_call_builder requiredETH)) w2 with
                     | (Throw err, _) => @caught_as_value Abi.codec err r
                     | (Ok gasEstimate, _) => r = simulationSuccess simulated gasEstimate
                     end
                 end
             end).
Proof.
  split; [exact codec_inner_bytes_shorter|].
  exact (@simulate_throws_only_on_empty_batch Abi.codec example_float
           codec_inner_bytes_shorter one_call_builder Z reverting_client 0).
Defined.

Example simulate_empty_batch :
  run healthy_client (@simulate Abi.codec example_float new_builder) 0
  = (Threw (ThrownMegaFlowError
              "[MegaFlow] No calls in batch. Add at least one call before executing."
              EMPTY_BATCH), [], 0).
Proof. vm_compute. reflexivity. Qed.

Example simulate_revert_is_a_value :
  (run reverting_client (@simulate Abi.codec example_float one_call_builder) 0).1.1
  = Returned
      {| simulation_success := false;
         simulation_results := None; simulation_gasEstimate := None;
         simulation_error :=
           Some "The contract function executeBatch reverted: CallFailed(1, 0x)";
         simulation_revertReason := Some "Reverted with unknown selector the contra";
         simulation_failedCallIndex := Some 1 |}.
Proof. vm_compute. reflexivity. Qed.

Example simulate_success :
  (run healthy_client (@simulate Abi.codec example_float one_call_builder) 0).1.1
  = Returned
      {| simulation_success := true;
         simulation_results := Some [ {| success := Some true; returnData := "0x" |} ];
         simulation_gasEstimate := Some 110000;
         simulation_error := None; simulation_revertReason := None;
         simulation_failedCallIndex := None |}.
Proof. vm_compute. reflexivity. Qed.

Example extractFailedCallIndex_selector_pattern :
  extractFailedCallIndex "The contract function executeBatch reverted: CallFailed(12, 0x08c379a0)"
  = Some 12.
Proof. vm_compute. reflexivity. Qed.

Example extractFailedCallIndex_generic_pattern :
  extractFailedCallIndex "execution reverted: Call  # 3 failed" = Some 3.
Proof. vm_compute. reflexivity. Qed.

Example extractFailedCallIndex_unknown :
  extractFailedCallIndex "nonce too low" = None.
Proof. vm_compute. reflexivity. Qed.



Definition no_options : ExecuteOptions :=
  {| gasLimit := None; maxFeePerGas := None; maxPriorityFeePerGas := None; nonce := None |}.

(** [new MegaFlowBuilder({ debug: true }).connect(wallet)
      .add(TOKEN_USDC, '0x00', 100n)] *)
Definition debugging_builder : Builder.State :=
  (Builder.connect example_wallet
     (@Builder.add example_host TOKEN_USDC "0x00" 100
        (Builder.construct ∅ MAINNET_ROUTER_ADDRESS 4326 true)).2).2.



Example executeSync_with_debug_on :
  (run healthy_client (@executeSync Abi.codec example_float debugging_builder no_options) 0).1.2
  = [ performed performance_now;
      performed (console_log "[MegaFlow] Executing batch (sync)" [("callCount", "1")]);
      requested (readContract MAINNET_ROUTER_ADDRESS "calculateRequiredETH"
                   [ {| target := TOKEN_USDC; value := 100; callData := "0x00" |} ]);
      requested (simulateContract
                   {| cc_address := MAINNET_ROUTER_ADDRESS; cc_functionName := "executeBatch";
                      cc_args := [ {| target := TOKEN_USDC; value := 100; callData := "0x00" |} ];
                      cc_value := 1100;
                      cc_account := wallet_account example_wallet; cc_gas := None |});
      requested (signTransaction
                   {| cc_address := MAINNET_ROUTER_ADDRESS; cc_functionName := "executeBatch";
                      cc_args := [ {| target := TOKEN_USDC; value := 100; callData := "0x00" |} ];
                      cc_value := 1100;
                      cc_account := wallet_account example_wallet; cc_gas := None |});
      requested (request "eth_sendRawTransactionSync" ["0x02f86b"]);
      performed performance_now;
      performed (console_log "[MegaFlow] Sync execution completed"
                   [("executionTimeMs", "7")]) ].
Proof. vm_compute. reflexivity. Qed.

Example executeSync_on_healthy_client :
  run healthy_client (@executeSync Abi.codec example_float connected_builder no_options) 0
  = (Returned
       (@mkSyncResult example_float one_event_receipt
          [ {| success := Some true; returnData := "0x" |} ] 21000 7),
     [ performed performance_now;
       requested (readContract MAINNET_ROUTER_ADDRESS "calculateRequiredETH"
                    [ {| target := TOKEN_USDC; value := 100; callData := "0x00" |} ]);
       requested (simulateContract
                    {| cc_address := MAINNET_ROUTER_ADDRESS; cc_functionName := "executeBatch";
                       cc_args := [ {| target := TOKEN_USDC; value := 100; callData := "0x00" |} ];
                       cc_value := 1100;
                       cc_account := wallet_account example_wallet; cc_gas := None |});
       requested (signTransaction
                    {| cc_address := MAINNET_ROUTER_ADDRESS; cc_functionName := "executeBatch";
                       cc_args := [ {| target := TOKEN_USDC; value := 100; callData := "0x00" |} ];
                       cc_value := 1100;
                       cc_account := wallet_account example_wallet; cc_gas := None |});
       requested (request "eth_sendRawTransactionSync" ["0x02f86b"]);
       performed performance_now ],
     14).
Proof. vm_compute. reflexivity. Qed.

End ProgramExamples.

(* ===================================================================== *)
(** * Properties of the nonce cache                                       *)
(* ===================================================================== *)

Section Nonces.
Import Client.






Definition ALICE : Address := "0xAbCdEf0123456789abcdef0123456789ABCDEF01".
Definition BOB : Address := "0x3333333333333333333333333333333333333333".



(** The same with a network that reports nothing new: the cache alone
    repeats the nonce. *)
Example getNextNonce_repeats_from_cache :
  let first := getNextNonce ALICE (Ok (2 ^ 53)) ∅ in
  let second := getNextNonce ALICE (Ok 0) first.2 in
  (first.1, second.1) = (Ok (2 ^ 53), Ok (2 ^ 53)).
Proof. vm_compute. reflexivity. Qed.

Example getNextNonce_twice_same_pending :
  let first := getNextNonce ALICE (Ok 7) ∅ in
  let second := getNextNonce "0xabcdef0123456789abcdef0123456789abcdef01" (Ok 7) first.2 in
  (first.1, second.1) = (Ok 7, Ok 8).
Proof. vm_compute. reflexivity. Qed.

Example getNextNonce_after_reset :
  let first := getNextNonce ALICE (Ok 7) ∅ in
  let second := getNextNonce ALICE (Ok 7) (resetNonce ALICE first.2) in
  (first.1, second.1) = (Ok 7, Ok 7).
Proof. vm_compute. reflexivity. Qed.

End Nonces.

(* ===================================================================== *)
(** * utils.ts: batch utilities, event parsing, validation                *)
(* ===================================================================== *)

Module Batching.

(** [arr.slice(start, end)] on integer indices: a negative index counts
    from the end, both ends are clamped to the array. *)
Definition Array_slice {A} (arr : list A) (start end_ : Z) : list A :=
  let len := Z.of_nat (length arr) in
  let k := if start <? 0 then Z.max (len + start) 0 else Z.min start len in
  let final := if end_ <? 0 then Z.max (len + end_) 0 else Z.min end_ len in
  take (Z.to_nat (final - k)) (drop (Z.to_nat k) arr).

(** The [for] loop of [chunkCalls], from index [i] with the chunks
    pushed so far; one unit of [fuel] per turn, [None] when it runs out. *)
Fixpoint chunkCalls_loop {T} (fuel : nat) (calls : list T) (maxPerBatch : Z)
    (i : Z) (chunks : list (list T)) : option (list (list T)) :=
  if i <? Z.of_nat (length calls) then
    match fuel with
    | O => None
    | S fuel' =>
        chunkCalls_loop fuel' calls maxPerBatch (i + maxPerBatch)
          (chunks ++ [Array_slice calls i (i + maxPerBatch)])%list
    end
  else Some chunks.

(** [chunkCalls(calls, maxPerBatch)]; [maxPerBatch] is a [number], here
    the integer it holds. *)
Definition chunkCalls_fuel {T} (fuel : nat) (calls : list T) (maxPerBatch : Z)
  : option (list (list T)) :=
  chunkCalls_loop fuel calls maxPerBatch 0 [].

(** One turn per element is always enough when the loop advances. *)
Definition chunkCalls {T} (calls : list T) (maxPerBatch : Z) : option (list (list T)) :=
  chunkCalls_fuel (length calls) calls maxPerBatch.

Definition defaultMaxPerBatch : Z := 64.

End Batching.

(** ** Doubles that hold integers

    [SpecFloat] computes on doubles; the lemmas below show that the
    double of an integer literal, and the sum of two such doubles, hold
    the integers exactly below [2^53]. *)

Section Doubles.

Lemma Zpos_iter_xO (m d : positive) : Z.pos (Pos.iter xO m d) = Z.pos m * 2 ^ Z.pos d.
Proof.
  rewrite (Pos.iter_swap_gen _ _ Z.pos xO (Z.mul 2)) by reflexivity.
  induction d as [|d IH] using Pos.peano_ind.
  - simpl. lia.
  - rewrite Pos.iter_succ, IH, Pos2Z.inj_succ, Z.pow_succ_r by lia. lia.
Qed.

Lemma digits2_pos_size (m : positive) : SpecFloat.digits2_pos m = Pos.size m.
Proof. induction m as [m IH|m IH|]; simpl; by rewrite ?IH. Qed.

Lemma digits2_pos_log2 (m : positive) :
  Z.pos (SpecFloat.digits2_pos m) = Z.log2 (Z.pos m) + 1.
Proof.
  rewrite digits2_pos_size. destruct m as [m|m|]; simpl; try reflexivity; lia.
Qed.

Lemma fexp_normal (e : Z) : - 1021 <= e -> SpecFloat.fexp 53 1024 e = e - 53.
Proof. intros H. unfold SpecFloat.fexp, SpecFloat.emin. lia. Qed.

(** Shifting right the digits that a shift to the left added is exact. *)
Lemma shr_exact (n m : positive) :
  SpecFloat.iter_pos SpecFloat.shr_1 n
    {| SpecFloat.shr_m := Z.pos (Pos.iter xO m n);
       SpecFloat.shr_r := false; SpecFloat.shr_s := false |}
  = {| SpecFloat.shr_m := Z.pos m; SpecFloat.shr_r := false; SpecFloat.shr_s := false |}.
Proof.
  revert m. induction n as [n IH|n IH|]; intros m; simpl.
  - by rewrite !IH.
  - by rewrite !IH.
  - reflexivity.
Qed.

(** A mantissa that sits at its exponent is kept as it is. *)
Lemma shr_fexp_canonical (m : positive) (e : Z) :
  SpecFloat.fexp 53 1024 (Z.pos (SpecFloat.digits2_pos m) + e) = e ->
  SpecFloat.shr_fexp 53 1024 (Z.pos m) e SpecFloat.loc_Exact
  = ({| SpecFloat.shr_m := Z.pos m; SpecFloat.shr_r := false; SpecFloat.shr_s := false |}, e).
Proof.
  intros Hcanon. unfold SpecFloat.shr_fexp. cbn [SpecFloat.Zdigits2].
  rewrite Hcanon, Z.sub_diag. reflexivity.
Qed.

Lemma binary_round_aux_canonical (m : positive) (e : Z) :
  SpecFloat.fexp 53 1024 (Z.pos (SpecFloat.digits2_pos m) + e) = e ->
  e <= 971 ->
  SpecFloat.binary_round_aux 53 1024 false (Z.pos m) e SpecFloat.loc_Exact
  = SpecFloat.S754_finite false m e.
Proof.
  intros Hcanon He. unfold SpecFloat.binary_round_aux.
  rewrite (shr_fexp_canonical m e Hcanon).
  cbn [SpecFloat.shr_m SpecFloat.loc_of_shr_record SpecFloat.round_nearest_even].
  rewrite (shr_fexp_canonical m e Hcanon). cbn [SpecFloat.shr_m].
  change (1024 - 53) with 971.
  by rewrite (proj2 (Z.leb_le e 971) He).
Qed.

(** Rounding a value that fits is exact: the mantissa is moved to the
    exponent [t] that its size asks for. *)
Lemma binary_round_exact (mx : positive) (ex : Z) (m' : positive) (t : Z) :
  t = SpecFloat.fexp 53 1024 (Z.pos (SpecFloat.digits2_pos mx) + ex) ->
  t <= 971 ->
  (t <= ex /\ Z.pos m' = Z.pos mx * 2 ^ (ex - t))
  \/ (ex < t /\ Z.pos mx = Z.pos m' * 2 ^ (t - ex)) ->
  SpecFloat.binary_round 53 1024 false mx ex = SpecFloat.S754_finite false m' t.
Proof.
  intros Ht Hmax Hfit. unfold SpecFloat.binary_round, SpecFloat.shl_align. rewrite <- Ht.
  assert (Hcanon : SpecFloat.fexp 53 1024 (Z.pos (SpecFloat.digits2_pos m') + t) = t).
  { rewrite Ht at 2. f_equal. rewrite !digits2_pos_log2.
    destruct Hfit as [[Hle Hm]|[Hlt Hm]]; rewrite Hm.
    - rewrite Z.log2_mul_pow2 by lia. lia.
    - rewrite Z.log2_mul_pow2 by lia. lia. }
  destruct Hfit as [[Hle Hm]|[Hlt Hm]].
  - destruct (t - ex) as [|d|d] eqn:Ed; try lia.
    + assert (ex = t) as -> by lia. rewrite Z.sub_diag, Z.mul_1_r in Hm.
      injection Hm as ->. by apply binary_round_aux_canonical.
    + assert (Pos.iter xO mx d = m') as ->.
      { apply Pos2Z.inj. rewrite Zpos_iter_xO, Hm. f_equal. f_equal. lia. }
      by apply binary_round_aux_canonical.
  - destruct (t - ex) as [|d|d] eqn:Ed; try lia.
    assert (mx = Pos.iter xO m' d) as ->.
    { apply Pos2Z.inj. by rewrite Zpos_iter_xO, Hm. }
    unfold SpecFloat.binary_round_aux.
    assert (Hshr : SpecFloat.shr_fexp 53 1024 (Z.pos (Pos.iter xO m' d)) ex SpecFloat.loc_Exact
                   = ({| SpecFloat.shr_m := Z.pos m'; SpecFloat.shr_r := false;
                         SpecFloat.shr_s := false |}, t)).
    { unfold SpecFloat.shr_fexp. cbn [SpecFloat.Zdigits2]. rewrite <- Ht, Ed.
      cbn [SpecFloat.shr_record_of_loc SpecFloat.shr]. rewrite shr_exact.
      f_equal. lia. }
    rewrite Hshr.
    cbn [SpecFloat.shr_m SpecFloat.loc_of_shr_record SpecFloat.round_nearest_even].
    rewrite (shr_fexp_canonical m' t Hcanon). cbn [SpecFloat.shr_m].
    change (1024 - 53) with 971.
    by rewrite (proj2 (Z.leb_le t 971) Hmax).
Qed.

(** The double of a positive integer below [2^53] holds it exactly. *)
Lemma number_of_Z_exact (n : Z) :
  0 < n < 2 ^ 53 ->
  exists m : positive,
    number_of_Z n = SpecFloat.S754_finite false m (Z.log2 n - 52)
    /\ Z.pos m = n * 2 ^ (52 - Z.log2 n).
Proof.
  intros [H0 Hn].
  assert (Hlog : 0 <= Z.log2 n < 53).
  { split; [apply Z.log2_nonneg|]. apply Z.log2_lt_pow2; lia. }
  destruct n as [|mx|mx]; try lia.
  exists (Z.to_pos (Z.pos mx * 2 ^ (52 - Z.log2 (Z.pos mx)))).
  assert (Hm : Z.pos (Z.to_pos (Z.pos mx * 2 ^ (52 - Z.log2 (Z.pos mx))))
               = Z.pos mx * 2 ^ (52 - Z.log2 (Z.pos mx))).
  { apply Z2Pos.id. apply Z.mul_pos_pos; [lia|]. apply Z.pow_pos_nonneg; lia. }
  split; [|exact Hm].
  unfold number_of_Z. cbn [SpecFloat.binary_normalize].
  apply binary_round_exact.
  - rewrite digits2_pos_log2, fexp_normal by lia. lia.
  - lia.
  - left. split; [lia|]. rewrite Hm. f_equal. f_equal. lia.
Qed.

(** Aligning a mantissa to a lower exponent keeps the value. *)
Lemma shl_align_value (m : positive) (e ez : Z) :
  ez <= e ->
  Z.pos (SpecFloat.shl_align m e ez).1 = Z.pos m * 2 ^ (e - ez).
Proof.
  intros Hle. unfold SpecFloat.shl_align.
  destruct (ez - e) as [|d|d] eqn:Ed; try lia.
  - replace (e - ez) with 0 by lia. cbn [fst]. lia.
  - cbn [fst]. rewrite Zpos_iter_xO. f_equal. f_equal. lia.
Qed.

(** The sum of two doubles that hold positive integers, when the sum of
    the integers is below [2^53], holds that sum. *)
Lemma number_add_exact (a b : Z) :
  0 < a -> 0 < b -> a + b < 2 ^ 53 ->
  BigInt_number (number_add (number_of_Z a) (number_of_Z b)) = Ok (a + b).
Proof.
  intros Ha Hb Hsum.
  destruct (number_of_Z_exact a ltac:(lia)) as (ma & -> & Hma).
  destruct (number_of_Z_exact b ltac:(lia)) as (mb & -> & Hmb).
  assert (Hla : 0 <= Z.log2 a < 53)
    by (split; [apply Z.log2_nonneg|apply Z.log2_lt_pow2; lia]).
  assert (Hlb : 0 <= Z.log2 b < 53)
    by (split; [apply Z.log2_nonneg|apply Z.log2_lt_pow2; lia]).
  assert (Hls : Z.log2 a <= Z.log2 (a + b) < 53).
  { split; [apply Z.log2_le_mono; lia|apply Z.log2_lt_pow2; lia]. }
  assert (Hls' : Z.log2 b <= Z.log2 (a + b)) by (apply Z.log2_le_mono; lia).
  unfold number_add. cbn [SpecFloat.SFadd SpecFloat.cond_Zopp].
  set (ea := Z.log2 a - 52). set (eb := Z.log2 b - 52).
  set (ez := Z.min ea eb).
  assert (Hza : ez <= ea) by (unfold ez; lia).
  assert (Hzb : ez <= eb) by (unfold ez; lia).
  pose proof (shl_align_value ma ea ez Hza) as Hva.
  pose proof (shl_align_value mb eb ez Hzb) as Hvb.
  set (xa := (SpecFloat.shl_align ma ea ez).1) in *.
  set (xb := (SpecFloat.shl_align mb eb ez).1) in *.
  change (fst (SpecFloat.shl_align ma ea ez)) with xa.
  change (fst (SpecFloat.shl_align mb eb ez)) with xb.
  assert (Hx : Z.pos (xa + xb) = (a + b) * 2 ^ (- ez)).
  { rewrite Pos2Z.inj_add, Hva, Hvb, Hma, Hmb.
    rewrite <- !Z.mul_assoc, <- !Z.pow_add_r by (unfold ea, eb in *; lia).
    replace (52 - Z.log2 a + (ea - ez)) with (- ez) by (unfold ea; lia).
    replace (52 - Z.log2 b + (eb - ez)) with (- ez) by (unfold eb; lia). lia. }
  change (Z.pos xa + Z.pos xb) with (Z.pos (xa + xb)).
  cbn [SpecFloat.binary_normalize].
  set (t := Z.log2 (a + b) - 52).
  set (m' := Z.to_pos ((a + b) * 2 ^ (- t))).
  assert (Hm' : Z.pos m' = (a + b) * 2 ^ (- t)).
  { apply Z2Pos.id. apply Z.mul_pos_pos; [lia|]. apply Z.pow_pos_nonneg; unfold t; lia. }
  assert (Hzt : ez <= t) by (unfold ez, ea, eb, t; lia).
  rewrite (binary_round_exact (xa + xb) ez m' t).
  - unfold BigInt_number. destruct (Z.leb_spec 0 t) as [Ht0|Ht0].
    + assert (t = 0) as Ht by (unfold t in *; lia).
      rewrite Hm', Ht. f_equal. simpl. lia.
    + rewrite Hm', Z.mod_mul by (apply Z.pow_nonzero; lia).
      rewrite Z.eqb_refl, Z.div_mul by (apply Z.pow_nonzero; lia). reflexivity.
  - rewrite digits2_pos_log2, Hx, Z.log2_mul_pow2 by (unfold ez, ea, eb in *; lia).
    rewrite fexp_normal by (unfold ez, ea, eb in *; lia). unfold t. lia.
  - unfold t. lia.
  - destruct (Z.eq_dec ez t) as [E|E].
    + left. split; [lia|]. rewrite Hm', Hx, E, Z.sub_diag. lia.
    + right. split; [lia|]. rewrite Hm', Hx, <- Z.mul_assoc, <- Z.pow_add_r by (unfold t; lia).
      f_equal. f_equal. lia.
Qed.
End Doubles.

Section GasBuffer.
Import Utils.

(** X1.  For a non-negative estimate and a buffer that is a whole,
    non-negative percentage with [100 + bufferPct] below [2^53],
    [applyMegaethGasBuffer] returns: the addition of the two numbers is
    exact and [BigInt] accepts the sum.  The buffered estimate is never
    below the raw one, and it is the exact product
    [estimate * (100 + bufferPct) / 100] rounded down: it is off by less
    than one unit of gas. *)
Theorem applyMegaethGasBuffer_bounds estimate (percent : Z) :
  0 <= estimate -> 0 <= percent -> 100 + percent < 2 ^ 53 ->
  exists buffered,
    applyMegaethGasBuffer estimate (number_of_Z percent) = Ok buffered
    /\ estimate <= buffered
    /\ 100 * buffered <= estimate * (100 + percent) < 100 * buffered + 100.
Proof.
  intros He Hp Hsafe.
  assert (Hfactor : BigInt_number (number_add (number_of_Z 100) (number_of_Z percent))
                    = Ok (100 + percent)).
  { destruct (Z.eq_dec percent 0) as [->|Hnz]; [reflexivity|].
    apply number_add_exact; lia. }
  exists (Z.quot (estimate * (100 + percent)) 100).
  unfold applyMegaethGasBuffer. rewrite Hfactor. split; [reflexivity|].
  rewrite Z.quot_div_nonneg by nia.
  pose proof (Z.div_mod (estimate * (100 + percent)) 100 ltac:(lia)) as Hdm.
  pose proof (Z.mod_pos_bound (estimate * (100 + percent)) 100 ltac:(lia)) as Hm.
  split; [|lia].
  apply Z.div_le_lower_bound; nia.
Qed.

Lemma applyMegaethGasBuffer_bounds_witness :
  0 <= 100000 /\ 0 <= 30 /\ 100 + 30 < 2 ^ 53
  /\ exists buffered,
       applyMegaethGasBuffer 100000 (number_of_Z 30) = Ok buffered
       /\ 100000 <= buffered
       /\ 100 * buffered <= 100000 * (100 + 30) < 100 * buffered + 100.
Proof.
  assert (H1 : 0 <= 100000) by lia. assert (H2 : 0 <= 30) by lia.
  assert (H3 : 100 + 30 < 2 ^ 53) by reflexivity.
  split; [exact H1|]. split; [exact H2|]. split; [exact H3|].
  exact (applyMegaethGasBuffer_bounds 100000 30 H1 H2 H3).
Defined.

Example applyMegaethGasBuffer_default :
  applyMegaethGasBuffer 100000 defaultBufferPct = Ok 110000.
Proof. vm_compute. reflexivity. Qed.

Example applyMegaethGasBuffer_custom :
  applyMegaethGasBuffer 100000 (number_of_Z 30) = Ok 130000.
Proof. vm_compute. reflexivity. Qed.

Example applyMegaethGasBuffer_zero : applyMegaethGasBuffer 0 defaultBufferPct = Ok 0.
Proof. vm_compute. reflexivity. Qed.

(** Rounding is downwards: a small estimate can come back unbuffered. *)
Example applyMegaethGasBuffer_rounds_down : applyMegaethGasBuffer 9 defaultBufferPct = Ok 9.
Proof. vm_compute. reflexivity. Qed.

(** [12.5], the double [25 * 2^-1]. *)
Definition twelve_and_a_half : number := SpecFloat.binary_normalize 53 1024 25 (-1) false.

(** A buffer with a fractional part: [BigInt(112.5)] throws. *)
Example applyMegaethGasBuffer_fractional :
  applyMegaethGasBuffer 100000 twelve_and_a_half
  = Throw (ThrownError "RangeError"
             "The number cannot be converted to a BigInt because it is not an integer").
Proof. vm_compute. reflexivity. Qed.

Example applyMegaethGasBuffer_NaN :
  applyMegaethGasBuffer 100000 SpecFloat.S754_nan
  = Throw (ThrownError "RangeError"
             "The number cannot be converted to a BigInt because it is not an integer").
Proof. vm_compute. reflexivity. Qed.

(** From [2^53] on the sum is rounded: with [bufferPct = 2^53 - 1] the
    factor is [2^53 + 100], one more than [100 + bufferPct]. *)
Example applyMegaethGasBuffer_rounded_sum :
  applyMegaethGasBuffer 100 (number_of_Z (2 ^ 53 - 1)) = Ok 9007199254741092
  /\ 100 + (2 ^ 53 - 1) = 9007199254741091.
Proof. split; vm_compute; reflexivity. Qed.

(** A buffer of [-100] gives the factor [0]. *)
Example applyMegaethGasBuffer_minus_100 :
  applyMegaethGasBuffer 100000 (number_of_Z (-100)) = Ok 0.
Proof. vm_compute. reflexivity. Qed.

End GasBuffer.

Section Chunks.
Import Batching Utils.
Local Open Scope list_scope.
Context {T : Type}.

Lemma Array_slice_window (calls : list T) (i m : Z) :
  0 <= i -> 0 < m ->
  Array_slice calls i (i + m) = take (Z.to_nat m) (drop (Z.to_nat i) calls).
Proof.
  intros Hi Hm. unfold Array_slice.
  destruct (i <? 0) eqn:E1; [apply Z.ltb_lt in E1; lia|].
  destruct (i + m <? 0) eqn:E2; [apply Z.ltb_lt in E2; lia|].
  set (len := Z.of_nat (length calls)).
  destruct (Z_le_gt_dec len i) as [Hge|Hlt].
  - rewrite (Z.min_r i len) by lia. rewrite !drop_ge by lia. by rewrite !take_nil.
  - rewrite (Z.min_l i len) by lia.
    destruct (Z_le_gt_dec (i + m) len) as [Hin|Hout].
    + rewrite Z.min_l by lia. f_equal. lia.
    + rewrite Z.min_r by lia.
      rewrite !take_ge; [reflexivity| |]; rewrite length_drop; lia.
Qed.

(** The loop, when it advances: from [i] it pushes the chunks that tile
    the rest of the array. *)
Lemma chunkCalls_loop_tiles (calls : list T) (m : Z) :
  0 < m ->
  forall fuel i chunks,
    0 <= i ->
    (length calls <= Z.to_nat i + fuel)%nat ->
    exists more,
      chunkCalls_loop fuel calls m i chunks = Some (chunks ++ more)
      /\ concat more = drop (Z.to_nat i) calls
      /\ Forall (fun chunk => (0 < length chunk)%nat /\ Z.of_nat (length chunk) <= m) more
      /\ Z.of_nat (length more) = Z.max ((Z.of_nat (length calls) - i + m - 1) `div` m) 0.
Proof.
  intros Hm fuel. induction fuel as [|fuel IH]; intros i chunks Hi Hfuel.
  - exists []. simpl.
    destruct (i <? Z.of_nat (length calls)) eqn:E; [apply Z.ltb_lt in E; lia|].
    apply Z.ltb_ge in E.
    rewrite app_nil_r, drop_ge by lia. repeat split; try done.
    simpl. rewrite Z.max_r; [reflexivity|].
    assert ((Z.of_nat (length calls) - i + m - 1) `div` m < 1)
      by (apply Z.div_lt_upper_bound; lia).
    lia.
  - simpl. destruct (i <? Z.of_nat (length calls)) eqn:E.
    + apply Z.ltb_lt in E.
      destruct (IH (i + m) (chunks ++ [Array_slice calls i (i + m)])) as (more & Hrun & Hcat & Hall & Hlen);
        [lia|lia|].
      exists (Array_slice calls i (i + m) :: more).
      rewrite Hrun, <- app_assoc. split; [reflexivity|].
      rewrite (Array_slice_window calls i m Hi Hm) in *.
      split; [|split].
      * simpl. rewrite Hcat.
        replace (Z.to_nat (i + m)) with (Z.to_nat i + Z.to_nat m)%nat by lia.
        rewrite <- drop_drop. apply take_drop.
      * constructor; [|exact Hall].
        rewrite length_take, length_drop. lia.
      * simpl length. rewrite Nat2Z.inj_succ, Hlen.
        replace (Z.of_nat (length calls) - i + m - 1)
          with ((Z.of_nat (length calls) - (i + m) + m - 1) + 1 * m) by lia.
        rewrite Z.div_add by lia.
        assert (0 <= (Z.of_nat (length calls) - (i + m) + m - 1) `div` m)
          by (apply Z.div_pos; lia).
        lia.
    + apply Z.ltb_ge in E. exists [].
      rewrite app_nil_r, drop_ge by lia. repeat split; try done.
      simpl. rewrite Z.max_r; [reflexivity|].
      assert ((Z.of_nat (length calls) - i + m - 1) `div` m < 1)
        by (apply Z.div_lt_upper_bound; lia).
      lia.
Qed.

(** X2.  For a positive [maxPerBatch], [chunkCalls] returns; its chunks
    put end to end are the calls, in order; no chunk is empty, none is
    longer than [maxPerBatch]; there are [ceil(length / maxPerBatch)] of
    them. *)
Theorem chunkCalls_tiles (calls : list T) (maxPerBatch : Z) :
  0 < maxPerBatch ->
  exists chunks,
    chunkCalls calls maxPerBatch = Some chunks
    /\ concat chunks = calls
    /\ Forall (fun chunk => (0 < length chunk)%nat
                            /\ Z.of_nat (length chunk) <= maxPerBatch) chunks
    /\ Z.of_nat (length chunks)
       = (Z.of_nat (length calls) + maxPerBatch - 1) `div` maxPerBatch.
Proof.
  intros Hm.
  destruct (chunkCalls_loop_tiles calls maxPerBatch Hm (length calls) 0 [])
    as (more & Hrun & Hcat & Hall & Hlen); [lia|simpl; lia|].
  exists more. split; [exact Hrun|]. split; [exact Hcat|]. split; [exact Hall|].
  rewrite Hlen, Z.sub_0_r. apply Z.max_l. apply Z.div_pos; lia.
Qed.

(** The loop, when it does not advance: the index stays below the
    length, whatever the fuel. *)
Lemma chunkCalls_loop_stuck (calls : list T) (m : Z) :
  m <= 0 ->
  forall fuel i chunks,
    i < Z.of_nat (length calls) ->
    chunkCalls_loop fuel calls m i chunks = None.
Proof.
  intros Hm fuel. induction fuel as [|fuel IH]; intros i chunks Hi; simpl;
    (destruct (i <? Z.of_nat (length calls)) eqn:E; [|apply Z.ltb_ge in E; lia]).
  - reflexivity.
  - apply IH. lia.
Qed.

(** X3.  With [maxPerBatch <= 0] and at least one call, the loop of
    [chunkCalls] never ends: no amount of fuel gives a result.  (With no
    call at all it returns the empty list of chunks.) *)
Theorem chunkCalls_never_returns (calls : list T) (maxPerBatch : Z) :
  maxPerBatch <= 0 -> calls <> [] ->
  forall fuel, chunkCalls_fuel fuel calls maxPerBatch = None.
Proof.
  intros Hm Hne fuel. apply chunkCalls_loop_stuck; [exact Hm|].
  destruct calls; [done|simpl; lia].
Qed.

Lemma chunkCalls_empty (maxPerBatch : Z) (fuel : nat) :
  chunkCalls_fuel fuel (@nil T) maxPerBatch = Some [].
Proof. by destruct fuel. Qed.

End Chunks.

Section ChunkTotals.
Import Batching Utils.
Local Open Scope list_scope.

Lemma calculateTotalValue_from (acc : Z) (calls : list MegaCall) :
  foldl (fun sum call => sum + value call) acc calls = acc + calculateTotalValue calls.
Proof.
  unfold calculateTotalValue. revert acc.
  induction calls as [|c calls IH]; intros acc; simpl; [lia|].
  rewrite IH, (IH (0 + value c)). lia.
Qed.

Lemma calculateTotalValue_app (a b : list MegaCall) :
  calculateTotalValue (a ++ b) = calculateTotalValue a + calculateTotalValue b.
Proof.
  unfold calculateTotalValue at 1. rewrite foldl_app.
  fold (calculateTotalValue a). apply calculateTotalValue_from.
Qed.

Lemma calculateTotalValue_concat (chunks : list (list MegaCall)) :
  calculateTotalValue (concat chunks)
  = foldr Z.add 0 (calculateTotalValue <$> chunks).
Proof.
  induction chunks as [|c chunks IH]; [reflexivity|].
  simpl. by rewrite calculateTotalValue_app, IH.
Qed.

(** X4.  Splitting a batch with [chunkCalls] keeps the total value: the
    totals of the chunks add up to the total of the calls. *)
Theorem chunkCalls_keeps_total (calls : list MegaCall) (maxPerBatch : Z) chunks :
  0 < maxPerBatch ->
  chunkCalls calls maxPerBatch = Some chunks ->
  foldr Z.add 0 (calculateTotalValue <$> chunks) = calculateTotalValue calls.
Proof.
  intros Hm Hchunks.
  destruct (chunkCalls_loop_tiles calls maxPerBatch Hm (length calls) 0 [])
    as (chunks' & Hrun & Hcat & _); [lia|simpl; lia|].
  unfold chunkCalls, chunkCalls_fuel in Hchunks.
  rewrite Hrun in Hchunks. injection Hchunks as <-.
  by rewrite <- calculateTotalValue_concat, Hcat.
Qed.

Definition three_calls : list MegaCall :=
  [ {| target := "0x1111111111111111111111111111111111111111"; value := 100; callData := "0x00" |};
    {| target := "0x2222222222222222222222222222222222222222"; value := 200; callData := "0x01" |};
    {| target := "0x4444444444444444444444444444444444444444"; value := 42; callData := "0x00" |} ].

Lemma chunkCalls_tiles_witness :
  0 < 2
  /\ exists chunks,
       chunkCalls three_calls 2 = Some chunks
       /\ concat chunks = three_calls
       /\ Forall (fun chunk => (0 < length chunk)%nat /\ Z.of_nat (length chunk) <= 2) chunks
       /\ Z.of_nat (length chunks) = (Z.of_nat (length three_calls) + 2 - 1) `div` 2.
Proof.
  assert (H : 0 < 2) by lia.
  split; [exact H|]. exact (chunkCalls_tiles three_calls 2 H).
Defined.

Lemma chunkCalls_never_returns_witness :
  0 <= 0 /\ three_calls <> []
  /\ forall fuel, chunkCalls_fuel fuel three_calls 0 = None.
Proof.
  assert (H : 0 <= 0) by lia. assert (Hne : three_calls <> []) by discriminate.
  split; [exact H|]. split; [exact Hne|].
  exact (chunkCalls_never_returns three_calls 0 H Hne).
Defined.

Lemma chunkCalls_keeps_total_witness :
  0 < 2
  /\ chunkCalls three_calls 2
     = Some [ [ {| target := "0x1111111111111111111111111111111111111111"; value := 100; callData := "0x00" |};
                {| target := "0x2222222222222222222222222222222222222222"; value := 200; callData := "0x01" |} ];
              [ {| target := "0x4444444444444444444444444444444444444444"; value := 42; callData := "0x00" |} ] ]
  /\ foldr Z.add 0 [300; 42] = calculateTotalValue three_calls.
Proof.
  assert (H : 0 < 2) by lia.
  assert (E : chunkCalls three_calls 2
     = Some [ [ {| target := "0x1111111111111111111111111111111111111111"; value := 100; callData := "0x00" |};
                {| target := "0x2222222222222222222222222222222222222222"; value := 200; callData := "0x01" |} ];
              [ {| target := "0x4444444444444444444444444444444444444444"; value := 42; callData := "0x00" |} ] ])
    by reflexivity.
  split; [exact H|]. split; [exact E|].
  exact (chunkCalls_keeps_total three_calls 2 _ H E).
Defined.

End ChunkTotals.

(* ===================================================================== *)
(** * utils.ts: the event parsers                                         *)
(* ===================================================================== *)

Module Events.

(** [BatchExecutedEvent] (types.ts).  The parsers copy the arguments
    of the decoded event under a type assertion; an argument that the
    decoder left out is [undefined] ([None]) in the copy. *)
Record BatchExecutedEvent := mkBatchExecutedEvent {
  be_sender : Address;
  be_callCount : option Z;
  be_totalValue : option Z;
  be_blockNumber : Z;
  be_transactionHash : Hex;
}.

(** [CallExecutedEvent] (types.ts) *)
Record CallExecutedEvent := mkCallExecutedEvent {
  ce_callIndex : Z;
  ce_target : Address;
  ce_value : option Z;
  ce_success : option bool;
  ce_blockNumber : Z;
  ce_transactionHash : Hex;
}.

(** [arr.sort(compareFn)].  The sort of the language is stable; an
    element goes before the first one that [compareFn] puts after it.
    Each new element is inserted into the sorted ones before it. *)
Fixpoint sort_insert {A} (compareFn : A -> A -> Z) (x : A) (sorted : list A) : list A :=
  match sorted with
  | [] => [x]
  | y :: rest =>
      if 0 <? compareFn y x then x :: y :: rest
      else y :: sort_insert compareFn x rest
  end.

Definition Array_sort {A} (compareFn : A -> A -> Z) (arr : list A) : list A :=
  foldl (fun sorted x => sort_insert compareFn x sorted) [] arr.

Section WithViem.
Context {viem : Viem}.

(** The loop of [parseBatchExecutedEvent] over [receipt.logs]: the
    first log that decodes to [BatchExecuted] is returned, with the
    data arguments it came with; a log of another event, or one whose
    decoding throws, is skipped. *)
Fixpoint firstBatchExecuted (receipt : TransactionReceipt) (remaining : list Log)
  : option BatchExecutedEvent :=
  match remaining with
  | [] => None
  | log :: rest =>
      match decodeEventLog log with
      | Ok (BatchExecuted sender data) =>
          Some {| be_sender := sender;
                  be_callCount := fst <$> data;
                  be_totalValue := snd <$> data;
                  be_blockNumber := blockNumber receipt;
                  be_transactionHash := transactionHash receipt |}
      | Ok (CallExecuted _ _ _) => firstBatchExecuted receipt rest
      | Throw _ => firstBatchExecuted receipt rest
      end
  end.

Definition parseBatchExecutedEvent (receipt : TransactionReceipt) : option BatchExecutedEvent :=
  firstBatchExecuted receipt (logs receipt).

(** One turn of the loop of [parseCallExecutedEvents]. *)
Definition pushCallExecuted (receipt : TransactionReceipt)
    (events : list CallExecutedEvent) (log : Log) : list CallExecutedEvent :=
  match decodeEventLog log with
  | Ok (CallExecuted callIndex callTarget data) =>
      (events ++ [ {| ce_callIndex := callIndex;
                      ce_target := callTarget;
                      ce_value := fst <$> data;
                      ce_success := snd <$> data;
                      ce_blockNumber := blockNumber receipt;
                      ce_transactionHash := transactionHash receipt |} ])%list
  | Ok (BatchExecuted _ _) => events
  | Throw _ => events
  end.

(** The events pushed by the loop, before the sort. *)
Definition collectCallExecuted (receipt : TransactionReceipt) : list CallExecutedEvent :=
  foldl (pushCallExecuted receipt) [] (logs receipt).

(** [(a, b) => Number(a.callIndex - b.callIndex)] *)
Definition byCallIndex (a b : CallExecutedEvent) : Z :=
  Number (ce_callIndex a - ce_callIndex b).

Definition parseCallExecutedEvents (receipt : TransactionReceipt) : list CallExecutedEvent :=
  Array_sort byCallIndex (collectCallExecuted receipt).

End WithViem.
End Events.

Section NumberFacts.

(** [Number] rounds, but never across zero. *)
Lemma Number_pos (b : Z) : 0 < b -> 0 < Number b.
Proof.
  intros Hb. unfold Number. rewrite (Z.abs_eq b) by lia.
  destruct (b <? 2 ^ 53) eqn:E; [exact Hb|].
  apply Z.ltb_ge in E.
  assert (Hlog : 53 <= Z.log2 b) by (apply Z.log2_le_pow2; lia).
  set (e := Z.log2 b - 52).
  assert (He : 0 < e) by (unfold e; lia).
  assert (Hq : 0 < Z.shiftr b e).
  { rewrite Z.shiftr_div_pow2 by lia.
    apply Z.div_str_pos. split; [apply Z.pow_pos_nonneg; lia|].
    transitivity (2 ^ Z.log2 b); [apply Z.pow_le_mono_r; unfold e; lia|].
    apply Z.log2_spec. lia. }
  rewrite (Z.sgn_pos b) by lia. rewrite Z.mul_1_l.
  rewrite Z.shiftl_mul_pow2 by lia.
  apply Z.mul_pos_pos; [|apply Z.pow_pos_nonneg; lia].
  destruct (_ || _)%bool; lia.
Qed.

Lemma Number_opp (b : Z) : Number (- b) = - Number b.
Proof.
  unfold Number. rewrite Z.abs_opp, Z.sgn_opp.
  destruct (Z.abs b <? 2 ^ 53); [reflexivity|]. lia.
Qed.

Lemma Number_sgn (b : Z) : Z.sgn (Number b) = Z.sgn b.
Proof.
  destruct (Z.lt_trichotomy b 0) as [H|[->|H]].
  - assert (0 < Number (- b)) as Hp by (apply Number_pos; lia).
    rewrite Number_opp in Hp. rewrite !Z.sgn_neg; lia.
  - reflexivity.
  - pose proof (Number_pos b H). rewrite !Z.sgn_pos; lia.
Qed.

End NumberFacts.

Section EventParsers.
Context {viem : Viem}.
Import Utils Events.
Local Open Scope list_scope.

Lemma byCallIndex_after (a b : CallExecutedEvent) :
  (0 <? byCallIndex a b) = (ce_callIndex b <? ce_callIndex a).
Proof.
  unfold byCallIndex.
  pose proof (Number_sgn (ce_callIndex a - ce_callIndex b)) as Hs.
  destruct (Z.ltb_spec 0 (Number (ce_callIndex a - ce_callIndex b)));
    destruct (Z.ltb_spec (ce_callIndex b) (ce_callIndex a)); try reflexivity; exfalso.
  - rewrite Z.sgn_pos in Hs by lia.
    destruct (Z.eq_dec (ce_callIndex a) (ce_callIndex b)) as [E|E].
    + rewrite E, Z.sub_diag in Hs. discriminate.
    + rewrite Z.sgn_neg in Hs by lia. discriminate.
  - rewrite (Z.sgn_pos (_ - _)) in Hs by lia.
    destruct (Z.eq_dec (Number (ce_callIndex a - ce_callIndex b)) 0) as [E|E].
    + rewrite E in Hs. discriminate.
    + rewrite Z.sgn_neg in Hs by lia. discriminate.
Qed.

Definition ascending (a b : CallExecutedEvent) : Prop := ce_callIndex a <= ce_callIndex b.

Lemma sort_insert_Permutation {A} (cmp : A -> A -> Z) x (l : list A) :
  sort_insert cmp x l ≡ₚ l ++ [x].
Proof.
  induction l as [|y l IH]; simpl; [done|].
  destruct (0 <? cmp y x).
  - apply (Permutation_app_comm [x] (y :: l)).
  - by rewrite IH.
Qed.

Lemma Array_sort_from_Permutation {A} (cmp : A -> A -> Z) (arr acc : list A) :
  foldl (fun sorted x => sort_insert cmp x sorted) acc arr ≡ₚ acc ++ arr.
Proof.
  revert acc. induction arr as [|x arr IH]; intros acc; simpl.
  - by rewrite app_nil_r.
  - rewrite IH, sort_insert_Permutation, <- app_assoc. done.
Qed.

Lemma sort_insert_sorted x (l : list CallExecutedEvent) :
  StronglySorted ascending l ->
  StronglySorted ascending (sort_insert byCallIndex x l).
Proof.
  induction 1 as [|y l Hl IH Hy]; simpl; [repeat constructor|].
  rewrite byCallIndex_after.
  destruct (Z.ltb_spec (ce_callIndex x) (ce_callIndex y)).
  - constructor; [by constructor|].
    constructor; [unfold ascending; lia|].
    eapply Forall_impl; [exact Hy|]. unfold ascending. intros; lia.
  - constructor; [exact IH|].
    rewrite sort_insert_Permutation. apply Forall_app. split; [exact Hy|].
    constructor; [exact H|constructor].
Qed.

Lemma Array_sort_from_sorted (arr acc : list CallExecutedEvent) :
  StronglySorted ascending acc ->
  StronglySorted ascending (foldl (fun sorted x => sort_insert byCallIndex x sorted) acc arr).
Proof.
  revert acc. induction arr as [|x arr IH]; intros acc Hacc; simpl; [exact Hacc|].
  apply IH. by apply sort_insert_sorted.
Qed.

(** The events of one call index, in the order they have in a list. *)
Definition ofCallIndex (k : Z) (events : list CallExecutedEvent) : list CallExecutedEvent :=
  filter (fun e => ce_callIndex e = k) events.

Lemma ofCallIndex_none k (l : list CallExecutedEvent) :
  Forall (fun e => ce_callIndex e <> k) l -> ofCallIndex k l = [].
Proof.
  unfold ofCallIndex. induction 1 as [|z l Hz Hl IH]; [done|].
  rewrite filter_cons, IH. by destruct (decide (ce_callIndex z = k)).
Qed.

Lemma sort_insert_stable k x (l : list CallExecutedEvent) :
  StronglySorted ascending l ->
  ofCallIndex k (sort_insert byCallIndex x l) = ofCallIndex k (l ++ [x]).
Proof.
  induction 1 as [|y l Hl IH Hy]; simpl; [done|].
  rewrite byCallIndex_after.
  destruct (Z.ltb_spec (ce_callIndex x) (ce_callIndex y)) as [Hlt|Hge].
  - unfold ofCallIndex at 2.
    rewrite (filter_app _ (y :: l) [x]). fold (ofCallIndex k (y :: l)) (ofCallIndex k [x]).
    destruct (decide (ce_callIndex x = k)) as [Hx|Hx].
    + rewrite (ofCallIndex_none k (y :: l)).
      * unfold ofCallIndex. rewrite filter_cons.
        destruct (decide (ce_callIndex x = k)); [|done].
        fold (ofCallIndex k (y :: l)).
        rewrite (ofCallIndex_none k (y :: l)); [by rewrite filter_cons, decide_True|].
        constructor; [lia|]. eapply Forall_impl; [exact Hy|].
        unfold ascending. intros; lia.
      * constructor; [lia|]. eapply Forall_impl; [exact Hy|].
        unfold ascending. intros; lia.
    + rewrite (ofCallIndex_none k [x]) by (by constructor).
      rewrite app_nil_r. unfold ofCallIndex. rewrite filter_cons.
      by destruct (decide (ce_callIndex x = k)).
  - unfold ofCallIndex in *. rewrite !filter_cons, IH.
    by destruct (decide (ce_callIndex y = k)).
Qed.

Lemma ofCallIndex_app k (a b : list CallExecutedEvent) :
  ofCallIndex k (a ++ b) = ofCallIndex k a ++ ofCallIndex k b.
Proof. apply filter_app. Qed.

Lemma Array_sort_from_stable k (arr acc : list CallExecutedEvent) :
  StronglySorted ascending acc ->
  ofCallIndex k (foldl (fun sorted x => sort_insert byCallIndex x sorted) acc arr)
  = ofCallIndex k (acc ++ arr).
Proof.
  revert acc. induction arr as [|x arr IH]; intros acc Hacc; simpl.
  - by rewrite app_nil_r.
  - rewrite IH by (by apply sort_insert_sorted).
    rewrite ofCallIndex_app, (sort_insert_stable k x acc Hacc), <- ofCallIndex_app.
    by rewrite <- app_assoc.
Qed.

(** X5.  [parseCallExecutedEvents] returns the [CallExecuted] events of
    the receipt in ascending order of call index, whatever the size of
    the indices (the comparator rounds the difference, but keeps its
    sign); nothing is lost or added by the sort, and events of one call
    index keep the order of the logs. *)
Theorem parseCallExecutedEvents_sorted (receipt : TransactionReceipt) :
  StronglySorted ascending (parseCallExecutedEvents receipt)
  /\ parseCallExecutedEvents receipt ≡ₚ collectCallExecuted receipt
  /\ forall k, ofCallIndex k (parseCallExecutedEvents receipt)
               = ofCallIndex k (collectCallExecuted receipt).
Proof.
  unfold parseCallExecutedEvents, Array_sort. split; [|split].
  - apply Array_sort_from_sorted. constructor.
  - apply (Array_sort_from_Permutation byCallIndex _ []).
  - intros k. apply (Array_sort_from_stable k _ []). constructor.
Qed.

(** What the loop of [parseCallExecutedEvents] keeps of one log. *)
Definition callExecutedOf (receipt : TransactionReceipt) (log : Log) : option CallExecutedEvent :=
  match decodeEventLog log with
  | Ok (CallExecuted callIndex callTarget data) =>
      Some (mkCallExecutedEvent callIndex callTarget (fst <$> data) (snd <$> data)
              (blockNumber receipt) (transactionHash receipt))
  | _ => None
  end.

Lemma collect_from receipt (remaining : list Log) (events : list CallExecutedEvent) :
  foldl (pushCallExecuted receipt) events remaining
  = events ++ omap (callExecutedOf receipt) remaining.
Proof.
  revert events. induction remaining as [|log rest IH]; intros events; simpl.
  - by rewrite app_nil_r.
  - rewrite IH. unfold pushCallExecuted, callExecutedOf.
    destruct (decodeEventLog log) as [[| ]|]; simpl; try done.
    by rewrite <- app_assoc.
Qed.

(** X6.  An event is returned by [parseCallExecutedEvents] exactly when
    some log of the receipt decodes to [CallExecuted] with its call
    index and target; its value and success are the data arguments of
    that log, both [undefined] when the log came without usable data.
    A log of another event, or one whose decoding throws, contributes
    nothing and raises nothing; every returned event carries the block
    number and the hash of the receipt. *)
Theorem parseCallExecutedEvents_elements (receipt : TransactionReceipt) (event : CallExecutedEvent) :
  event ∈ parseCallExecutedEvents receipt
  <-> exists log data,
        log ∈ logs receipt
        /\ decodeEventLog log
           = Ok (CallExecuted (ce_callIndex event) (ce_target event) data)
        /\ ce_value event = fst <$> data
        /\ ce_success event = snd <$> data
        /\ ce_blockNumber event = blockNumber receipt
        /\ ce_transactionHash event = transactionHash receipt.
Proof.
  unfold parseCallExecutedEvents, Array_sort.
  rewrite (Array_sort_from_Permutation byCallIndex _ []). simpl.
  unfold collectCallExecuted. rewrite collect_from. simpl.
  rewrite list_elem_of_omap. split.
  - intros (log & Hin & Hlog). exists log.
    unfold callExecutedOf in Hlog.
    destruct (decodeEventLog log) as [[|callIndex callTarget data]|]; try discriminate.
    exists data. split; [exact Hin|]. by injection Hlog as <-.
  - intros (log & data & Hin & Hlog & Hv & Hs & Hb & Ht). exists log. split; [exact Hin|].
    unfold callExecutedOf. rewrite Hlog. destruct event; simpl in *. by subst.
Qed.

Definition decodesToBatchExecuted (log : Log) : Prop :=
  exists sender data, decodeEventLog log = Ok (BatchExecuted sender data).

Lemma firstBatchExecuted_spec receipt (remaining : list Log) :
  match firstBatchExecuted receipt remaining with
  | None => Forall (fun log => ~ decodesToBatchExecuted log) remaining
  | Some event =>
      exists before log after data,
        remaining = before ++ log :: after
        /\ Forall (fun log => ~ decodesToBatchExecuted log) before
        /\ decodeEventLog log = Ok (BatchExecuted (be_sender event) data)
        /\ be_callCount event = fst <$> data
        /\ be_totalValue event = snd <$> data
        /\ be_blockNumber event = blockNumber receipt
        /\ be_transactionHash event = transactionHash receipt
  end.
Proof.
  induction remaining as [|log rest IH]; simpl; [constructor|].
  destruct (decodeEventLog log) as [[sender data| ]|] eqn:E.
  - exists [], log, rest, data. by repeat split.
  - destruct (firstBatchExecuted receipt rest) as [event|].
    + destruct IH as (before & log' & after & data & -> & Hb & Hrest).
      exists (log :: before), log', after, data. repeat split; try apply Hrest.
      constructor; [|exact Hb]. intros (? & ? & H). congruence.
    + constructor; [|exact IH]. intros (? & ? & H). congruence.
  - destruct (firstBatchExecuted receipt rest) as [event|].
    + destruct IH as (before & log' & after & data & -> & Hb & Hrest).
      exists (log :: before), log', after, data. repeat split; try apply Hrest.
      constructor; [|exact Hb]. intros (? & ? & H). congruence.
    + constructor; [|exact IH]. intros (? & ? & H). congruence.
Qed.

(** X7.  [parseBatchExecutedEvent] returns [null] exactly when no log
    of the receipt decodes to [BatchExecuted]; otherwise it returns the
    first such log in receipt order, with the block number and the hash
    of the receipt, and ignores the logs around it, also those that do
    not decode.  The call count and the total value of the returned
    event are the data arguments of that log, both [undefined] when the
    log came without usable data. *)
Theorem parseBatchExecutedEvent_first (receipt : TransactionReceipt) :
  match parseBatchExecutedEvent receipt with
  | None => forall log, log ∈ logs receipt -> ~ decodesToBatchExecuted log
  | Some event =>
      exists before log after data,
        logs receipt = before ++ log :: after
        /\ (forall earlier, earlier ∈ before -> ~ decodesToBatchExecuted earlier)
        /\ decodeEventLog log = Ok (BatchExecuted (be_sender event) data)
        /\ be_callCount event = fst <$> data
        /\ be_totalValue event = snd <$> data
        /\ be_blockNumber event = blockNumber receipt
        /\ be_transactionHash event = transactionHash receipt
  end.
Proof.
  unfold parseBatchExecutedEvent.
  pose proof (firstBatchExecuted_spec receipt (logs receipt)) as H.
  destruct (firstBatchExecuted receipt (logs receipt)) as [event|].
  - destruct H as (before & log & after & data & Hl & Hb & Hrest).
    exists before, log, after, data. split; [exact Hl|]. split; [|exact Hrest].
    by apply Forall_forall.
  - by apply Forall_forall.
Qed.

(** What the logs report on the success of call [i], in receipt order:
    the [success] argument of each [CallExecuted] log whose index is
    [i], [undefined] ([None]) for a log that came without usable data. *)
Definition reportedFlags (i : Z) (remaining : list Log) : list (option bool) :=
  omap (fun log =>
          match decodeEventLog log with
          | Ok (CallExecuted callIndex _ data) =>
              if Number callIndex =? i then Some (snd <$> data) else None
          | _ => None
          end) remaining.

Lemma lookup_recorded (i : Z) (remaining : list Log) (resultMap : gmap Z MegaCallResult) :
  foldl recordCallExecuted resultMap remaining !! i
  = match last (reportedFlags i remaining) with
    | Some flag => Some {| success := flag; returnData := "0x" |}
    | None => resultMap !! i
    end.
Proof.
  revert resultMap. induction remaining as [|log rest IH]; intros resultMap; [reflexivity|].
  simpl foldl. rewrite IH. unfold reportedFlags at 2. cbn [omap list_omap].
  fold (reportedFlags i rest). unfold recordCallExecuted.
  destruct (decodeEventLog log) as [[|callIndex t data]|]; try reflexivity.
  destruct (Z.eqb_spec (Number callIndex) i) as [->|Hne].
  - rewrite lookup_insert, decide_True by done.
    rewrite last_cons. by destruct (last (reportedFlags i rest)).
  - rewrite lookup_insert_ne by done. reflexivity.
Qed.

(** X8.  Without usable return bytes (none given, bytes no longer than
    ['0x'], or bytes whose decoding throws), [parseCallResults] reads the
    outcome of call [i] off the events: entry [i] carries the [success]
    argument of the last [CallExecuted] log whose index is [i], which is
    [undefined] when that log came without usable data, and [true] when
    no log reports on call [i]; the return data of every entry is the
    empty ["0x"]. *)
Theorem parseCallResults_reads_last_event receipt (callCount : Z) rawReturnData (i : nat) :
  (forall raw, rawReturnData = Some raw ->
     (String.length raw <= 2)%nat
     \/ exists err, decodeAbiParameters_results raw = Throw err) ->
  0 <= callCount < 2 ^ 32 -> Z.of_nat i < callCount ->
  exists results,
    parseCallResults receipt callCount rawReturnData = Ok results
    /\ results !! i
       = Some {| success :=
                   default (Some true) (last (reportedFlags (Z.of_nat i) (logs receipt)));
                 returnData := "0x" |}.
Proof.
  intros Hraw Hc Hi. unfold parseCallResults.
  rewrite (resultsFromReturnData_passes _ Hraw).
  unfold resultsFromLogs, Array_from_length.
  destruct (2 ^ 32 <=? callCount) eqn:E; [apply Z.leb_le in E; lia|].
  pose proof (lookup_recorded (Z.of_nat i) (logs receipt) ∅) as Hlook.
  fold (callExecutedMap receipt) in Hlook.
  destruct (0 <? size (callExecutedMap receipt))%nat eqn:Es;
    eexists; (split; [reflexivity|]);
    rewrite list_lookup_fmap, lookup_seq_lt by lia; simpl.
  - rewrite Hlook. by destruct (last _).
  - apply Nat.ltb_ge in Es.
    assert (callExecutedMap receipt = ∅) as Hempty
      by (apply map_size_empty_iff; lia).
    rewrite Hempty, lookup_empty in Hlook.
    destruct (last _); [discriminate|reflexivity].
Qed.

End EventParsers.

(* ===================================================================== *)
(** * builder.ts: what the ledger methods do and leave alone              *)
(* ===================================================================== *)

Module Accessors.
Import Builder.

(** [get isConnected()]: [!!this.walletClient?.account] *)
Definition isConnected (σ : State) : bool :=
  match walletClient σ ≫= wallet_account with
  | Some _ => true
  | None => false
  end.

(** [get account()]: [this.walletClient?.account?.address] *)
Definition account (σ : State) : option Address :=
  account_address <$> (walletClient σ ≫= wallet_account).

End Accessors.

Section LedgerMethods.
Context {viem : Viem} {host : Host}.
Import Builder.
Local Open Scope list_scope.

(** *** [addCall] *)

Lemma addCall_throws target abi functionName args value e σ :
  encodeFunctionData abi functionName args = Throw e ->
  addCall target abi functionName args value σ = (Throw e, σ).
Proof. intros H. unfold addCall, lift, mbind, M_bind. by rewrite H. Qed.

Lemma addCall_returns target abi functionName args value callData σ :
  encodeFunctionData abi functionName args = Ok callData ->
  addCall target abi functionName args value σ
  = append op_custom
      {| target := target; value := default 0 value; callData := callData |} None σ.
Proof. intros H. unfold addCall, lift, mbind, M_bind. by rewrite H. Qed.

Lemma append_ticks type c metadata σ :
  ticks (append type c metadata σ).2 = S (ticks σ).
Proof. reflexivity. Qed.

(** X9.  [addCall] encodes before it touches the ledger: when
    [encodeFunctionData] throws, the error is passed on and the builder
    is exactly as before; otherwise one call
    [{ target, value: value ?? 0n, callData }] is queued behind the
    others, the ledger grows by one and the total value by the value of
    the call. *)
Theorem addCall_encodes_first target abi functionName args value σ :
  ledger_wf σ ->
  match encodeFunctionData abi functionName args with
  | Throw e => addCall target abi functionName args value σ = (Throw e, σ)
  | Ok callData =>
      exists σ',
        addCall target abi functionName args value σ = (Ok tt, σ')
        /\ ledger_wf σ'
        /\ calls_in (heap σ') (calls σ')
           = calls_in (heap σ) (calls σ)
             ++ [ {| target := target; value := default 0 value; callData := callData |} ]
        /\ length_ σ' = S (length_ σ)
        /\ getTotalValue σ' = getTotalValue σ + default 0 value
  end.
Proof.
  intros Hwf.
  destruct (encodeFunctionData abi functionName args) as [callData|e] eqn:E;
    [|by apply addCall_throws].
  rewrite (addCall_returns _ _ _ _ _ _ _ E).
  destruct (append_spec op_custom (mkCall target (default 0 value) callData) None σ Hwf)
    as (σ' & Hrun & Happ).
  exists σ'. split; [exact Hrun|]. split; [exact (app_wf _ _ _ _ _ Happ)|].
  split; [exact (app_calls_in _ _ _ _ _ Happ)|].
  destruct (app_operations_in _ _ _ _ _ Happ) as (lc & _ & _ & Harr & _).
  split.
  - unfold length_. rewrite Harr, length_app. simpl. lia.
  - unfold getTotalValue. rewrite (app_calls_in _ _ _ _ _ Happ), foldl_app. reflexivity.
Qed.

(** *** [pop] *)

Lemma array_pop_returns arr σ :
  (array_pop arr σ).1 = Ok (last (array_at (heap σ) arr)).
Proof. unfold array_pop. by destruct (last _). Qed.

Lemma array_pop_walletClient arr σ : walletClient (array_pop arr σ).2 = walletClient σ.
Proof. unfold array_pop. by destruct (last _). Qed.

Lemma pop_returns σ :
  (pop σ).1 = Ok (last (array_at (heap (array_pop (operations σ) σ).2)
                                 (calls (array_pop (operations σ) σ).2))).
Proof.
  unfold pop, gets, mbind, M_bind. simpl.
  pose proof (array_pop_returns (operations σ) σ) as H1.
  destruct (array_pop (operations σ) σ) as [[r|e] σ1]; [|discriminate].
  simpl. apply array_pop_returns.
Qed.

Lemma removelast_omap_total {A B} (f : A -> option B) (l : list A) :
  Forall (fun x => is_Some (f x)) l ->
  omap f (removelast l) = removelast (omap f l).
Proof.
  intros H. destruct l as [|x l _] using rev_ind; [reflexivity|].
  apply Forall_app in H as [_ Hx]. apply Forall_singleton in Hx as [y Hy].
  rewrite removelast_last, omap_app. simpl. rewrite Hy. by rewrite removelast_last.
Qed.

(** What [pop()] returns and leaves behind. *)
Lemma pop_spec σ :
  ledger_wf σ ->
  exists σ',
    pop σ = (Ok (last (array_at (heap σ) (calls σ))), σ')
    /\ ledger_wf σ'
    /\ calls σ' = calls σ /\ operations σ' = operations σ
    /\ walletClient σ' = walletClient σ
    /\ keeps_records (heap σ) (heap σ')
    /\ heap σ' !! calls σ = Some (ObjArray (removelast (array_at (heap σ) (calls σ))))
    /\ heap σ' !! operations σ
       = Some (ObjArray (removelast (array_at (heap σ) (operations σ))))
    /\ (array_at (heap σ) (calls σ) = [] -> σ' = σ).
Proof.
  intros Hwf. pose proof Hwf as [Hd [cs Hcs] [os Hos] Hal Hce Hoe].
  rewrite (array_at_lookup _ _ _ Hcs) in *. rewrite (array_at_lookup _ _ _ Hos) in *.
  exists (pop σ).2.
  pose proof (keeps_pop σ Hwf) as Hwf'.
  pose proof (pop_returns σ) as Hret.
  destruct (array_pop_spec (operations σ) σ os Hos) as (Hc1 & Ho1 & Harr1 & Hk1 & Hf1).
  pose proof (array_pop_walletClient (operations σ) σ) as Hw1.
  assert (Hcs1 : heap (array_pop (operations σ) σ).2 !! calls (array_pop (operations σ) σ).2
                 = Some (ObjArray cs)).
  { rewrite Hc1, Hf1; [exact Hcs|exact Hd]. }
  rewrite (array_at_lookup _ _ _ Hcs1) in Hret.
  rewrite pop_state in *.
  set (σ1 := (array_pop (operations σ) σ).2) in *.
  destruct (array_pop_spec (calls σ1) σ1 cs Hcs1) as (Hc2 & Ho2 & Harr2 & Hk2 & Hf2).
  pose proof (array_pop_walletClient (calls σ1) σ1) as Hw2.
  set (σ2 := (array_pop (calls σ1) σ1).2) in *.
  split.
  { destruct (pop σ) as [r σ'] eqn:E. simpl in Hret. rewrite Hret. f_equal.
    change σ' with (r, σ').2. rewrite <- E. apply pop_state. }
  split; [exact Hwf'|].
  split; [by rewrite Hc2|]. split; [by rewrite Ho2|]. split; [by rewrite Hw2|].
  split; [by eapply keeps_records_trans|].
  split; [by rewrite <- Hc1|].
  split.
  { rewrite Hf2; [exact Harr1|]. rewrite Hc1. congruence. }
  intros ->. assert (os = []) as -> by (by destruct os).
  unfold σ2, σ1, array_pop.
  rewrite (array_at_lookup _ _ _ Hos). simpl.
  rewrite (array_at_lookup _ _ _ Hcs). reflexivity.
Qed.

(** X10.  [pop()] takes the last call and the last operation off
    together: it returns the last queued call record ([undefined] on an
    empty ledger, which it leaves exactly as it is), the queued calls
    and the recorded operations both lose their last entry, and the
    ledger stays well-formed. *)
Theorem pop_removes_last σ :
  ledger_wf σ ->
  exists σ',
    pop σ = (Ok (last (array_at (heap σ) (calls σ))), σ')
    /\ ledger_wf σ'
    /\ calls_in (heap σ') (calls σ') = removelast (calls_in (heap σ) (calls σ))
    /\ operations_in (heap σ') (operations σ')
       = removelast (operations_in (heap σ) (operations σ))
    /\ (length_ σ = 0%nat -> σ' = σ).
Proof.
  intros Hwf.
  destruct (pop_spec σ Hwf) as (σ' & Hrun & Hwf' & Hc & Ho & _ & Hk & Hca & Hoa & Hempty).
  exists σ'. split; [exact Hrun|]. split; [exact Hwf'|].
  pose proof (wf_call_elems _ Hwf) as Hce. pose proof (wf_operation_elems _ Hwf) as Hoe.
  split; [|split].
  - unfold calls_in. rewrite Hc, (array_at_lookup _ _ _ Hca).
    rewrite <- removelast_omap_total by exact Hce.
    apply omap_call_at_kept; [exact Hk|].
    destruct (array_at (heap σ) (calls σ)) as [|x l _] using rev_ind; [constructor|].
    rewrite removelast_last. by apply Forall_app in Hce as [Hce _].
  - unfold operations_in. rewrite Ho, (array_at_lookup _ _ _ Hoa).
    rewrite <- removelast_omap_total.
    + apply omap_read_operation_kept; [exact Hk|].
      destruct (array_at (heap σ) (operations σ)) as [|x l _] using rev_ind; [constructor|].
      rewrite removelast_last. by apply Forall_app in Hoe as [Hoe _].
    + eapply Forall_impl; [exact Hoe|]. intros l (op & Hop & _).
      unfold read_operation. rewrite Hop. simpl. eauto.
  - intros Hlen. apply Hempty. unfold length_ in Hlen.
    by destruct (array_at (heap σ) (calls σ)).
Qed.

(** *** A call added, then taken back *)

Lemma append_operations_array type c metadata σ :
  ledger_wf σ ->
  exists lo,
    array_at (heap (append type c metadata σ).2) (operations σ)
    = array_at (heap σ) (operations σ) ++ [lo].
Proof.
  intros Hwf. pose proof Hwf as [Hd [cs Hcs] [os Hos] _ _ _].
  set (h := heap σ).
  set (lc := fresh (dom h)).
  assert (Hlc : h !! lc = None) by apply fresh_not_allocated.
  set (h1 := <[lc := ObjCall c]> h).
  set (h2 := <[calls σ := ObjArray (array_at h1 (calls σ) ++ [lc])]> h1).
  set (lo := fresh (dom h2)).
  assert (Hlo : h2 !! lo = None) by apply fresh_not_allocated.
  assert (Hos2 : h2 !! operations σ = Some (ObjArray os)).
  { assert (lc <> operations σ) by (intros E; rewrite E in Hlc; unfold h in Hlc; congruence).
    unfold h2, h1. rewrite !lookup_insert_ne by done. exact Hos. }
  exists lo.
  unfold append, recordOperation, alloc, push, gets, modify, dateNow,
    mbind, M_bind, mret, M_ret, set_heap, set_ticks. simpl.
  fold h. fold lc. fold h1. fold h2. fold lo.
  assert (Hne : lo <> operations σ) by congruence.
  unfold array_at at 1. rewrite lookup_insert_eq. f_equal.
  unfold array_at. rewrite lookup_insert_ne by exact Hne. rewrite Hos2. unfold h. by rewrite Hos.
Qed.

(** X11.  A call added and then popped leaves no trace in the ledger:
    [pop()] gives back the record that [add] queued, and the queued
    calls, the recorded operations and the total value are what they
    were before the [add]. *)
Theorem add_then_pop target callData value σ :
  ledger_wf σ ->
  exists σ1 lc σ2,
    add target callData value σ = (Ok tt, σ1)
    /\ pop σ1 = (Ok (Some lc), σ2)
    /\ call_at (heap σ2) lc
       = Some {| target := target; value := value; callData := callData |}
    /\ ledger σ2 = ledger σ.
Proof.
  intros Hwf. rewrite add_is_append.
  set (c := {| target := target; value := value; callData := callData |}).
  destruct (append_spec op_custom c None σ Hwf) as (σ1 & Hrun & Happ).
  destruct (append_operations_array op_custom c None σ Hwf) as (lo & Hops).
  rewrite Hrun in Hops. simpl in Hops.
  pose proof (app_wf _ _ _ _ _ Happ) as Hwf1.
  destruct (app_operations_in _ _ _ _ _ Happ) as (lc & Hfree & Hlc & Harr & _).
  destruct (pop_spec σ1 Hwf1) as (σ2 & Hpop & Hwf2 & Hc2 & Ho2 & _ & Hk2 & Hca & Hoa & _).
  rewrite Harr, last_snoc, removelast_last in *.
  rewrite (app_operations _ _ _ _ _ Happ), Hops, removelast_last in Hoa.
  rewrite (app_calls _ _ _ _ _ Happ) in Hca.
  exists σ1, lc, σ2. split; [exact Hrun|]. split; [exact Hpop|].
  split.
  { apply call_at_Some_lookup. apply Hk2; [by apply call_at_Some_lookup|done]. }
  apply same_ledger_reads; [exact Hwf|].
  destruct (wf_calls _ Hwf) as [cs Hcs]. destruct (wf_operations _ Hwf) as [os Hos].
  constructor.
  - by rewrite Hc2, (app_calls _ _ _ _ _ Happ).
  - by rewrite Ho2, (app_operations _ _ _ _ _ Happ).
  - eapply keeps_records_trans; [exact (app_records _ _ _ _ _ Happ)|exact Hk2].
  - rewrite Hca, Hcs. by rewrite (array_at_lookup _ _ _ Hcs).
  - rewrite Hoa, Hos. by rewrite (array_at_lookup _ _ _ Hos).
Qed.

(** *** [clear] *)

(** X12.  [clear()] empties the ledger by giving the builder two new
    arrays: afterwards nothing is queued or recorded and the total value
    is zero, the wallet connection is kept, and no object that existed
    before, the old arrays included, is changed. *)
Theorem clear_empties σ :
  exists σ',
    clear σ = (Ok tt, σ')
    /\ ledger σ' = ([], [], [], [], 0)
    /\ ledger_wf σ'
    /\ walletClient σ' = walletClient σ
    /\ forall l o, heap σ !! l = Some o -> heap σ' !! l = Some o.
Proof.
  exists (clear σ).2.
  set (h := heap σ).
  set (a := fresh (dom h)).
  assert (Ha : h !! a = None) by apply fresh_not_allocated.
  set (h1 := <[a := ObjArray []]> h).
  set (b := fresh (dom h1)).
  assert (Hb : h1 !! b = None) by apply fresh_not_allocated.
  assert (Hab : b <> a).
  { intros E. rewrite E in Hb. unfold h1 in Hb. by rewrite lookup_insert_eq in Hb. }
  assert (Hrun : clear σ
                 = (Ok tt, mkState (<[b := ObjArray []]> h1) a b (walletClient σ)
                             (routerAddress σ) (chainId σ) (debug σ) (ticks σ)))
    by reflexivity.
  rewrite Hrun. simpl. split; [reflexivity|].
  assert (Hla : <[b := ObjArray []]> h1 !! a = Some (ObjArray [])).
  { rewrite lookup_insert_ne by exact Hab. unfold h1. by rewrite lookup_insert_eq. }
  assert (Hlb : <[b := ObjArray []]> h1 !! b = Some (ObjArray []))
    by (by rewrite lookup_insert_eq).
  split; [|split; [apply fresh_arrays_wf|split; [reflexivity|]]].
  - unfold ledger, getTotalValue, calls_in, operations_in. simpl.
    by rewrite (array_at_lookup _ _ _ Hla), (array_at_lookup _ _ _ Hlb).
  - intros l o Hl. fold h in Hl.
    assert (Hl1 : a <> l) by congruence.
    assert (Hl2 : h1 !! l = Some o) by (unfold h1; by rewrite lookup_insert_ne).
    assert (Hl3 : b <> l) by congruence.
    by rewrite lookup_insert_ne.
Qed.

(** *** What the methods leave alone *)

(** An object of the store that is not one of the two arrays of the
    builder. *)
Definition outside (l : loc) (o : Obj) (σ : State) : Prop :=
  heap σ !! l = Some o /\ l <> calls σ /\ l <> operations σ.

(** A method that leaves such an object as it is, whether it returns
    or throws. *)
Definition leaves_alone {A} (m : M A) : Prop :=
  forall l o σ, outside l o σ -> outside l o (m σ).2.

Lemma leaves_alone_ret {A} (a : A) : leaves_alone (mret a).
Proof. by intros l o σ H. Qed.

Lemma leaves_alone_bind {A B} (m : M A) (f : A -> M B) :
  leaves_alone m -> (forall a, leaves_alone (f a)) -> leaves_alone (m ≫= f).
Proof.
  intros Hm Hf l o σ H. specialize (Hm l o σ H). unfold mbind, M_bind.
  destruct (m σ) as [[a|e] σ']; simpl in *; [by apply Hf|exact Hm].
Qed.

Lemma leaves_alone_lift {A} (r : res A) : leaves_alone (lift r).
Proof. by intros l o σ H. Qed.

Lemma leaves_alone_gets {A} (f : State -> A) : leaves_alone (gets f).
Proof. by intros l o σ H. Qed.

Lemma leaves_alone_alloc new : leaves_alone (alloc new).
Proof.
  intros l o σ (Hl & Hc & Ho). unfold alloc, outside. simpl.
  split; [|done].
  pose proof (fresh_not_allocated (heap σ)) as Hf.
  rewrite lookup_insert_ne; [exact Hl|congruence].
Qed.

Lemma leaves_alone_spread arr : leaves_alone (spread arr).
Proof.
  apply leaves_alone_bind; [apply leaves_alone_gets|]. intros. apply leaves_alone_alloc.
Qed.

Lemma leaves_alone_dateNow : leaves_alone dateNow.
Proof. by intros l o σ H. Qed.

Lemma leaves_alone_set_walletClient w : leaves_alone (modify (set_walletClient w)).
Proof. by intros l o σ H. Qed.

Lemma leaves_alone_append type c metadata : leaves_alone (append type c metadata).
Proof.
  intros l o σ (Hl & Hc & Ho).
  set (h := heap σ) in *.
  set (lc := fresh (dom h)).
  assert (Hlc : h !! lc = None) by apply fresh_not_allocated.
  assert (Hlc' : lc <> l) by congruence.
  set (h1 := <[lc := ObjCall c]> h).
  set (h2 := <[calls σ := ObjArray (array_at h1 (calls σ) ++ [lc])]> h1).
  assert (Hl2 : h2 !! l = Some o).
  { unfold h2, h1. by rewrite !lookup_insert_ne. }
  set (lo := fresh (dom h2)).
  assert (Hlo : h2 !! lo = None) by apply fresh_not_allocated.
  assert (Hlo' : lo <> l) by congruence.
  unfold append, recordOperation, alloc, push, gets, modify, dateNow,
    mbind, M_bind, mret, M_ret, set_heap, set_ticks, outside. simpl.
  fold h. fold lc. fold h1. fold h2. fold lo.
  split; [|done]. by rewrite !lookup_insert_ne.
Qed.

Lemma leaves_alone_addCall target abi functionName args value :
  leaves_alone (addCall target abi functionName args value).
Proof.
  apply leaves_alone_bind; [apply leaves_alone_lift|]. intros.
  rewrite add_is_append. apply leaves_alone_append.
Qed.

Lemma leaves_alone_pushApprovalCalls approvalCalls metadata :
  leaves_alone (pushApprovalCalls approvalCalls metadata).
Proof.
  induction approvalCalls as [|c rest IH]; [apply leaves_alone_ret|].
  intros l o σ H. rewrite pushApprovalCalls_cons.
  revert l o σ H. apply leaves_alone_bind; [apply leaves_alone_append|]. intros _. exact IH.
Qed.

Lemma leaves_alone_multiTransfer token transfers :
  leaves_alone (multiTransfer token transfers).
Proof.
  induction transfers as [|[to amount] rest IH]; [apply leaves_alone_ret|].
  cbn [multiTransfer]. apply leaves_alone_bind; [apply leaves_alone_addCall|].
  intros _. exact IH.
Qed.

Lemma leaves_alone_deadlineOf params : leaves_alone (deadlineOf params).
Proof.
  unfold deadlineOf. destruct (swap_deadline params); [apply leaves_alone_ret|].
  apply leaves_alone_bind; [apply leaves_alone_dateNow|]. intros. apply leaves_alone_ret.
Qed.

Lemma leaves_alone_kyberSwap params sender : leaves_alone (kyberSwap params sender).
Proof.
  repeat (apply leaves_alone_bind; [apply leaves_alone_lift|]; intros).
  rewrite add_is_append. apply leaves_alone_append.
Qed.

Lemma leaves_alone_getState : leaves_alone getState.
Proof.
  unfold getState.
  repeat first [ apply leaves_alone_ret | apply leaves_alone_gets | apply leaves_alone_spread
               | apply leaves_alone_bind; [|intros] ].
Qed.

Lemma array_pop_outside arr l o σ :
  outside l o σ -> arr <> l -> outside l o (array_pop arr σ).2.
Proof.
  intros (Hl & Hc & Ho) Harr. unfold array_pop, outside.
  destruct (last (array_at (heap σ) arr)); simpl; [|done].
  split; [|done]. by rewrite lookup_insert_ne.
Qed.

Lemma array_pop_fields arr σ :
  calls (array_pop arr σ).2 = calls σ /\ operations (array_pop arr σ).2 = operations σ.
Proof. unfold array_pop. by destruct (last _). Qed.

Lemma leaves_alone_pop : leaves_alone pop.
Proof.
  intros l o σ H. rewrite pop_state.
  pose proof H as (_ & Hc & Ho).
  destruct (array_pop_fields (operations σ) σ) as [Hc1 _].
  apply array_pop_outside; [apply array_pop_outside; [exact H|congruence]|].
  rewrite Hc1. congruence.
Qed.

Lemma leaves_alone_clear : leaves_alone clear.
Proof.
  intros l o σ (Hl & _ & _).
  set (h := heap σ) in *.
  set (a := fresh (dom h)).
  assert (Ha : h !! a = None) by apply fresh_not_allocated.
  assert (Ha' : a <> l) by congruence.
  set (h1 := <[a := ObjArray []]> h).
  assert (Hl1 : h1 !! l = Some o) by (unfold h1; by rewrite lookup_insert_ne).
  set (b := fresh (dom h1)).
  assert (Hb : h1 !! b = None) by apply fresh_not_allocated.
  assert (Hb' : b <> l) by congruence.
  change (outside l o (mkState (<[b := ObjArray []]> h1) a b (walletClient σ)
                         (routerAddress σ) (chainId σ) (debug σ) (ticks σ))).
  unfold outside. simpl. by rewrite lookup_insert_ne.
Qed.

Lemma leaves_alone_add target callData value : leaves_alone (add target callData value).
Proof. rewrite add_is_append. apply leaves_alone_append. Qed.

Lemma leaves_alone_sendETH to value : leaves_alone (sendETH to value).
Proof. rewrite sendETH_is_append. apply leaves_alone_append. Qed.

Lemma leaves_alone_swapExactTokensForTokens params :
  leaves_alone (swapExactTokensForTokens params).
Proof.
  unfold swapExactTokensForTokens.
  apply leaves_alone_bind; [apply leaves_alone_deadlineOf|]. intros.
  apply leaves_alone_addCall.
Qed.

Lemma leaves_alone_swapExactETHForTokens params :
  leaves_alone (swapExactETHForTokens params).
Proof.
  unfold swapExactETHForTokens.
  apply leaves_alone_bind; [apply leaves_alone_deadlineOf|]. intros.
  apply leaves_alone_addCall.
Qed.

Lemma leaves_alone_swapExactTokensForETH params :
  leaves_alone (swapExactTokensForETH params).
Proof.
  unfold swapExactTokensForETH.
  apply leaves_alone_bind; [apply leaves_alone_deadlineOf|]. intros.
  apply leaves_alone_addCall.
Qed.

Lemma leaves_alone_approveAndSwap params : leaves_alone (approveAndSwap params).
Proof.
  unfold approveAndSwap, approve.
  apply leaves_alone_bind; [apply leaves_alone_addCall|]. intros.
  apply leaves_alone_swapExactTokensForTokens.
Qed.

Lemma leaves_alone_invoke i l o σ : outside l o σ -> outside l o (invoke i σ).
Proof.
  intros H. destruct i; cbn [invoke].
  - by apply leaves_alone_add.
  - by apply leaves_alone_addCall.
  - by apply leaves_alone_sendETH.
  - unfold approve. by apply leaves_alone_addCall.
  - unfold safeApprove. by apply leaves_alone_pushApprovalCalls.
  - unfold transfer. by apply leaves_alone_addCall.
  - unfold transferFrom. by apply leaves_alone_addCall.
  - by apply leaves_alone_multiTransfer.
  - unfold transferNFT. by apply leaves_alone_addCall.
  - unfold approveNFT. by apply leaves_alone_addCall.
  - unfold setApprovalForAll. by apply leaves_alone_addCall.
  - unfold wrapETH. by apply leaves_alone_addCall.
  - unfold unwrapWETH. by apply leaves_alone_addCall.
  - by apply leaves_alone_swapExactTokensForTokens.
  - by apply leaves_alone_swapExactETHForTokens.
  - by apply leaves_alone_swapExactTokensForETH.
  - by apply leaves_alone_approveAndSwap.
  - by apply leaves_alone_kyberSwap.
  - unfold getCalls. by apply (leaves_alone_bind (gets calls) spread);
      [apply leaves_alone_gets|intros; apply leaves_alone_spread|].
  - unfold getOperations. by apply (leaves_alone_bind (gets operations) spread);
      [apply leaves_alone_gets|intros; apply leaves_alone_spread|].
  - by apply leaves_alone_getState.
  - by apply leaves_alone_clear.
  - by apply leaves_alone_pop.
  - unfold connect. by apply leaves_alone_set_walletClient.
  - unfold disconnect. by apply leaves_alone_set_walletClient.
Qed.

Lemma invoke_all_outside invocations l o σ :
  outside l o σ -> outside l o (invoke_all invocations σ).
Proof.
  revert σ. induction invocations as [|i rest IH]; intros σ H; [exact H|].
  simpl. apply IH. by apply leaves_alone_invoke.
Qed.

(** X13.  The builder writes to its own two arrays and to nothing else:
    whatever methods are called on it, in any number and whether they
    return or throw, every other object of the store (a call or
    operation record, an array handed out by [getCalls], [getOperations]
    or [getState], an object of another builder) stays exactly as it
    was. *)
Theorem builder_writes_only_its_arrays invocations σ l o :
  heap σ !! l = Some o -> l <> calls σ -> l <> operations σ ->
  heap (invoke_all invocations σ) !! l = Some o.
Proof.
  intros Hl Hc Ho. by destruct (invoke_all_outside invocations l o σ) as (H & _).
Qed.

Lemma invoke_all_keeps_records invocations σ :
  ledger_wf σ -> keeps_records (heap σ) (heap (invoke_all invocations σ)).
Proof.
  intros Hwf l o Hl Hna.
  destruct (wf_calls _ Hwf) as [cs Hcs]. destruct (wf_operations _ Hwf) as [os Hos].
  apply (invoke_all_outside invocations l o σ). split; [exact Hl|].
  split; intros ->; [rewrite Hcs in Hl|rewrite Hos in Hl];
    injection Hl as <-; by eapply Hna.
Qed.

(** *** A snapshot and the calls that come after it *)

Lemma getState_allocates σ snap σ1 :
  ledger_wf σ ->
  getState σ = (Ok snap, σ1) ->
  outside (state_calls snap) (ObjArray (array_at (heap σ) (calls σ))) σ1
  /\ outside (state_operations snap) (ObjArray (array_at (heap σ) (operations σ))) σ1.
Proof.
  intros Hwf Hget.
  destruct (wf_calls _ Hwf) as [cs Hcs]. destruct (wf_operations _ Hwf) as [os Hos].
  set (h := heap σ) in *.
  set (a := fresh (dom h)).
  assert (Ha : h !! a = None) by apply fresh_not_allocated.
  set (h1 := <[a := ObjArray (array_at h (calls σ))]> h).
  set (b := fresh (dom h1)).
  assert (Hb : h1 !! b = None) by apply fresh_not_allocated.
  assert (Hab : b <> a).
  { intros E. rewrite E in Hb. unfold h1 in Hb. by rewrite lookup_insert_eq in Hb. }
  assert (Hbh : h !! b = None).
  { unfold h1 in Hb. by rewrite lookup_insert_ne in Hb. }
  set (h2 := <[b := ObjArray (array_at h1 (operations σ))]> h1).
  assert (Hrun : getState σ
                 = (Ok {| state_calls := a; state_operations := b;
                          state_totalValue := getTotalValue (set_heap h2 σ);
                          state_chainId := chainId σ |}, set_heap h2 σ))
    by reflexivity.
  rewrite Hrun in Hget. injection Hget as <- <-. simpl.
  assert (Hoa : operations σ <> a) by congruence.
  unfold outside. simpl. repeat split; try congruence.
  - unfold h2. rewrite lookup_insert_ne by congruence. unfold h1. by rewrite lookup_insert_eq.
  - unfold h2. rewrite lookup_insert_eq. do 2 f_equal.
    unfold array_at, h1. by rewrite lookup_insert_ne.
Qed.

(** X14.  A snapshot is a picture of the ledger at the time of
    [getState()]: whatever methods are called on the builder afterwards
    ([add], [pop], [clear], ...), the snapshot still lists the calls and
    the operations that were queued when it was taken, and its total
    value is the total of these calls. *)
Theorem snapshot_survives_later_calls σ snap σ1 invocations :
  ledger_wf σ ->
  getState σ = (Ok snap, σ1) ->
  let σ2 := invoke_all invocations σ1 in
  calls_in (heap σ2) (state_calls snap) = calls_in (heap σ) (calls σ)
  /\ operations_in (heap σ2) (state_operations snap)
     = operations_in (heap σ) (operations σ)
  /\ state_totalValue snap
     = foldl (fun sum c => sum + value c) 0 (calls_in (heap σ2) (state_calls snap)).
Proof.
  intros Hwf Hget σ2.
  destruct (getState_allocates σ snap σ1 Hwf Hget) as [Hc Ho].
  destruct (getState_spec σ Hwf) as (snap' & σ1' & Hget' & Hsame & _ & _ & _ & _ & Htotal & _).
  rewrite Hget in Hget'. injection Hget' as <- <-.
  pose proof (keeps_getState σ Hwf) as Hwf1. rewrite Hget in Hwf1. simpl in Hwf1.
  assert (Hk : keeps_records (heap σ) (heap σ2)).
  { eapply keeps_records_trans; [exact (same_records _ _ Hsame)|].
    by apply invoke_all_keeps_records. }
  destruct (invoke_all_outside invocations _ _ _ Hc) as (Hc2 & _).
  destruct (invoke_all_outside invocations _ _ _ Ho) as (Ho2 & _).
  fold σ2 in Hc2, Ho2.
  assert (Hcalls : calls_in (heap σ2) (state_calls snap) = calls_in (heap σ) (calls σ)).
  { apply calls_in_kept; [exact Hk|exact (wf_call_elems _ Hwf)|].
    by rewrite (array_at_lookup _ _ _ Hc2). }
  split; [exact Hcalls|]. split.
  - apply operations_in_kept; [exact Hk|exact (wf_operation_elems _ Hwf)|].
    by rewrite (array_at_lookup _ _ _ Ho2).
  - rewrite Hcalls. exact Htotal.
Qed.

(** *** [multiTransfer] *)

(** The call that [transfer(token, to, amount)] queues when its
    arguments encode. *)
Definition transferCall (token : Address) (t : Address * Z) (c : MegaCall) : Prop :=
  encodeFunctionData ERC20_ABI "transfer" [ArgAddress t.1; ArgUint t.2] = Ok (callData c)
  /\ target c = token /\ value c = 0.

Lemma multiTransfer_queues token (queued_ : list (Address * Z)) (cs : list MegaCall) rest :
  Forall2 (transferCall token) queued_ cs ->
  forall σ, ledger_wf σ ->
  exists σ1,
    ledger_wf σ1
    /\ calls_in (heap σ1) (calls σ1) = calls_in (heap σ) (calls σ) ++ cs
    /\ multiTransfer token (queued_ ++ rest) σ = multiTransfer token rest σ1.
Proof.
  induction 1 as [|[to amount] c queued_ cs (Henc & Ht & Hv) _ IH]; intros σ Hwf.
  - exists σ. by rewrite app_nil_r.
  - simpl in Henc.
    destruct (append_spec op_custom (mkCall token 0 (callData c)) None σ Hwf)
      as (σ' & Hrun & Happ).
    destruct (IH σ' (app_wf _ _ _ _ _ Happ)) as (σ1 & Hwf1 & Hcalls & Hrest).
    exists σ1. split; [exact Hwf1|]. split.
    + rewrite Hcalls, (app_calls_in _ _ _ _ _ Happ), <- app_assoc. simpl.
      destruct c as [t v d]. simpl in *. by subst.
    + rewrite <- Hrest. cbn [app multiTransfer]. unfold transfer, mbind, M_bind at 1.
      rewrite (addCall_returns _ _ _ _ _ _ _ Henc). simpl default. by rewrite Hrun.
Qed.

(** X15.  When every transfer encodes, [multiTransfer] returns and
    queues one call per transfer, in the order of the list, each to the
    token contract and with no value attached. *)
Theorem multiTransfer_queues_all token transfers (cs : list MegaCall) σ :
  ledger_wf σ ->
  Forall2 (transferCall token) transfers cs ->
  exists σ',
    multiTransfer token transfers σ = (Ok tt, σ')
    /\ ledger_wf σ'
    /\ calls_in (heap σ') (calls σ') = calls_in (heap σ) (calls σ) ++ cs.
Proof.
  intros Hwf Hall.
  destruct (multiTransfer_queues token transfers cs [] Hall σ Hwf) as (σ1 & Hwf1 & Hcalls & Hrun).
  rewrite app_nil_r in Hrun. exists σ1. by rewrite Hrun.
Qed.

(** X16.  [multiTransfer] is not all-or-nothing: when a transfer fails
    to encode, the error is passed on, the transfers before it stay
    queued, and the failing transfer and those after it are not
    queued. *)
Theorem multiTransfer_stops_at_failure token queued_ (cs : list MegaCall) bad rest e σ :
  ledger_wf σ ->
  Forall2 (transferCall token) queued_ cs ->
  encodeFunctionData ERC20_ABI "transfer" [ArgAddress bad.1; ArgUint bad.2] = Throw e ->
  exists σ',
    multiTransfer token (queued_ ++ bad :: rest) σ = (Throw e, σ')
    /\ ledger_wf σ'
    /\ calls_in (heap σ') (calls σ') = calls_in (heap σ) (calls σ) ++ cs.
Proof.
  intros Hwf Hall Hbad.
  destruct (multiTransfer_queues token queued_ cs (bad :: rest) Hall σ Hwf)
    as (σ1 & Hwf1 & Hcalls & Hrun).
  exists σ1. rewrite Hrun. split; [|by split].
  destruct bad as [to amount]. cbn [multiTransfer]. unfold transfer, mbind, M_bind at 1.
  by rewrite (addCall_throws _ _ _ _ _ _ _ Hbad).
Qed.

(** *** [approveAndSwap] *)

(** The deadline [swapExactTokensForTokens] encodes when the clock has
    been read [n] times: the one given, or five minutes from now. *)
Definition deadlineAt (n : nat) (params : SwapParams) : Z :=
  match swap_deadline params with
  | Some d => d
  | None => Date_now n / 1000 + 5 * 60
  end.

Lemma deadlineOf_run params σ :
  exists σ', deadlineOf params σ = (Ok (deadlineAt (ticks σ) params), σ')
             /\ heap σ' = heap σ /\ calls σ' = calls σ /\ operations σ' = operations σ.
Proof.
  unfold deadlineOf, deadlineAt. destruct (swap_deadline params); eexists; by split.
Qed.

Lemma deadlineOf_wf params σ : ledger_wf σ -> ledger_wf (deadlineOf params σ).2.
Proof. apply keeps_deadlineOf. Qed.

(** X17.  [approveAndSwap] queues the approval before it encodes the
    swap.  When the approval does not encode, nothing is queued; when
    the swap does not encode, the approval is already queued and stays;
    otherwise the approval and the swap are queued in this order, with
    no value attached.  The approval has recorded an operation, so the
    default deadline is taken at the second reading of the clock. *)
Theorem approveAndSwap_queues_approval_first (params : ApproveAndSwapParams) σ :
  ledger_wf σ ->
  let swap := aas_swap params in
  match encodeFunctionData ERC20_ABI "approve"
          [ArgAddress (swap_router swap); ArgUint (swap_amountIn swap)] with
  | Throw e => approveAndSwap params σ = (Throw e, σ)
  | Ok approveData =>
      let approval := {| target := aas_token params; value := 0; callData := approveData |} in
      exists σ',
        ledger_wf σ'
        /\ match encodeFunctionData UNISWAP_V2_ROUTER_ABI "swapExactTokensForTokens"
                   [ArgUint (swap_amountIn swap); ArgUint (swap_amountOutMin swap);
                    ArgAddressArray (swap_path swap); ArgAddress (swap_to swap);
                    ArgUint (deadlineAt (S (ticks σ)) swap)] with
           | Throw e =>
               approveAndSwap params σ = (Throw e, σ')
               /\ calls_in (heap σ') (calls σ') = calls_in (heap σ) (calls σ) ++ [approval]
           | Ok swapData =>
               approveAndSwap params σ = (Ok tt, σ')
               /\ calls_in (heap σ') (calls σ')
                  = calls_in (heap σ) (calls σ)
                    ++ [approval;
                        {| target := swap_router swap; value := 0; callData := swapData |}]
           end
  end.
Proof.
  intros Hwf swap. unfold approveAndSwap, approve. fold swap.
  destruct (encodeFunctionData ERC20_ABI "approve" _) as [approveData|e] eqn:EA.
  2: { unfold mbind, M_bind at 1. by rewrite (addCall_throws _ _ _ _ _ _ _ EA). }
  set (approval := {| target := aas_token params; value := 0; callData := approveData |}).
  destruct (append_spec op_custom approval None σ Hwf) as (σ1 & Hrun1 & Happ1).
  pose proof (app_wf _ _ _ _ _ Happ1) as Hwf1.
  assert (Hticks : ticks σ1 = S (ticks σ)).
  { pose proof (append_ticks op_custom approval None σ) as Ht. by rewrite Hrun1 in Ht. }
  destruct (deadlineOf_run swap σ1) as (σ2 & Hrun2 & Hh2 & Hc2 & Ho2).
  pose proof (deadlineOf_wf swap σ1 Hwf1) as Hwf2. rewrite Hrun2 in Hwf2. simpl in Hwf2.
  rewrite Hticks in Hrun2.
  assert (Hstart : forall r,
            (swapExactTokensForTokens swap σ1 = r) ->
            (addCall (aas_token params) ERC20_ABI "approve"
               [ArgAddress (swap_router swap); ArgUint (swap_amountIn swap)] None
             ≫= fun _ => swapExactTokensForTokens swap) σ = r).
  { intros r Hr. unfold mbind, M_bind at 1.
    rewrite (addCall_returns _ _ _ _ _ _ _ EA). simpl default. fold approval.
    by rewrite Hrun1. }
  destruct (encodeFunctionData UNISWAP_V2_ROUTER_ABI "swapExactTokensForTokens" _)
    as [swapData|e] eqn:ES.
  - destruct (append_spec op_custom (mkCall (swap_router swap) 0 swapData) None σ2 Hwf2)
      as (σ3 & Hrun3 & Happ3).
    exists σ3. split; [exact (app_wf _ _ _ _ _ Happ3)|]. split.
    + apply Hstart. unfold swapExactTokensForTokens, mbind, M_bind at 1.
      rewrite Hrun2. rewrite (addCall_returns _ _ _ _ _ _ _ ES). exact Hrun3.
    + rewrite (app_calls_in _ _ _ _ _ Happ3), Hh2, Hc2, (app_calls_in _ _ _ _ _ Happ1).
      by rewrite <- app_assoc.
  - exists σ2. split; [exact Hwf2|]. split.
    + apply Hstart. unfold swapExactTokensForTokens, mbind, M_bind at 1.
      rewrite Hrun2. by rewrite (addCall_throws _ _ _ _ _ _ _ ES).
    + by rewrite Hh2, Hc2, (app_calls_in _ _ _ _ _ Happ1).
Qed.

End LedgerMethods.

(* ===================================================================== *)
(** * builder.ts: what execution sends to the chain                       *)
(* ===================================================================== *)

Section Submission.
Context {viem : Viem} {float : Float64}.
Import Orchestrator Accessors.
Local Open Scope list_scope.

(** A request that signs a transaction or hands one to the node. *)
Definition is_submission (ev : Event) : bool :=
  match ev with
  | requested r =>
      match r with
      | signTransaction _ => true
      | request _ _ => true
      | _ => false
      end
  | performed _ => false
  end.

Definition submissions (trace : list Event) : list Event :=
  filter (fun ev => is_submission ev = true) trace.

(** Running a sequence: the first part, then the rest from where the
    first part left the world. *)
Lemma run_bind {W A B} (client : ChainClient W) (p : Prog A) (f : A -> Prog B) w :
  run client (p ≫= f) w
  = let '(o, t, w1) := run client p w in
    match o with
    | Returned a => let '(o2, t2, w2) := run client (f a) w1 in (o2, t ++ t2, w2)
    | Threw e => (Threw e, t, w1)
    | CutShort => (CutShort, t, w1)
    end.
Proof.
  unfold mbind, Prog_bind. revert w.
  induction p as [a|e| |X r k IH|X l k IH]; intros w; cbn [bind run].
  - by destruct (run client (f a) w) as [[o2 t2] w2].
  - reflexivity.
  - reflexivity.
  - destruct (answer client r w) as [x w1]. rewrite IH.
    destruct (run client (k x) w1) as [[[a|e|] t] w2]; [|reflexivity..].
    by destruct (run client (f a) w2) as [[o2 t2] w3].
  - destruct (effect client l w) as [x w1]. rewrite IH.
    destruct (run client (k x) w1) as [[[a|e|] t] w2]; [|reflexivity..].
    by destruct (run client (f a) w2) as [[o2 t2] w3].
Qed.

Lemma run_lift {W A} (client : ChainClient W) (r : res A) w :
  run client (lift r) w
  = (match r with Ok a => Returned a | Throw e => Threw e end, [], w).
Proof. by destruct r. Qed.

Lemma run_log {W} (client : ChainClient W) σ message data w :
  exists t w',
    run client (log σ message data) w = (Returned tt, t, w') /\ submissions t = [].
Proof.
  unfold log. destruct (Builder.debug σ); [|by exists [], w].
  cbn [perform run]. destruct (effect client (console_log _ _) w) as [[] w1].
  by exists [performed (console_log ("[MegaFlow] " ++ message) data)], w1.
Qed.

Lemma run_calculateRequiredETH {W} (client : ChainClient W) σ w :
  exists o t w',
    run client (calculateRequiredETH σ) w = (o, t, w')
    /\ submissions t = [] /\ o <> CutShort.
Proof.
  unfold calculateRequiredETH.
  destruct (Builder.length_ σ =? 0)%nat; [by exists (Returned 0), [], w|].
  cbn [await run]. destruct (answer client (readContract _ _ _) w) as [[v|e] w1];
    eexists _, _, _; (split; [reflexivity|split; [reflexivity|discriminate]]).
Qed.

Lemma run_await {W X} (client : ChainClient W) (r : Request X) w :
  run client (await r) w
  = let '(x, w1) := answer client r w in
    (match x with Ok v => Returned v | Throw e => Threw e end, [requested r], w1).
Proof. cbn [await run]. by destruct (answer client r w) as [[v|e] w1]. Qed.

Lemma run_perform {W X} (client : ChainClient W) (l : Local X) w :
  run client (perform l) w
  = let '(x, w1) := effect client l w in (Returned x, [performed l], w1).
Proof. cbn [perform run]. by destruct (effect client l w) as [x w1]. Qed.

Lemma submissions_app t1 t2 : submissions (t1 ++ t2) = submissions t1 ++ submissions t2.
Proof. apply filter_app. Qed.

(** *** The checks before execution *)

Definition walletNotConnectedError : Thrown :=
  Utils.MegaFlowError "Wallet not connected. Call connect() or connectWithAccount() first."
    WALLET_NOT_CONNECTED.

Definition noAccountError : Thrown :=
  Utils.MegaFlowError "Wallet has no account attached." NO_ACCOUNT.

(** What the three assertions in front of an execution method answer. *)
Definition refusal (σ : Builder.State) : option Thrown :=
  if Builder.isEmpty σ then Some emptyBatchError
  else match Builder.walletClient σ with
       | None => Some walletNotConnectedError
       | Some w => if isConnected σ then None else Some noAccountError
       end.

Lemma guards_run {W A} (client : ChainClient W) σ (k : Account -> Prog A) w :
  run client
    (lift (Utils.assertCallsNotEmpty (Builder.array_at (Builder.heap σ) (Builder.calls σ)));;
     lift (assertWalletConnected (Builder.walletClient σ));;
     account ← lift (assertAccount (Builder.walletClient σ));
     k account) w
  = match refusal σ with
    | Some e => (Threw e, [], w)
    | None =>
        match Builder.walletClient σ ≫= wallet_account with
        | Some account => run client (k account) w
        | None => (Threw noAccountError, [], w)
        end
    end.
Proof.
  unfold refusal, Builder.isEmpty, Builder.length_, Utils.assertCallsNotEmpty, isConnected.
  destruct (length _ =? 0)%nat; [reflexivity|].
  unfold assertWalletConnected, assertAccount.
  destruct (Builder.walletClient σ) as [wc|]; [|reflexivity]. simpl.
  by destruct (wallet_account wc).
Qed.

(** X18.  Both synchronous execution methods check before they do
    anything: an empty batch is refused with [EMPTY_BATCH], whether or
    not a wallet is connected; then a missing wallet with
    [WALLET_NOT_CONNECTED]; then a wallet without account with
    [NO_ACCOUNT].  A refusal reaches neither the chain client nor the
    clock nor the console, and the checks pass exactly when the batch is
    not empty and [isConnected] is true. *)
Theorem execution_refused_before_any_request W (client : ChainClient W) σ options w :
  match refusal σ with
  | Some e =>
      run client (executeSync σ options) w = (Threw e, [], w)
      /\ run client (executeRealtime σ options) w = (Threw e, [], w)
      /\ (Builder.isEmpty σ = true \/ isConnected σ = false)
      /\ (e = emptyBatchError <-> Builder.isEmpty σ = true)
      /\ (e = walletNotConnectedError
          <-> Builder.isEmpty σ = false /\ Builder.walletClient σ = None)
  | None => Builder.isEmpty σ = false /\ isConnected σ = true
  end.
Proof.
  unfold executeSync, executeRealtime. rewrite !guards_run.
  unfold refusal, isConnected, emptyBatchError, walletNotConnectedError, noAccountError,
    Utils.MegaFlowError.
  destruct (Builder.isEmpty σ).
  { split; [reflexivity|]. split; [reflexivity|]. split; [by left|].
    split; [done|]. split; [discriminate|by intros [? _]]. }
  destruct (Builder.walletClient σ) as [wc|]; simpl.
  - destruct (wallet_account wc); [by split|].
    split; [reflexivity|]. split; [reflexivity|]. split; [by right|].
    split; (split; [discriminate|]); [discriminate|by intros [_ ?]].
  - split; [reflexivity|]. split; [reflexivity|]. split; [by right|].
    split; [split; discriminate|done].
Qed.

(** *** A dry run that fails *)

(** A chain client that rejects every dry run. *)
Definition rejects_dry_run {W} (client : ChainClient W) : Prop :=
  forall call w, exists e w', answer client (simulateContract call) w = (Throw e, w').

(** The part of [executeSync] after the wallet checks. *)
Definition executeSync_checked (σ : Builder.State) (options : ExecuteOptions)
    (account : Account) : Prog MegaFlowSyncResult :=
  startTime ← perform performance_now;
  log σ "Executing batch (sync)" [("callCount", toString (callCount σ))];;
  requiredETH ← calculateRequiredETH σ;
  simulated ← await (simulateContract
    {| cc_address := Builder.routerAddress σ; cc_functionName := "executeBatch";
       cc_args := queued σ; cc_value := requiredETH;
       cc_account := Some account; cc_gas := gasLimit options |});
  let request_ := sim_request simulated in
  signedTx ← await (signTransaction
    {| cc_address := cc_address request_; cc_functionName := cc_functionName request_;
       cc_args := cc_args request_; cc_value := cc_value request_;
       cc_account := Some account; cc_gas := cc_gas request_ |});
  receipt ← await (request "eth_sendRawTransactionSync" [signedTx]);
  now ← perform performance_now;
  let executionTimeMs := Double_sub now startTime in
  log σ "Sync execution completed"
    [("executionTimeMs", Double_toFixed 2 executionTimeMs)];;
  results ← lift (Utils.parseCallResults receipt (callCount σ) None);
  mret {| sync_receipt := receipt; sync_results := results;
          sync_gasUsed := gasUsed receipt; sync_executionTimeMs := executionTimeMs |}.

Lemma executeSync_run {W} (client : ChainClient W) σ options w :
  run client (executeSync σ options) w
  = match refusal σ with
    | Some e => (Threw e, [], w)
    | None =>
        match Builder.walletClient σ ≫= wallet_account with
        | Some account => run client (executeSync_checked σ options account) w
        | None => (Threw noAccountError, [], w)
        end
    end.
Proof. unfold executeSync. by rewrite guards_run. Qed.

Lemma submissions_skip ev t : is_submission ev = false -> submissions (ev :: t) = submissions t.
Proof. intros H. unfold submissions. rewrite filter_cons, decide_False; [done|]. by rewrite H. Qed.

Lemma submissions_keep ev t :
  is_submission ev = true -> submissions (ev :: t) = ev :: submissions t.
Proof. intros H. unfold submissions. by rewrite filter_cons, decide_True. Qed.

Lemma submissions_nil : submissions [] = [].
Proof. reflexivity. Qed.

Ltac count_submissions :=
  repeat first [ rewrite submissions_app
               | rewrite submissions_skip by reflexivity
               | rewrite submissions_keep by reflexivity ];
  rewrite ?submissions_nil.

Lemma dry_run_rejected_checked {W} (client : ChainClient W) σ options account w :
  rejects_dry_run client ->
  exists e t w',
    run client (executeSync_checked σ options account) w = (Threw e, t, w')
    /\ submissions t = [].
Proof.
  intros Hrej. unfold executeSync_checked.
  rewrite run_bind, run_perform.
  destruct (effect client performance_now w) as [startTime w1].
  rewrite run_bind.
  destruct (run_log client σ "Executing batch (sync)"
              [("callCount", toString (callCount σ))] w1) as (t1 & w2 & -> & Ht1).
  rewrite run_bind.
  destruct (run_calculateRequiredETH client σ w2) as (o & t2 & w3 & -> & Ht2 & Hcut).
  destruct o as [requiredETH|e|]; [| |done].
  2: { exists e. eexists _, _. split; [reflexivity|].
       count_submissions. by rewrite Ht1, Ht2. }
  rewrite run_bind, run_await.
  match goal with |- context [answer client (simulateContract ?call) w3] =>
    destruct (Hrej call w3) as (e & w4 & ->) end.
  exists e. eexists _, _. split; [reflexivity|].
  count_submissions. by rewrite Ht1, Ht2.
Qed.

(** X19.  Nothing is signed or sent before the dry run has passed:
    against a chain client that rejects the dry run, [executeSync]
    throws, and its requests contain neither a signature request nor a
    raw transaction. *)
Theorem executeSync_signs_after_dry_run W (client : ChainClient W) σ options w :
  rejects_dry_run client ->
  exists e t w',
    run client (executeSync σ options) w = (Threw e, t, w')
    /\ submissions t = [].
Proof.
  intros Hrej. rewrite executeSync_run.
  destruct (refusal σ) as [e|]; [by exists e, [], w|].
  destruct (Builder.walletClient σ ≫= wallet_account) as [account|];
    [|by exists noAccountError, [], w].
  by apply dry_run_rejected_checked.
Qed.

Lemma resultsFromLogs_length receipt (n : nat) results :
  Utils.resultsFromLogs receipt (Z.of_nat n) = Ok results -> length results = n.
Proof.
  unfold Utils.resultsFromLogs, Array_from_length.
  destruct (2 ^ 32 <=? Z.of_nat n); [by destruct (0 <? size _)%nat|].
  destruct (0 <? size _)%nat; intros [= <-];
    rewrite length_fmap, length_seq; lia.
Qed.

Lemma executeSync_checked_returned {W} (client : ChainClient W) σ options account w r t w' :
  run client (executeSync_checked σ options account) w = (Returned r, t, w') ->
  length (sync_results r) = Builder.length_ σ
  /\ sync_gasUsed r = gasUsed (sync_receipt r)
  /\ exists call signedTx w1 w2,
       submissions t
       = [requested (signTransaction call);
          requested (request "eth_sendRawTransactionSync" [signedTx])]
       /\ answer client (signTransaction call) w1 = (Ok signedTx, w2)
       /\ (answer client (request "eth_sendRawTransactionSync" [signedTx]) w2).1
          = Ok (sync_receipt r).
Proof.
  unfold executeSync_checked.
  rewrite run_bind, run_perform.
  destruct (effect client performance_now w) as [startTime w1].
  rewrite run_bind.
  destruct (run_log client σ "Executing batch (sync)"
              [("callCount", toString (callCount σ))] w1) as (t1 & w2 & -> & Ht1).
  rewrite run_bind.
  destruct (run_calculateRequiredETH client σ w2) as (o & t2 & w3 & -> & Ht2 & Hcut).
  destruct o as [requiredETH|e|]; [|discriminate|done].
  rewrite run_bind, run_await.
  destruct (answer client (simulateContract _) w3) as [[simulated|e] w4]; [|discriminate].
  rewrite run_bind, run_await.
  destruct (answer client (signTransaction _) w4) as [[signedTx|e] w5] eqn:Hsign;
    [|discriminate].
  rewrite run_bind, run_await.
  destruct (answer client (request _ _) w5) as [[receipt|e] w6] eqn:Hsend; [|discriminate].
  rewrite run_bind, run_perform.
  destruct (effect client performance_now w6) as [now w7].
  rewrite run_bind.
  destruct (run_log client σ "Sync execution completed"
              [("executionTimeMs", Double_toFixed 2 (Double_sub now startTime))] w7)
    as (t3 & w8 & -> & Ht3).
  rewrite run_bind, run_lift.
  destruct (Utils.parseCallResults receipt (callCount σ) None) as [results|e] eqn:Hparse;
    [|discriminate].
  cbn [mret Prog_ret run]. intros [= <- <- <-]. cbn [sync_results sync_gasUsed sync_receipt].
  split; [by apply (resultsFromLogs_length receipt)|]. split; [reflexivity|].
  eexists _, signedTx, w4, w5. split; [|split; [exact Hsign|by rewrite Hsend]].
  count_submissions. by rewrite Ht1, Ht2, Ht3.
Qed.

(** X20.  When [executeSync] returns, exactly one transaction has been
    signed and exactly one raw transaction sent, the signed one, with
    [eth_sendRawTransactionSync]; the result carries the receipt the
    node answered with, the gas used that this receipt reports, and one
    call result per queued call.  It returns only for a non-empty batch
    and a connected wallet. *)
Theorem executeSync_returns_one_receipt W (client : ChainClient W) σ options w r t w' :
  run client (executeSync σ options) w = (Returned r, t, w') ->
  refusal σ = None
  /\ length (sync_results r) = Builder.length_ σ
  /\ sync_gasUsed r = gasUsed (sync_receipt r)
  /\ exists call signedTx w1 w2,
       submissions t
       = [requested (signTransaction call);
          requested (request "eth_sendRawTransactionSync" [signedTx])]
       /\ answer client (signTransaction call) w1 = (Ok signedTx, w2)
       /\ (answer client (request "eth_sendRawTransactionSync" [signedTx]) w2).1
          = Ok (sync_receipt r).
Proof.
  rewrite executeSync_run.
  destruct (refusal σ) as [e|]; [discriminate|].
  destruct (Builder.walletClient σ ≫= wallet_account) as [account|]; [|discriminate].
  intros Hrun. split; [reflexivity|].
  by apply (executeSync_checked_returned client σ options account w r t w').
Qed.

(** *** Simulation is read-only *)

Lemma run_try_catch {W A} (client : ChainClient W) (p : Prog A) (h : Thrown -> Prog A) w :
  run client (Orchestrator.try_catch p h) w
  = let '(o, t, w1) := run client p w in
    match o with
    | Threw e => let '(o2, t2, w2) := run client (h e) w1 in (o2, t ++ t2, w2)
    | _ => (o, t, w1)
    end.
Proof.
  revert w. induction p as [a|e| |X r k IH|X l k IH]; intros w;
    cbn [Orchestrator.try_catch run].
  - reflexivity.
  - by destruct (run client (h e) w) as [[o2 t2] w2].
  - reflexivity.
  - destruct (answer client r w) as [x w1]. rewrite IH.
    destruct (run client (k x) w1) as [[[a|e|] t] w2]; [reflexivity| |reflexivity].
    by destruct (run client (h e) w2) as [[o2 t2] w3].
  - destruct (effect client l w) as [x w1]. rewrite IH.
    destruct (run client (k x) w1) as [[[a|e|] t] w2]; [reflexivity| |reflexivity].
    by destruct (run client (h e) w2) as [[o2 t2] w3].
Qed.

Lemma run_lift_fuel {W A} (client : ChainClient W) (r : option (res A)) w :
  (run client (lift_fuel r) w).1.2 = [].
Proof. by destruct r as [[a|e]|]. Qed.

Lemma simulationHandler_quiet {W} (client : ChainClient W) σ err w :
  submissions (run client (simulationHandler σ err) w).1.2 = [].
Proof.
  unfold simulationHandler. rewrite run_bind.
  pose proof (run_lift_fuel client (Utils.decodeRevertError (Utils.errorMessage err)) w) as Hd.
  destruct (run client (lift_fuel _) w) as [[[reason|e|] t0] w1]; simpl in Hd; subst t0;
    [|reflexivity..].
  rewrite run_bind.
  match goal with |- context [run client (log σ ?m ?d) w1] =>
    destruct (run_log client σ m d w1) as (t1 & w2 & -> & Ht1) end.
  cbn [mret Prog_ret run]. simpl. by rewrite app_nil_r.
Qed.

(** X21.  [simulate()] only reads: against any chain client, whatever
    it answers, a simulation issues no signature request and sends no
    transaction. *)
Theorem simulate_never_submits W (client : ChainClient W) σ w :
  submissions (run client (simulate σ) w).1.2 = [].
Proof.
  destruct (Builder.isEmpty σ) eqn:Hempty; [by rewrite (simulate_empty σ Hempty)|].
  rewrite (simulate_nonempty σ Hempty), run_try_catch.
  assert (Hbody : forall o t w1,
            run client
              (requiredETH ←
                 await (readContract (Builder.routerAddress σ) "calculateRequiredETH" (queued σ));
               simulated ← await (simulateContract (dryCall σ requiredETH));
               gasEstimate ← await (estimateContractGas (dryCall σ requiredETH));
               mret (simulationSuccess simulated gasEstimate)) w = (o, t, w1) ->
            submissions t = []).
  { intros o t w1. rewrite run_bind, run_await.
    destruct (answer client (readContract _ _ _) w) as [[requiredETH|e] w2];
      [|by intros [= <- <- <-]].
    rewrite run_bind, run_await.
    destruct (answer client (simulateContract _) w2) as [[simulated|e] w3];
      [|by intros [= <- <- <-]].
    rewrite run_bind, run_await.
    destruct (answer client (estimateContractGas _) w3) as [[gasEstimate|e] w4];
      by intros [= <- <- <-]. }
  destruct (run client _ w) as [[o t] w1] eqn:Hrun in |- *.
  specialize (Hbody o t w1 Hrun).
  destruct o as [r|e|]; [exact Hbody| |exact Hbody].
  pose proof (simulationHandler_quiet client σ e w1) as Hh.
  destruct (run client (simulationHandler σ e) w1) as [[o2 t2] w2]. simpl in *.
  by rewrite submissions_app, Hbody, Hh.
Qed.

End Submission.

Section FailedCallIndex.
Import Orchestrator.

Lemma toString_digits (n : Z) :
  0 <= n ->
  exists d,
    d <> Decimal.Nil
    /\ toString n = DecimalString.NilEmpty.string_of_uint d
    /\ Z.of_N (N.of_uint d) = n.
Proof.
  intros Hn. destruct n as [|p|p]; [| |lia].
  - exists (Decimal.D0 Decimal.Nil). by repeat split.
  - exists (Pos.to_uint p). split; [apply DecimalPos.Unsigned.to_uint_nonnil|].
    split.
    + unfold toString. simpl.
      pose proof (DecimalPos.Unsigned.to_uint_nonnil p) as Hnn.
      by destruct (Pos.to_uint p).
    + unfold N.of_uint. by rewrite DecimalPos.Unsigned.of_to.
Qed.

Lemma digits_prefix_string_of_uint d rest :
  digits_prefix rest = "" ->
  digits_prefix (DecimalString.NilEmpty.string_of_uint d ++ rest)
  = DecimalString.NilEmpty.string_of_uint d.
Proof.
  intros Hrest. induction d; simpl; [exact Hrest|..]; by rewrite IHd.
Qed.

Lemma string_of_uint_nonempty d :
  d <> Decimal.Nil -> String.eqb (DecimalString.NilEmpty.string_of_uint d) "" = false.
Proof. by destruct d. Qed.

Lemma parseInt_toString (n : Z) : 0 <= n < 2 ^ 53 -> parseInt (toString n) = n.
Proof.
  intros [Hn Hlt]. destruct (toString_digits n Hn) as (d & _ & -> & Hd).
  unfold parseInt. rewrite DecimalString.NilEmpty.usu. simpl default. rewrite Hd.
  unfold Number. rewrite Z.abs_eq by exact Hn.
  by destruct (Z.ltb_spec n (2 ^ 53)); [|lia].
Qed.

(** No match of [/CallFailed\((\d+)/] starts where the text has no
    capital C. *)
Lemma first_match_skips before tail :
  Forall (fun c => c <> "C"%char) (String.list_ascii_of_string before) ->
  first_match match_CallFailed_here (before ++ tail)
  = first_match match_CallFailed_here tail.
Proof.
  induction before as [|c before IH]; intros Hno; [reflexivity|].
  simpl in Hno. apply Forall_cons in Hno as [Hc Hno].
  change (String c before ++ tail) with (String c (before ++ tail)).
  cbn [first_match].
  assert (match_CallFailed_here (String c (before ++ tail)) = None) as ->.
  { unfold match_CallFailed_here, starts_with. cbn [String.prefix].
    destruct (ascii_dec "C" c) as [E|E]; [by subst|reflexivity]. }
  by apply IH.
Qed.

(** X22.  The index that the router puts in its [CallFailed(index, ...)]
    error is the one [extractFailedCallIndex] reads back: in a message
    whose first capital C opens [CallFailed(] followed by the decimal
    digits of [n], the extracted index is [n] (for [n] below [2^53], so
    that the [number] holds it exactly). *)
Theorem extractFailedCallIndex_reads_CallFailed (before rest : string) (n : Z) :
  0 <= n < 2 ^ 53 ->
  Forall (fun c => c <> "C"%char) (String.list_ascii_of_string before) ->
  digits_prefix rest = "" ->
  extractFailedCallIndex (before ++ "CallFailed(" ++ toString n ++ rest) = Some n.
Proof.
  intros Hn Hbefore Hrest. unfold extractFailedCallIndex.
  rewrite (first_match_skips before _ Hbefore).
  assert (Hhere : match_CallFailed_here ("CallFailed(" ++ toString n ++ rest)
                  = Some (toString n)).
  { destruct (toString_digits n (proj1 Hn)) as (d & Hd & -> & _).
    unfold match_CallFailed_here, starts_with. simpl.
    change ("" +:+ DecimalString.NilEmpty.string_of_uint d +:+ rest)
      with (DecimalString.NilEmpty.string_of_uint d +:+ rest).
    rewrite (digits_prefix_string_of_uint d rest Hrest), (string_of_uint_nonempty d Hd).
    by destruct (DecimalString.NilEmpty.string_of_uint d +:+ rest). }
  assert (first_match match_CallFailed_here ("CallFailed(" ++ toString n ++ rest)
          = Some (toString n)) as ->.
  { change ("CallFailed(" ++ toString n ++ rest)
      with (String "C" ("allFailed(" ++ toString n ++ rest)) in *.
    cbn [first_match]. by rewrite Hhere. }
  by rewrite (parseInt_toString n Hn).
Qed.

Lemma extractFailedCallIndex_reads_CallFailed_witness :
  0 <= 12 < 2 ^ 53
  /\ Forall (fun c => c <> "C"%char)
       (String.list_ascii_of_string "The contract function executeBatch reverted: ")
  /\ digits_prefix ", 0x08c379a0)" = ""
  /\ extractFailedCallIndex
       ("The contract function executeBatch reverted: "
        ++ "CallFailed(" ++ toString 12 ++ ", 0x08c379a0)") = Some 12.
Proof.
  assert (H1 : 0 <= 12 < 2 ^ 53) by lia.
  assert (H2 : Forall (fun c => c <> "C"%char)
                 (String.list_ascii_of_string "The contract function executeBatch reverted: "))
    by (repeat constructor; discriminate).
  assert (H3 : digits_prefix ", 0x08c379a0)" = "") by reflexivity.
  split; [exact H1|]. split; [exact H2|]. split; [exact H3|].
  exact (extractFailedCallIndex_reads_CallFailed _ _ 12 H1 H2 H3).
Defined.

End FailedCallIndex.

(* ===================================================================== *)
(** * client.ts: builders, balances, nonces                               *)
(* ===================================================================== *)

Module ClientReads.

(** The fields of a [MegaFlowClient] that [batch()] reads: the router
    address (set by the constructor), the chain id of [config.chain]
    when one was given, the wallet client when one is connected. *)
Record ClientState := mkClientState {
  config_routerAddress : Address;
  config_chain : option Z;
  client_walletClient : option WalletClient;
}.

(** [megaethMainnet.id] (chains.ts), the chain of a builder made without
    one *)
Definition megaethMainnet_id : Z := 4326.

(** [batch()]: a new builder in the store [h], connected when the
    client is. *)
Definition batch (h : gmap Builder.loc Builder.Obj) (client : ClientState) : Builder.State :=
  let builder :=
    Builder.construct h (config_routerAddress client)
      (default megaethMainnet_id (config_chain client)) false in
  match client_walletClient client with
  | Some walletClient => (Builder.connect walletClient builder).2
  | None => builder
  end.

(** One entry of the array that [multicall] resolves to. *)
Inductive MulticallResult :=
| mc_success (result : Z)
| mc_failure (error : string).

(** One entry of [contracts]: [{ address, abi: ERC20_ABI, functionName,
    args: [owner] }]. *)
Record BalanceOfCall := mkBalanceOfCall {
  bo_address : Address;
  bo_functionName : string;
  bo_owner : Address;
}.

(** [arr.map(f)] with a callback that may throw. *)
Fixpoint Array_map_from {A B} (f : A -> nat -> res B) (arr : list A) (i : nat) : res (list B) :=
  match arr with
  | [] => Ok []
  | x :: rest =>
      y ← f x i;
      ys ← Array_map_from f rest (S i);
      mret (y :: ys)
  end.

(** [getMultipleBalances(tokens, owner)], with the awaited [multicall]
    known by what it answers to the contracts it is given.  Reading
    [status] off a missing entry is a [TypeError]. *)
Definition getMultipleBalances
    (multicall : list BalanceOfCall -> res (list MulticallResult))
    (tokens : list Address) (owner : Address) : res (list (Address * Z)) :=
  let contracts :=
    (fun token => {| bo_address := token; bo_functionName := "balanceOf";
                     bo_owner := owner |}) <$> tokens in
  results ← multicall contracts;
  Array_map_from
    (fun token i =>
       match results !! i with
       | Some (mc_success result) => Ok (token, result)
       | Some (mc_failure _) => Ok (token, 0)
       | None =>
           Throw (ThrownError "TypeError"
                    "Cannot read properties of undefined (reading 'status')")
       end)
    tokens 0%nat.

End ClientReads.

Section Batches.
Context {viem : Viem} {host : Host}.
Import Builder ClientReads Accessors.
Local Open Scope list_scope.

Lemma batch_fields h client :
  exists hb,
    heap (batch h client) = hb
    /\ calls (batch h client) = fresh (dom h)
    /\ operations (batch h client) = fresh (dom (<[fresh (dom h) := ObjArray []]> h))
    /\ hb = <[fresh (dom (<[fresh (dom h) := ObjArray []]> h)) := ObjArray []]>
              (<[fresh (dom h) := ObjArray []]> h)
    /\ walletClient (batch h client) = client_walletClient client.
Proof.
  unfold batch. destruct (client_walletClient client); eexists; by repeat split.
Qed.

Lemma batch_wf h client : ledger_wf (batch h client).
Proof.
  unfold batch. destruct (client_walletClient client) as [w|]; [|apply construct_wf].
  apply (keeps_set_walletClient (Some w)). apply construct_wf.
Qed.

Lemma batch_outside h client l o :
  h !! l = Some o -> outside l o (batch h client).
Proof.
  intros Hl. destruct (batch_fields h client) as (hb & Hh & Hc & Ho & -> & _).
  set (a := fresh (dom h)) in *.
  assert (Ha : h !! a = None) by apply fresh_not_allocated.
  assert (Hal : a <> l) by congruence.
  set (h1 := <[a := ObjArray []]> h) in *.
  assert (Hl1 : h1 !! l = Some o) by (unfold h1; by rewrite lookup_insert_ne).
  set (b := fresh (dom h1)) in *.
  assert (Hb : h1 !! b = None) by apply fresh_not_allocated.
  assert (Hbl : b <> l) by congruence.
  unfold outside. rewrite Hh, Hc, Ho. split; [by rewrite lookup_insert_ne|].
  split; congruence.
Qed.

(** X23.  A builder made by [batch()] starts empty, with the router of
    the client, and connected exactly when the client holds a wallet
    with an account. *)
Theorem batch_starts_empty h client :
  let builder := batch h client in
  ledger builder = ([], [], [], [], 0)
  /\ ledger_wf builder
  /\ routerAddress builder = config_routerAddress client
  /\ isConnected builder
     = match client_walletClient client ≫= wallet_account with
       | Some _ => true
       | None => false
       end.
Proof.
  intros builder. split; [|split; [apply batch_wf|]].
  - destruct (batch_fields h client) as (hb & Hh & Hc & Ho & -> & _).
    fold builder in Hh, Hc, Ho.
    assert (Hne : fresh (dom (<[fresh (dom h) := ObjArray []]> h)) <> fresh (dom h)).
    { intros E.
      pose proof (fresh_not_allocated (<[fresh (dom h) := ObjArray []]> h)) as Hf.
      rewrite E in Hf. by rewrite lookup_insert_eq in Hf. }
    unfold ledger, getTotalValue, calls_in, operations_in, array_at.
    rewrite Hh, Hc, Ho. rewrite lookup_insert_eq.
    rewrite lookup_insert_ne by exact Hne. rewrite lookup_insert_eq. reflexivity.
  - unfold builder, batch, isConnected.
    by destruct (client_walletClient client).
Qed.

(** X24.  Two builders of one client do not interfere: whatever is
    done with a builder made by a later [batch()], the ledger of the
    earlier builder (its queued calls, its recorded operations, its
    total value) reads as before. *)
Theorem batch_builders_independent (earlier : State) client invocations :
  ledger_wf earlier ->
  let later := invoke_all invocations (batch (heap earlier) client) in
  ledger (set_heap (heap later) earlier) = ledger earlier.
Proof.
  intros Hwf later.
  assert (Hkept : forall l o, heap earlier !! l = Some o -> heap later !! l = Some o).
  { intros l o Hl.
    by destruct (invoke_all_outside invocations l o _ (batch_outside _ client l o Hl)). }
  destruct (wf_calls _ Hwf) as [cs Hcs]. destruct (wf_operations _ Hwf) as [os Hos].
  apply same_ledger_reads; [exact Hwf|].
  constructor; simpl; try reflexivity.
  - intros l o Hl _. by apply Hkept.
  - rewrite Hcs. by apply Hkept.
  - rewrite Hos. by apply Hkept.
Qed.

End Batches.

Section Balances.
Import ClientReads.
Local Open Scope list_scope.

(** The balance [getMultipleBalances] reports for one multicall
    entry. *)
Definition reportedBalance (r : MulticallResult) : Z :=
  match r with
  | mc_success result => result
  | mc_failure _ => 0
  end.

Lemma Array_map_from_balances (tokens : list Address) : forall (before results : list MulticallResult),
  length results = length tokens ->
  Array_map_from
    (fun token i =>
       match (before ++ results) !! i with
       | Some (mc_success result) => Ok (token, result)
       | Some (mc_failure _) => Ok (token, 0)
       | None =>
           Throw (ThrownError "TypeError"
                    "Cannot read properties of undefined (reading 'status')")
       end)
    tokens (length before)
  = Ok (zip tokens (reportedBalance <$> results)).
Proof.
  induction tokens as [|token tokens IH]; intros before results Hlen; [reflexivity|].
  destruct results as [|r results]; [discriminate|]. simpl in Hlen.
  cbn [Array_map_from].
  rewrite lookup_app_r by lia. rewrite Nat.sub_diag. cbn [lookup list_lookup].
  specialize (IH (before ++ [r]) results ltac:(lia)).
  rewrite <- app_assoc, length_app in IH. simpl in IH.
  replace (length before + 1)%nat with (S (length before)) in IH by lia.
  destruct r; cbn [mbind res_bind]; rewrite IH; reflexivity.
Qed.

(** X25.  When [multicall] answers with one entry per contract,
    [getMultipleBalances] returns one balance per token, in the order of
    the tokens; a read that failed is reported as a balance of zero, not
    as an error. *)
Theorem getMultipleBalances_one_per_token multicall tokens owner results :
  multicall ((fun token => mkBalanceOfCall token "balanceOf" owner) <$> tokens) = Ok results ->
  length results = length tokens ->
  exists balances,
    getMultipleBalances multicall tokens owner = Ok balances
    /\ balances.*1 = tokens
    /\ balances.*2 = reportedBalance <$> results.
Proof.
  intros Hcall Hlen. unfold getMultipleBalances. rewrite Hcall. cbn [mbind res_bind].
  pose proof (Array_map_from_balances tokens [] results Hlen) as Hmap.
  cbn [app length] in Hmap. rewrite Hmap.
  eexists. split; [reflexivity|]. split.
  - apply fst_zip. rewrite length_fmap. lia.
  - apply snd_zip. rewrite length_fmap. lia.
Qed.

(** With fewer entries than tokens the read of [status] throws. *)
Example getMultipleBalances_missing_entry :
  getMultipleBalances (fun _ => Ok [mc_success 5])
    ["0x1111111111111111111111111111111111111111";
     "0x2222222222222222222222222222222222222222"]
    "0x3333333333333333333333333333333333333333"
  = Throw (ThrownError "TypeError" "Cannot read properties of undefined (reading 'status')").
Proof. reflexivity. Qed.

Lemma getMultipleBalances_one_per_token_witness :
  (fun _ : list BalanceOfCall => Ok [mc_success 5; mc_failure "execution reverted"])
    ((fun token => mkBalanceOfCall token "balanceOf" "0x3333333333333333333333333333333333333333")
       <$> ["0x1111111111111111111111111111111111111111";
            "0x2222222222222222222222222222222222222222"])
  = Ok [mc_success 5; mc_failure "execution reverted"]
  /\ length [mc_success 5; mc_failure "execution reverted"]
     = length ["0x1111111111111111111111111111111111111111";
               "0x2222222222222222222222222222222222222222"]
  /\ exists balances,
       getMultipleBalances
         (fun _ => Ok [mc_success 5; mc_failure "execution reverted"])
         ["0x1111111111111111111111111111111111111111";
          "0x2222222222222222222222222222222222222222"]
         "0x3333333333333333333333333333333333333333" = Ok balances
       /\ balances.*1 = ["0x1111111111111111111111111111111111111111";
                         "0x2222222222222222222222222222222222222222"]
       /\ balances.*2 = reportedBalance <$> [mc_success 5; mc_failure "execution reverted"].
Proof.
  split; [reflexivity|]. split; [reflexivity|].
  exact (getMultipleBalances_one_per_token
           (fun _ => Ok [mc_success 5; mc_failure "execution reverted"])
           ["0x1111111111111111111111111111111111111111";
            "0x2222222222222222222222222222222222222222"]
           "0x3333333333333333333333333333333333333333"
           [mc_success 5; mc_failure "execution reverted"] eq_refl eq_refl).
Defined.

End Balances.

Section NonceCache.
Import Client.

(** Does the call read or write the cache entry of [key]? *)
Definition touches (key : string) (i : Invocation) : bool :=
  match i with
  | call_getNextNonce address _ => String.eqb (toLowerCase address) key
  | call_resetNonce address => String.eqb (toLowerCase address) key
  end.

Lemma invoke_all_other_keys key invocations : forall (nonceCache : gmap string Z),
  Forall (fun i => touches key i = false) invocations ->
  (invoke_all invocations nonceCache).2 !! key = nonceCache !! key.
Proof.
  induction invocations as [|i rest IH]; intros nonceCache Hno; [reflexivity|].
  apply Forall_cons in Hno as [Hi Hrest]. destruct i as [address pending|address]; simpl.
  - simpl in Hi. apply String.eqb_neq in Hi.
    destruct pending as [networkNonce|e]; simpl.
    + specialize (IH (<[toLowerCase address :=
                         Z.max networkNonce
                           (Number (default (-1) (nonceCache !! toLowerCase address) + 1))]>
                        nonceCache) Hrest).
      destruct (invoke_all rest _) as [issued cache2]. simpl in *.
      by rewrite IH, lookup_insert_ne.
    + specialize (IH nonceCache Hrest).
      by destruct (invoke_all rest nonceCache) as [issued cache2].
  - simpl in Hi. apply String.eqb_neq in Hi.
    specialize (IH (resetNonce address nonceCache) Hrest).
    destruct (invoke_all rest _) as [issued cache2]. simpl in *.
    unfold resetNonce in IH. by rewrite IH, lookup_delete_ne.
Qed.

(** X26.  Nonces are tracked per address, whatever the case the
    address is written in: calls for other addresses, resets included,
    change neither the cache entry of an address nor the next nonce it
    is given, and two spellings of one address that differ only in case
    share one entry. *)
Theorem nonces_are_per_address (address spelling : Address) pending between
    (nonceCache : gmap string Z) :
  toLowerCase spelling = toLowerCase address ->
  Forall (fun i => touches (toLowerCase address) i = false) between ->
  let after := (invoke_all between nonceCache).2 in
  after !! toLowerCase address = nonceCache !! toLowerCase address
  /\ (getNextNonce spelling pending after).1 = (getNextNonce address pending nonceCache).1.
Proof.
  intros Hcase Hno after.
  pose proof (invoke_all_other_keys _ between nonceCache Hno) as Hkey. fold after in Hkey.
  split; [exact Hkey|].
  unfold getNextNonce. rewrite Hcase. destruct pending; [|reflexivity]. simpl.
  by rewrite Hkey.
Qed.

Lemma nonces_are_per_address_witness :
  toLowerCase "0xabcdef0123456789abcdef0123456789abcdef01" = toLowerCase ALICE
  /\ Forall (fun i => touches (toLowerCase ALICE) i = false)
       [call_getNextNonce BOB (Ok 5); call_resetNonce BOB]
  /\ (let after := (invoke_all [call_getNextNonce BOB (Ok 5); call_resetNonce BOB]
                      (<[toLowerCase ALICE := 7]> ∅)).2 in
      after !! toLowerCase ALICE = (<[toLowerCase ALICE := 7]> ∅ : gmap string Z) !! toLowerCase ALICE
      /\ (getNextNonce "0xabcdef0123456789abcdef0123456789abcdef01" (Ok 3) after).1
         = (getNextNonce ALICE (Ok 3) (<[toLowerCase ALICE := 7]> ∅)).1).
Proof.
  assert (H1 : toLowerCase "0xabcdef0123456789abcdef0123456789abcdef01" = toLowerCase ALICE)
    by reflexivity.
  assert (H2 : Forall (fun i => touches (toLowerCase ALICE) i = false)
                 [call_getNextNonce BOB (Ok 5); call_resetNonce BOB])
    by (repeat constructor).
  split; [exact H1|]. split; [exact H2|].
  exact (nonces_are_per_address ALICE _ (Ok 3) _ (<[toLowerCase ALICE := 7]> ∅) H1 H2).
Defined.

(** X27.  [resetNonce] makes the client follow the network again: the
    next nonce for the address is the pending count of the network
    (never below zero), whatever nonces were handed out before, so it
    can be one that was already handed out; the entries of other
    addresses stay. *)
Theorem resetNonce_follows_network (address : Address) (pending : Z)
    (nonceCache : gmap string Z) :
  (getNextNonce address (Ok pending) (resetNonce address nonceCache)).1
  = Ok (Z.max pending 0)
  /\ forall other,
       other <> toLowerCase address ->
       resetNonce address nonceCache !! other = nonceCache !! other.
Proof.
  unfold getNextNonce, resetNonce. split.
  - simpl. by rewrite lookup_delete_eq.
  - intros other Hother. by rewrite lookup_delete_ne.
Qed.

End NonceCache.

(* ===================================================================== *)
(** * utils.ts: validation helpers                                        *)
(* ===================================================================== *)

Module Validation.

(** [[a-fA-F0-9]] *)
Definition is_hex_digit (c : ascii) : bool :=
  let n := nat_of_ascii c in
  (((48 <=? n) && (n <=? 57)) || ((97 <=? n) && (n <=? 102)) || ((65 <=? n) && (n <=? 70)))%nat.

(** [[a-fA-F0-9]*] up to the end of the text *)
Fixpoint all_hex (s : string) : bool :=
  match s with
  | EmptyString => true
  | String c s' => is_hex_digit c && all_hex s'
  end.

(** [/^0x[a-fA-F0-9]{40}$/.test(address)] *)
Definition isValidAddress (address : string) : bool :=
  match address with
  | String "0" (String "x" digits) => (String.length digits =? 40)%nat && all_hex digits
  | _ => false
  end.

(** [/^0x[a-fA-F0-9]*$/.test(hex)] *)
Definition isValidHex (hex : string) : bool :=
  match hex with
  | String "0" (String "x" digits) => all_hex digits
  | _ => false
  end.

(** [s.includes(needle)] *)
Fixpoint includes (needle s : string) : bool :=
  String.prefix needle s
  || match s with
     | EmptyString => false
     | String _ s' => includes needle s'
     end.

(** [isUserRejection(error)]: only an [Error] has a message to look
    at. *)
Definition isUserRejection (error : Thrown) : bool :=
  match error with
  | ThrownError _ message | ThrownMegaFlowError message _ =>
      includes "User rejected" message
      || includes "user rejected" message
      || includes "User denied" message
      || includes "ACTION_REJECTED" message
  | ThrownValue _ => false
  end.

End Validation.

Section HexDigits.
Import Validation.

Lemma length_hex_string_of_uint d :
  String.length (HexadecimalString.NilEmpty.string_of_uint d) = Hexadecimal.nb_digits d.
Proof. induction d; simpl; congruence. Qed.

Lemma all_hex_string_of_uint d :
  all_hex (HexadecimalString.NilEmpty.string_of_uint d) = true.
Proof. induction d; simpl; try reflexivity; exact IHd. Qed.

Lemma usize_nb_digits d :
  HexadecimalPos.Unsigned.usize d = N.of_nat (Hexadecimal.nb_digits d).
Proof. induction d; simpl; [reflexivity|..]; rewrite IHd; lia. Qed.

Lemma of_hex_uint_acc_lower d acc :
  (N.pos acc * 16 ^ N.of_nat (Hexadecimal.nb_digits d) <= N.pos (Pos.of_hex_uint_acc d acc))%N.
Proof.
  rewrite HexadecimalPos.Unsigned.of_uint_acc_rev, usize_nb_digits. lia.
Qed.

(** A numeral without leading zero is at least [16^(digits - 1)]. *)
Lemma of_hex_uint_lower d :
  d <> Hexadecimal.Nil -> Hexadecimal.nzhead d = d ->
  (16 ^ N.of_nat (Hexadecimal.nb_digits d - 1) <= Pos.of_hex_uint d)%N.
Proof.
  intros Hnil Hnz. destruct d; try done.
  1: { (* a leading zero *)
       simpl in Hnz. exfalso.
       pose proof (HexadecimalFacts.nb_digits_nzhead d) as Hle. rewrite Hnz in Hle.
       simpl in Hle. lia. }
  all: cbn [Pos.of_hex_uint Hexadecimal.nb_digits];
    rewrite Nat.sub_succ, Nat.sub_0_r;
    etransitivity; [|apply of_hex_uint_acc_lower]; lia.
Qed.

Lemma to_hex_uint_nzhead p :
  Hexadecimal.nzhead (Pos.to_hex_uint p) = Pos.to_hex_uint p.
Proof.
  pose proof (HexadecimalPos.Unsigned.to_of (Pos.to_hex_uint p)) as H.
  rewrite HexadecimalPos.Unsigned.of_to in H. simpl in H.
  pose proof (HexadecimalPos.Unsigned.to_uint_nonzero p) as Hnz.
  unfold Hexadecimal.unorm in H.
  destruct (Hexadecimal.nzhead (Pos.to_hex_uint p)); congruence.
Qed.

Lemma nb_digits_to_hex_uint p (k : nat) :
  Z.pos p < 16 ^ Z.of_nat k -> (Hexadecimal.nb_digits (Pos.to_hex_uint p) <= k)%nat.
Proof.
  intros Hlt.
  pose proof (of_hex_uint_lower (Pos.to_hex_uint p)
                (HexadecimalPos.Unsigned.to_uint_nonnil p) (to_hex_uint_nzhead p)) as Hlow.
  rewrite HexadecimalPos.Unsigned.of_to in Hlow.
  destruct (le_lt_dec (Hexadecimal.nb_digits (Pos.to_hex_uint p)) k) as [|Hgt]; [done|].
  exfalso.
  assert (16 ^ Z.of_nat k <= 16 ^ Z.of_nat (Hexadecimal.nb_digits (Pos.to_hex_uint p) - 1))
    by (apply Z.pow_le_mono_r; lia).
  assert (Z.of_N (16 ^ N.of_nat (Hexadecimal.nb_digits (Pos.to_hex_uint p) - 1))
          <= Z.of_N (N.pos p)) by lia.
  rewrite N2Z.inj_pow, nat_N_Z in *. simpl Z.of_N in *. lia.
Qed.

(** [amt.toString(16)] of an unsigned 256-bit quantity: at most 64
    digits, at least one, all of them hexadecimal. *)
Lemma toString16_uint256 (amt : Z) :
  0 <= amt < 2 ^ 256 ->
  (1 <= String.length (toString16 amt) <= 64)%nat /\ all_hex (toString16 amt) = true.
Proof.
  intros [H0 Hlt]. unfold toString16.
  destruct (Z.ltb_spec amt 0); [lia|]. rewrite Z.abs_eq by lia.
  destruct amt as [|p|p]; [by split; [simpl; lia|]| |lia].
  simpl Z.to_N. cbn [N.to_hex_uint].
  pose proof (HexadecimalPos.Unsigned.to_uint_nonnil p) as Hnn.
  assert (Hs : HexadecimalString.NilZero.string_of_uint (Pos.to_hex_uint p)
               = HexadecimalString.NilEmpty.string_of_uint (Pos.to_hex_uint p))
    by (by destruct (Pos.to_hex_uint p)).
  rewrite Hs, length_hex_string_of_uint, all_hex_string_of_uint.
  split; [|reflexivity]. split.
  - destruct (Pos.to_hex_uint p); simpl; try lia. done.
  - apply nb_digits_to_hex_uint. change (16 ^ Z.of_nat 64) with (2 ^ 256). exact Hlt.
Qed.

Lemma all_hex_app a b : all_hex (a ++ b) = all_hex a && all_hex b.
Proof. induction a as [|c a IH]; [reflexivity|]. simpl. by rewrite IH, andb_assoc. Qed.

Lemma all_hex_zeros n : all_hex (repeat_char "0" n) = true.
Proof. induction n; [reflexivity|exact IHn]. Qed.

Lemma length_repeat_char c n : String.length (repeat_char c n) = n.
Proof. induction n; simpl; congruence. Qed.

Lemma padStart_word s :
  (String.length s <= 64)%nat -> all_hex s = true ->
  String.length (padStart 64 "0" s) = 64%nat /\ all_hex (padStart 64 "0" s) = true.
Proof.
  intros Hlen Hhex. unfold padStart.
  rewrite length_append, length_repeat_char, all_hex_app, all_hex_zeros, Hhex.
  split; [lia|reflexivity].
Qed.

Lemma isValidAddress_digits address :
  isValidAddress address = true ->
  exists digits,
    address = String "0" (String "x" digits)
    /\ String.length digits = 40%nat /\ all_hex digits = true.
Proof.
  unfold isValidAddress.
  destruct address as [|c0 [|c1 digits]]; try discriminate.
  - by destruct (ascii_dec c0 "0") as [->|]; [|destruct c0 as [[] [] [] [] [] [] [] []]].
  - intros H.
    assert (c0 = "0"%char /\ c1 = "x"%char) as [-> ->].
    { destruct c0 as [[] [] [] [] [] [] [] []]; try discriminate;
        destruct c1 as [[] [] [] [] [] [] [] []]; try discriminate; done. }
    apply andb_true_iff in H as [Hl Hh]. apply Nat.eqb_eq in Hl. by exists digits.
Qed.

End HexDigits.

Section ValidationFacts.
Import Validation Utils.

Lemma approveCalldata_wellformed spender amt :
  isValidAddress spender = true -> 0 <= amt < 2 ^ 256 ->
  isValidHex (approveCalldata spender amt) = true
  /\ String.length (approveCalldata spender amt) = 138%nat
  /\ slice 0 10 (approveCalldata spender amt) = "0x095ea7b3".
Proof.
  intros Hs Hamt.
  destruct (isValidAddress_digits spender Hs) as (digits & -> & Hlen & Hhex).
  destruct (toString16_uint256 amt Hamt) as [[_ Hl16] Hh16].
  destruct (padStart_word digits ltac:(lia) Hhex) as [Hl1 Hh1].
  destruct (padStart_word (toString16 amt) Hl16 Hh16) as [Hl2 Hh2].
  unfold approveCalldata. cbn [slice_from].
  set (a := padStart 64 "0" digits) in *. set (b := padStart 64 "0" (toString16 amt)) in *.
  split; [|split].
  - change (all_hex ("095ea7b3" ++ a ++ b) = true).
    by rewrite !all_hex_app, Hh1, Hh2.
  - rewrite !length_append, Hl1, Hl2. reflexivity.
  - unfold slice. cbn. by destruct (a +:+ b).
Qed.

(** X28.  For a valid spender address and amounts that fit in 256
    bits, every call data that [buildSafeApproveCalls] assembles by hand
    is a well-formed [approve(address,uint256)] payload: valid hex, the
    selector [0x095ea7b3] followed by exactly two 32-byte words (138
    characters). *)
Theorem buildSafeApproveCalls_calldata token spender amount currentAllowance :
  isValidAddress spender = true ->
  0 <= amount < 2 ^ 256 ->
  Forall (fun call =>
            isValidHex (callData call) = true
            /\ String.length (callData call) = 138%nat
            /\ slice 0 10 (callData call) = "0x095ea7b3")
         (buildSafeApproveCalls token spender amount currentAllowance).
Proof.
  intros Hs Hamt. unfold buildSafeApproveCalls.
  pose proof (approveCalldata_wellformed spender amount Hs Hamt) as Ha.
  pose proof (approveCalldata_wellformed spender 0 Hs ltac:(lia)) as H0.
  destruct (_ && _); repeat constructor; simpl; tauto.
Qed.

Lemma buildSafeApproveCalls_calldata_witness :
  isValidAddress "0x2222222222222222222222222222222222222222" = true
  /\ 0 <= 1000000 < 2 ^ 256
  /\ Forall (fun call =>
               isValidHex (callData call) = true
               /\ String.length (callData call) = 138%nat
               /\ slice 0 10 (callData call) = "0x095ea7b3")
            (buildSafeApproveCalls "0x1111111111111111111111111111111111111111"
               "0x2222222222222222222222222222222222222222" 1000000 500000).
Proof.
  assert (H1 : isValidAddress "0x2222222222222222222222222222222222222222" = true)
    by reflexivity.
  assert (H2 : 0 <= 1000000 < 2 ^ 256) by (split; [lia|reflexivity]).
  split; [exact H1|]. split; [exact H2|].
  exact (buildSafeApproveCalls_calldata _ _ 1000000 500000 H1 H2).
Defined.

(** An amount of more than 256 bits is not refused: the payload grows
    beyond its two words. *)
Example approveCalldata_oversized :
  String.length (approveCalldata "0x2222222222222222222222222222222222222222" (2 ^ 256))
  = 139%nat.
Proof. vm_compute. reflexivity. Qed.

Lemma is_hex_digit_lower c : is_hex_digit c = true -> is_hex_digit (lower_ascii c) = true.
Proof. destruct c as [[] [] [] [] [] [] [] []]; simpl; intros H; try discriminate; reflexivity. Qed.

Lemma all_hex_toLowerCase s : all_hex s = true -> all_hex (toLowerCase s) = true.
Proof.
  induction s as [|c s IH]; [done|]. simpl. intros H.
  apply andb_true_iff in H as [Hc Hs]. by rewrite (is_hex_digit_lower c Hc), IH.
Qed.

(** X29.  An address that [isValidAddress] accepts is 42 characters
    long, is accepted by [isValidHex], and is still accepted once
    lower-cased (the form under which the client caches nonces); the
    check is one of format only, mixed case is accepted as it is. *)
Theorem isValidAddress_accepts address :
  isValidAddress address = true ->
  String.length address = 42%nat
  /\ isValidHex address = true
  /\ isValidAddress (toLowerCase address) = true.
Proof.
  intros H. destruct (isValidAddress_digits address H) as (digits & -> & Hlen & Hhex).
  split; [simpl; lia|]. split; [exact Hhex|].
  cbn [toLowerCase]. change (lower_ascii "0") with "0"%char.
  change (lower_ascii "x") with "x"%char. unfold isValidAddress.
  by rewrite length_toLowerCase, Hlen, (all_hex_toLowerCase digits Hhex).
Qed.

Lemma isValidAddress_accepts_witness :
  isValidAddress "0xAbCdEf0123456789abcdef0123456789ABCDEF01" = true
  /\ String.length "0xAbCdEf0123456789abcdef0123456789ABCDEF01" = 42%nat
  /\ isValidHex "0xAbCdEf0123456789abcdef0123456789ABCDEF01" = true
  /\ isValidAddress (toLowerCase "0xAbCdEf0123456789abcdef0123456789ABCDEF01") = true.
Proof.
  assert (H : isValidAddress "0xAbCdEf0123456789abcdef0123456789ABCDEF01" = true)
    by reflexivity.
  split; [exact H|]. exact (isValidAddress_accepts _ H).
Defined.

Example isValidAddress_rejects_short : isValidAddress "0x1234" = false.
Proof. reflexivity. Qed.

Example isValidAddress_rejects_capital_prefix :
  isValidAddress "0X2222222222222222222222222222222222222222" = false.
Proof. reflexivity. Qed.

Example isValidHex_accepts_empty_payload : isValidHex "0x" = true.
Proof. reflexivity. Qed.

Example isValidHex_accepts_odd_length : isValidHex "0x123" = true.
Proof. reflexivity. Qed.

Lemma includes_MegaFlow_prefix needle message :
  (exists c rest, needle = String c rest
                  /\ Forall (fun p => p <> c)
                       (String.list_ascii_of_string "[MegaFlow] ")) ->
  includes needle ("[MegaFlow] " ++ message) = includes needle message.
Proof.
  intros (c & rest & -> & Hno).
  assert (Hskip : forall p tail, p <> c ->
            includes (String c rest) (String p tail) = includes (String c rest) tail).
  { intros p tail Hp. cbn [includes String.prefix].
    destruct (ascii_dec c p); [congruence|reflexivity]. }
  simpl in Hno.
  repeat (apply Forall_cons in Hno as [? Hno]).
  change ("[MegaFlow] " ++ message)
    with (String "[" (String "M" (String "e" (String "g" (String "a" (String "F"
           (String "l" (String "o" (String "w" (String "]" (String " " message))))))))))).
  by rewrite !Hskip.
Qed.

(** X30.  [isUserRejection] looks at the message of an error and at
    nothing else: wrapping a message in a [MegaFlowError], whose
    constructor puts ["[MegaFlow] "] in front, neither hides nor fakes a
    rejection, whatever the error code; a thrown value that is not an
    [Error] is never a rejection. *)
Theorem isUserRejection_reads_message_only message code name asString :
  isUserRejection (MegaFlowError message code) = isUserRejection (ThrownError name message)
  /\ isUserRejection (ThrownValue asString) = false.
Proof.
  split; [|reflexivity]. unfold MegaFlowError, isUserRejection.
  rewrite !includes_MegaFlow_prefix; [reflexivity|..];
    eexists _, _; (split; [reflexivity|]); repeat constructor; discriminate.
Qed.

(** The error code does not make a rejection. *)
Example isUserRejection_ignores_code :
  isUserRejection (MegaFlowError "Request was declined" USER_REJECTED) = false.
Proof. reflexivity. Qed.

Example isUserRejection_metamask :
  isUserRejection (ThrownError "Error" "MetaMask Tx Signature: User denied transaction signature.")
  = true.
Proof. reflexivity. Qed.

End ValidationFacts.

(* ===================================================================== *)
(** * The safe-approve helper                                             *)
(* ===================================================================== *)

Section SafeApprove.
Context {host : Host}.
Import Utils Builder.
Local Open Scope list_scope.

(** The integer that a word of hexadecimal digits writes. *)
Definition wordValue (word : string) : option Z :=
  (fun digits => Z.of_N (N.of_hex_uint digits))
    <$> HexadecimalString.NilEmpty.uint_of_string word.

(** [data] is the call data of [approve(spender, amt)]: the selector of
    [approve(address,uint256)], then two words of 64 digits; the first
    holds the 40 digits of the spender behind 24 zeros, the second
    writes [amt]. *)
Definition approveCallOf (spender : Address) (amt : Z) (data : Hex) : Prop :=
  exists spenderWord amountWord,
    data = ("0x095ea7b3" ++ spenderWord ++ amountWord)%string
    /\ spenderWord = ("000000000000000000000000" ++ slice_from 2 spender)%string
    /\ String.length spenderWord = 64%nat
    /\ String.length amountWord = 64%nat
    /\ wordValue amountWord = Some amt.

(** The specification's reading: two calls for an allowance that is
    non-zero and differs from the amount, one call otherwise. *)
Definition resets_nonzero_allowance (token spender : Address) (amount currentAllowance : Z)
  : Prop :=
  let approvalCalls := buildSafeApproveCalls token spender amount currentAllowance in
  (currentAllowance <> 0 /\ currentAllowance <> amount -> length approvalCalls = 2%nat)
  /\ (currentAllowance = 0 \/ currentAllowance = amount -> length approvalCalls = 1%nat).

Lemma uint_of_string_zeros k d :
  HexadecimalString.NilEmpty.uint_of_string
    (repeat_char "0" k ++ HexadecimalString.NilEmpty.string_of_uint d)%string
  = Some (Nat.iter k Hexadecimal.D0 d).
Proof.
  induction k as [|k IH]; simpl.
  - apply HexadecimalString.NilEmpty.usu.
  - change (String "0" (repeat_char "0" k) ++ ?s)%string
      with (String "0" (repeat_char "0" k ++ s)).
    cbn [HexadecimalString.NilEmpty.uint_of_string]. by rewrite IH.
Qed.

Lemma of_hex_uint_zeros k d :
  N.of_hex_uint (Nat.iter k Hexadecimal.D0 d) = N.of_hex_uint d.
Proof. induction k as [|k IH]; [reflexivity|]. simpl. exact IH. Qed.

(** Reading back the padded hexadecimal of an amount gives the amount. *)
Lemma wordValue_padStart amt :
  0 <= amt ->
  wordValue (padStart 64 "0" (toString16 amt)) = Some amt.
Proof.
  intros H0. unfold padStart, toString16, wordValue.
  destruct (Z.ltb_spec amt 0); [lia|]. rewrite Z.abs_eq by lia.
  set (n := Z.to_N amt).
  assert (Hs : HexadecimalString.NilZero.string_of_uint (N.to_hex_uint n)
               = HexadecimalString.NilEmpty.string_of_uint (N.to_hex_uint n)).
  { destruct n as [|p]; [reflexivity|]. cbn [N.to_hex_uint].
    pose proof (HexadecimalPos.Unsigned.to_uint_nonnil p).
    by destruct (Pos.to_hex_uint p). }
  rewrite Hs, uint_of_string_zeros. cbn [fmap option_fmap option_map].
  rewrite of_hex_uint_zeros, HexadecimalN.Unsigned.of_to. unfold n. f_equal. lia.
Qed.

Lemma approveCalldata_approveCallOf spender amt :
  String.length spender = 42%nat -> 0 <= amt < 2 ^ 256 ->
  approveCallOf spender amt (approveCalldata spender amt).
Proof.
  intros Hlen Hamt.
  destruct (toString16_uint256 amt Hamt) as [[_ Hl16] _].
  exists (padStart 64 "0" (slice_from 2 spender)), (padStart 64 "0" (toString16 amt)).
  assert (Hd : String.length (slice_from 2 spender) = 40%nat)
    by (rewrite length_slice_from; lia).
  split; [reflexivity|]. split; [unfold padStart; by rewrite Hd|].
  split; [unfold padStart; rewrite length_append, length_repeat_char; lia|].
  split; [unfold padStart; rewrite length_append, length_repeat_char; lia|].
  apply wordValue_padStart. lia.
Qed.

(** C9, as the code has it.  The guard is [currentAllowance > 0n]:
    [buildSafeApproveCalls] gives [approve(0)] then [approve(amount)] when
    the allowance is positive and differs from [amount], and the single
    [approve(amount)] when it is zero, negative or equal to [amount].
    For a spender of 42 characters the call data of the first is the
    [approve(address,uint256)] call of the spender with [0], and, for an
    amount of at most 256 bits, that of the second is the call of the
    spender with [amount].  Every call targets the token with value 0;
    and [safeApprove] appends exactly these calls to the ledger,
    recording one operation for each. *)
Theorem safeApprove_call_count token spender amount currentAllowance σ :
  ledger_wf σ ->
  let approve0 := {| target := token; value := 0;
                     callData := approveCalldata spender 0 |} in
  let approveAmount := {| target := token; value := 0;
                          callData := approveCalldata spender amount |} in
  let approvalCalls := buildSafeApproveCalls token spender amount currentAllowance in
  (0 < currentAllowance /\ currentAllowance <> amount ->
   approvalCalls = [approve0; approveAmount])
  /\ (currentAllowance <= 0 \/ currentAllowance = amount ->
      approvalCalls = [approveAmount])
  /\ (String.length spender = 42%nat ->
      approveCallOf spender 0 (callData approve0)
      /\ (0 <= amount < 2 ^ 256 -> approveCallOf spender amount (callData approveAmount)))
  /\ Forall (fun c => target c = token /\ value c = 0) approvalCalls
  /\ exists σ',
       safeApprove token spender amount currentAllowance σ = (Ok tt, σ')
       /\ calls_in (heap σ') (calls σ') = calls_in (heap σ) (calls σ) ++ approvalCalls
       /\ length (array_at (heap σ') (operations σ'))
          = (length (array_at (heap σ) (operations σ)) + length approvalCalls)%nat.
Proof.
  intros Hwf approve0 approveAmount approvalCalls.
  assert (Hcalls : approvalCalls
                   = if (0 <? currentAllowance) && negb (currentAllowance =? amount)
                     then [approve0; approveAmount] else [approveAmount]).
  { unfold approvalCalls, buildSafeApproveCalls.
    by destruct ((0 <? currentAllowance) && negb (currentAllowance =? amount)). }
  split; [|split; [|split; [|split]]].
  - intros [Hnz Hne]. rewrite Hcalls.
    assert ((0 <? currentAllowance) = true) as -> by (apply Z.ltb_lt; lia).
    assert ((currentAllowance =? amount) = false) as -> by (by apply Z.eqb_neq).
    reflexivity.
  - intros Hor. rewrite Hcalls.
    destruct Hor as [Hle | ->].
    + by assert ((0 <? currentAllowance) = false) as -> by (apply Z.ltb_ge; lia).
    + rewrite Z.eqb_refl. by rewrite andb_false_r.
  - intros Hlen. split.
    + apply approveCalldata_approveCallOf; [exact Hlen|]. split; [lia|reflexivity].
    + intros Hamt. by apply approveCalldata_approveCallOf.
  - rewrite Hcalls. destruct (_ && _); repeat constructor.
  - destruct (pushApprovalCalls_spec approvalCalls
                [("token", token); ("spender", spender); ("amount", toString amount)] σ Hwf)
      as (σ' & Hrun & _ & Hc & Hl).
    exists σ'. split; [exact Hrun|]. split; [exact Hc|exact Hl].
Qed.

End SafeApprove.

Section SafeApproveExamples.
Import Utils Builder.
Local Open Scope list_scope.

(** Counterexample to C9 as stated: the allowance [-1n] is non-zero and
    differs from the amount, yet it is not reset first. *)
Lemma safeApprove_negative_allowance_not_reset :
  buildSafeApproveCalls TOKEN_USDC DEX_ROUTER 1000 (-1)
  = [ {| target := TOKEN_USDC; value := 0; callData := approveCalldata DEX_ROUTER 1000 |} ]
  /\ ~ resets_nonzero_allowance TOKEN_USDC DEX_ROUTER 1000 (-1).
Proof.
  split; [reflexivity|].
  intros [Htwo _]. specialize (Htwo ltac:(split; discriminate)). discriminate Htwo.
Qed.

Lemma safeApprove_call_count_witness :
  ledger_wf new_builder
  /\ buildSafeApproveCalls TOKEN_USDC DEX_ROUTER 1000000 500000
     = [ {| target := TOKEN_USDC; value := 0; callData := approveCalldata DEX_ROUTER 0 |};
         {| target := TOKEN_USDC; value := 0;
            callData := approveCalldata DEX_ROUTER 1000000 |} ]
  /\ approveCallOf DEX_ROUTER 0 (approveCalldata DEX_ROUTER 0)
  /\ approveCallOf DEX_ROUTER 1000000 (approveCalldata DEX_ROUTER 1000000)
  /\ exists σ',
       @safeApprove example_host TOKEN_USDC DEX_ROUTER 1000000 500000 new_builder = (Ok tt, σ')
       /\ calls_in (heap σ') (calls σ')
          = calls_in (heap new_builder) (calls new_builder)
            ++ buildSafeApproveCalls TOKEN_USDC DEX_ROUTER 1000000 500000
       /\ length (array_at (heap σ') (operations σ'))
          = (length (array_at (heap new_builder) (operations new_builder))
             + length (buildSafeApproveCalls TOKEN_USDC DEX_ROUTER 1000000 500000))%nat.
Proof.
  pose proof (@safeApprove_call_count example_host TOKEN_USDC DEX_ROUTER 1000000 500000
                new_builder (construct_wf _ _ _ _)) as (Htwo & _ & Hdata & _ & Hrun).
  split; [apply construct_wf|].
  split; [apply Htwo; split; [lia|discriminate]|].
  destruct (Hdata eq_refl) as [H0 Hamount].
  split; [exact H0|]. split; [apply Hamount; split; [lia|reflexivity]|].
  exact Hrun.
Defined.

(** The amount word of [approve(spender, 1000000)] reads back. *)
Example wordValue_of_amount_word :
  wordValue "00000000000000000000000000000000000000000000000000000000000f4240" = Some 1000000.
Proof. vm_compute. reflexivity. Qed.

(** Outside 256 bits, and below zero, the assembled payload is not an
    [approve] call of the amount. *)
Example approveCalldata_negative_amount :
  approveCalldata DEX_ROUTER (-1)
  = "0x095ea7b3000000000000000000000000222222222222222222222222222222222222222200000000000000000000000000000000000000000000000000000000000000-1".
Proof. vm_compute. reflexivity. Qed.

End SafeApproveExamples.

(* ===================================================================== *)
(** * Examples: ledger methods, execution, client                         *)
(* ===================================================================== *)

Section MethodExamples.
Import Utils Events Builder Orchestrator Accessors ClientReads.
Local Open Scope list_scope.
#[local] Existing Instance Abi.codec.
#[local] Existing Instance example_host.
#[local] Existing Instance example_float.

Example reportedFlags_one_event : reportedFlags 1 (logs one_event_receipt) = [Some false].
Proof. vm_compute. reflexivity. Qed.

(** A receipt whose logs came with too little data: call 1 is reported
    twice, first in full ([success = true]), then with the empty data
    ['0x']; the [BatchExecuted] log has a data word too few. *)
Definition short_data_receipt : TransactionReceipt :=
  {| logs :=
       [ {| log_data := "0x00000000000000000000000000000000000000000000000000000000000000000000000000000000000000000000000000000000000000000000000000000001";
            log_topics :=
              [ Abi.topic_CallExecuted;
                "0x0000000000000000000000000000000000000000000000000000000000000001";
                "0x0000000000000000000000001111111111111111111111111111111111111111" ] |};
         {| log_data := "0x";
            log_topics :=
              [ Abi.topic_CallExecuted;
                "0x0000000000000000000000000000000000000000000000000000000000000001";
                "0x0000000000000000000000001111111111111111111111111111111111111111" ] |};
         {| log_data := "0x0000000000000000000000000000000000000000000000000000000000000002";
            log_topics :=
              [ Abi.topic_BatchExecuted;
                "0x0000000000000000000000002222222222222222222222222222222222222222" ] |} ];
     gasUsed := 21000; effectiveGasPrice := 1000000;
     blockNumber := 1; transactionHash := "0x00" |}.

Example decodeEventLog_short_data :
  decodeEventLog <$> logs short_data_receipt
  = [ Ok (CallExecuted 1 "0x1111111111111111111111111111111111111111" (Some (0, true)));
      Ok (CallExecuted 1 "0x1111111111111111111111111111111111111111" None);
      Ok (BatchExecuted "0x2222222222222222222222222222222222222222" None) ].
Proof. vm_compute. reflexivity. Qed.

Example reportedFlags_short_data :
  reportedFlags 1 (logs short_data_receipt) = [Some true; None].
Proof. vm_compute. reflexivity. Qed.

Lemma parseCallResults_reads_last_event_witness :
  (forall raw, (None : option Hex) = Some raw ->
     (String.length raw <= 2)%nat
     \/ exists err, decodeAbiParameters_results raw = Throw err)
  /\ 0 <= 3 < 2 ^ 32
  /\ Z.of_nat 1 < 3
  /\ exists results,
       parseCallResults short_data_receipt 3 None = Ok results
       /\ results !! 1%nat
          = Some {| success :=
                      default (Some true)
                        (last (reportedFlags (Z.of_nat 1) (logs short_data_receipt)));
                    returnData := "0x" |}.
Proof.
  assert (H0 : forall raw, (None : option Hex) = Some raw ->
                 (String.length raw <= 2)%nat
                 \/ exists err, decodeAbiParameters_results raw = Throw err)
    by (intros raw [=]).
  assert (H1 : 0 <= 3 < 2 ^ 32) by (split; [lia|reflexivity]).
  assert (H2 : Z.of_nat 1 < 3) by (simpl; lia).
  split; [exact H0|]. split; [exact H1|]. split; [exact H2|].
  exact (parseCallResults_reads_last_event short_data_receipt 3 None 1 H0 H1 H2).
Defined.

(** The entry of call 1 has the [success] of the last log: [undefined]. *)
Example parseCallResults_short_data :
  parseCallResults short_data_receipt 3 None
  = Ok [ {| success := Some true; returnData := "0x" |};
         {| success := None; returnData := "0x" |};
         {| success := Some true; returnData := "0x" |} ].
Proof. vm_compute. reflexivity. Qed.

Example parseCallExecutedEvents_short_data :
  parseCallExecutedEvents short_data_receipt
  = [ {| ce_callIndex := 1; ce_target := "0x1111111111111111111111111111111111111111";
         ce_value := Some 0; ce_success := Some true;
         ce_blockNumber := 1; ce_transactionHash := "0x00" |};
      {| ce_callIndex := 1; ce_target := "0x1111111111111111111111111111111111111111";
         ce_value := None; ce_success := None;
         ce_blockNumber := 1; ce_transactionHash := "0x00" |} ].
Proof. vm_compute. reflexivity. Qed.

Example parseBatchExecutedEvent_short_data :
  parseBatchExecutedEvent short_data_receipt
  = Some {| be_sender := "0x2222222222222222222222222222222222222222";
            be_callCount := None; be_totalValue := None;
            be_blockNumber := 1; be_transactionHash := "0x00" |}.
Proof. vm_compute. reflexivity. Qed.

Example parseCallExecutedEvents_one_event :
  parseCallExecutedEvents one_event_receipt
  = [ {| ce_callIndex := 1; ce_target := "0x1111111111111111111111111111111111111111";
         ce_value := Some 0; ce_success := Some false;
         ce_blockNumber := 1; ce_transactionHash := "0x00" |} ].
Proof. vm_compute. reflexivity. Qed.

Example parseBatchExecutedEvent_absent : parseBatchExecutedEvent one_event_receipt = None.
Proof. vm_compute. reflexivity. Qed.

(** The comparator of the sort on indices that no [number] holds
    exactly: the order is still the order of the indices. *)
Example byCallIndex_large_indices :
  byCallIndex
    {| ce_callIndex := 2 ^ 64 + 1; ce_target := "0x00"; ce_value := Some 0; ce_success := Some true;
       ce_blockNumber := 1; ce_transactionHash := "0x00" |}
    {| ce_callIndex := 2 ^ 64; ce_target := "0x00"; ce_value := Some 0; ce_success := Some true;
       ce_blockNumber := 1; ce_transactionHash := "0x00" |} = 1.
Proof. vm_compute. reflexivity. Qed.

Definition transfer_args : list AbiArg := [ArgAddress RECIPIENT; ArgUint 5].
Definition bad_transfer_args : list AbiArg := [ArgAddress "0xnot-an-address"; ArgUint 5].

Lemma addCall_encodes_first_witness :
  ledger_wf new_builder
  /\ match encodeFunctionData ERC20_ABI "transfer" transfer_args with
     | Throw e =>
         addCall TOKEN_USDC ERC20_ABI "transfer" transfer_args None new_builder
         = (Throw e, new_builder)
     | Ok callData =>
         exists σ',
           addCall TOKEN_USDC ERC20_ABI "transfer" transfer_args None new_builder = (Ok tt, σ')
           /\ ledger_wf σ'
           /\ calls_in (heap σ') (calls σ')
              = calls_in (heap new_builder) (calls new_builder)
                ++ [ {| target := TOKEN_USDC; value := default 0 None; callData := callData |} ]
           /\ length_ σ' = S (length_ new_builder)
           /\ getTotalValue σ' = getTotalValue new_builder + default 0 None
     end.
Proof.
  split; [apply construct_wf|].
  exact (addCall_encodes_first TOKEN_USDC ERC20_ABI "transfer" transfer_args None
           new_builder (construct_wf _ _ _ _)).
Defined.

Example addCall_bad_address_changes_nothing :
  addCall TOKEN_USDC ERC20_ABI "transfer" bad_transfer_args None one_call_builder
  = (Throw (ThrownError "InvalidAddressError" "Address is invalid"), one_call_builder).
Proof. vm_compute. reflexivity. Qed.

Lemma pop_removes_last_witness :
  ledger_wf one_call_builder
  /\ exists σ',
       pop one_call_builder
       = (Ok (last (array_at (heap one_call_builder) (calls one_call_builder))), σ')
       /\ ledger_wf σ'
       /\ calls_in (heap σ') (calls σ')
          = removelast (calls_in (heap one_call_builder) (calls one_call_builder))
       /\ operations_in (heap σ') (operations σ')
          = removelast (operations_in (heap one_call_builder) (operations one_call_builder))
       /\ (length_ one_call_builder = 0%nat -> σ' = one_call_builder).
Proof.
  split; [exact one_call_builder_wf|].
  exact (pop_removes_last one_call_builder one_call_builder_wf).
Defined.

Example pop_on_new_builder : pop new_builder = (Ok None, new_builder).
Proof. vm_compute. reflexivity. Qed.

Lemma add_then_pop_witness :
  ledger_wf one_call_builder
  /\ exists σ1 lc σ2,
       add DEX_ROUTER "0x1234" 7 one_call_builder = (Ok tt, σ1)
       /\ pop σ1 = (Ok (Some lc), σ2)
       /\ call_at (heap σ2) lc
          = Some {| target := DEX_ROUTER; value := 7; callData := "0x1234" |}
       /\ ledger σ2 = ledger one_call_builder.
Proof.
  split; [exact one_call_builder_wf|].
  exact (add_then_pop DEX_ROUTER "0x1234" 7 one_call_builder one_call_builder_wf).
Defined.

(** The snapshot array of [one_call_builder] and what is called on the
    builder after the snapshot was taken. *)
Definition later_calls : list Invocation :=
  [call_sendETH RECIPIENT 42; call_pop; call_pop; call_clear; call_add DEX_ROUTER "0x00" None].

Lemma builder_writes_only_its_arrays_witness :
  heap (getState one_call_builder).2 !! 5%positive = Some (ObjArray [3%positive])
  /\ 5%positive <> calls (getState one_call_builder).2
  /\ 5%positive <> operations (getState one_call_builder).2
  /\ heap (invoke_all later_calls (getState one_call_builder).2) !! 5%positive
     = Some (ObjArray [3%positive]).
Proof.
  assert (H1 : heap (getState one_call_builder).2 !! 5%positive = Some (ObjArray [3%positive]))
    by (vm_compute; reflexivity).
  assert (H2 : 5%positive <> calls (getState one_call_builder).2) by (vm_compute; discriminate).
  assert (H3 : 5%positive <> operations (getState one_call_builder).2)
    by (vm_compute; discriminate).
  split; [exact H1|]. split; [exact H2|]. split; [exact H3|].
  exact (builder_writes_only_its_arrays later_calls _ _ _ H1 H2 H3).
Defined.

Lemma snapshot_survives_later_calls_witness :
  ledger_wf one_call_builder
  /\ getState one_call_builder = (Ok one_call_snapshot, (getState one_call_builder).2)
  /\ (let σ2 := invoke_all later_calls (getState one_call_builder).2 in
      calls_in (heap σ2) (state_calls one_call_snapshot)
      = calls_in (heap one_call_builder) (calls one_call_builder)
      /\ operations_in (heap σ2) (state_operations one_call_snapshot)
         = operations_in (heap one_call_builder) (operations one_call_builder)
      /\ state_totalValue one_call_snapshot
         = foldl (fun sum c => sum + value c) 0
             (calls_in (heap σ2) (state_calls one_call_snapshot))).
Proof.
  assert (Hpair : getState one_call_builder
                  = (Ok one_call_snapshot, (getState one_call_builder).2))
    by (vm_compute; reflexivity).
  split; [exact one_call_builder_wf|]. split; [exact Hpair|].
  exact (snapshot_survives_later_calls one_call_builder one_call_snapshot _ later_calls
           one_call_builder_wf Hpair).
Defined.

Example later_calls_change_the_ledger :
  calls_in (heap (invoke_all later_calls (getState one_call_builder).2))
           (calls (invoke_all later_calls (getState one_call_builder).2))
  = [ {| target := DEX_ROUTER; value := 0; callData := "0x00" |} ].
Proof. vm_compute. reflexivity. Qed.

Definition two_transfers : list (Address * Z) := [(RECIPIENT, 5); (DEX_ROUTER, 6)].

Definition two_transfer_calls : list MegaCall :=
  [ {| target := TOKEN_USDC; value := 0;
       callData := "0xa9059cbb00000000000000000000000044444444444444444444444444444444444444440000000000000000000000000000000000000000000000000000000000000005" |};
    {| target := TOKEN_USDC; value := 0;
       callData := "0xa9059cbb00000000000000000000000022222222222222222222222222222222222222220000000000000000000000000000000000000000000000000000000000000006" |} ].

Lemma two_transfers_encode : Forall2 (transferCall TOKEN_USDC) two_transfers two_transfer_calls.
Proof. repeat constructor. Qed.

Lemma multiTransfer_queues_all_witness :
  ledger_wf one_call_builder
  /\ Forall2 (transferCall TOKEN_USDC) two_transfers two_transfer_calls
  /\ exists σ',
       multiTransfer TOKEN_USDC two_transfers one_call_builder = (Ok tt, σ')
       /\ ledger_wf σ'
       /\ calls_in (heap σ') (calls σ')
          = calls_in (heap one_call_builder) (calls one_call_builder) ++ two_transfer_calls.
Proof.
  split; [exact one_call_builder_wf|]. split; [exact two_transfers_encode|].
  exact (multiTransfer_queues_all TOKEN_USDC two_transfers two_transfer_calls one_call_builder
           one_call_builder_wf two_transfers_encode).
Defined.

Lemma multiTransfer_stops_at_failure_witness :
  ledger_wf one_call_builder
  /\ Forall2 (transferCall TOKEN_USDC) two_transfers two_transfer_calls
  /\ encodeFunctionData ERC20_ABI "transfer"
       [ArgAddress ("0xnot-an-address", 1).1; ArgUint ("0xnot-an-address", 1).2]
     = Throw (ThrownError "InvalidAddressError" "Address is invalid")
  /\ exists σ',
       multiTransfer TOKEN_USDC
         (two_transfers ++ ("0xnot-an-address", 1) :: [(RECIPIENT, 9)]) one_call_builder
       = (Throw (ThrownError "InvalidAddressError" "Address is invalid"), σ')
       /\ ledger_wf σ'
       /\ calls_in (heap σ') (calls σ')
          = calls_in (heap one_call_builder) (calls one_call_builder) ++ two_transfer_calls.
Proof.
  assert (Hbad : encodeFunctionData ERC20_ABI "transfer"
                   [ArgAddress ("0xnot-an-address", 1).1; ArgUint ("0xnot-an-address", 1).2]
                 = Throw (ThrownError "InvalidAddressError" "Address is invalid"))
    by reflexivity.
  split; [exact one_call_builder_wf|]. split; [exact two_transfers_encode|].
  split; [exact Hbad|].
  exact (multiTransfer_stops_at_failure TOKEN_USDC two_transfers two_transfer_calls
           ("0xnot-an-address", 1) [(RECIPIENT, 9)] _ one_call_builder
           one_call_builder_wf two_transfers_encode Hbad).
Defined.

(** A swap whose path holds a malformed address: the approval
    encodes, the swap does not. *)
Definition bad_path_swap : ApproveAndSwapParams :=
  {| aas_swap := {| swap_router := DEX_ROUTER; swap_amountIn := 1000; swap_amountOutMin := 990;
                    swap_path := [TOKEN_USDC; "0xnot-an-address"]; swap_to := RECIPIENT;
                    swap_deadline := None |};
     aas_token := TOKEN_USDC |}.

Lemma approveAndSwap_queues_approval_first_witness :
  ledger_wf new_builder
  /\ (let swap := aas_swap bad_path_swap in
      match encodeFunctionData ERC20_ABI "approve"
              [ArgAddress (swap_router swap); ArgUint (swap_amountIn swap)] with
      | Throw e => approveAndSwap bad_path_swap new_builder = (Throw e, new_builder)
      | Ok approveData =>
          let approval :=
            {| target := aas_token bad_path_swap; value := 0; callData := approveData |} in
          exists σ',
            ledger_wf σ'
            /\ match encodeFunctionData UNISWAP_V2_ROUTER_ABI "swapExactTokensForTokens"
                       [ArgUint (swap_amountIn swap); ArgUint (swap_amountOutMin swap);
                        ArgAddressArray (swap_path swap); ArgAddress (swap_to swap);
                        ArgUint (deadlineAt (S (ticks new_builder)) swap)] with
               | Throw e =>
                   approveAndSwap bad_path_swap new_builder = (Throw e, σ')
                   /\ calls_in (heap σ') (calls σ')
                      = calls_in (heap new_builder) (calls new_builder) ++ [approval]
               | Ok swapData =>
                   approveAndSwap bad_path_swap new_builder = (Ok tt, σ')
                   /\ calls_in (heap σ') (calls σ')
                      = calls_in (heap new_builder) (calls new_builder)
                        ++ [approval;
                            {| target := swap_router swap; value := 0; callData := swapData |}]
               end
      end).
Proof.
  split; [apply construct_wf|].
  exact (approveAndSwap_queues_approval_first bad_path_swap new_builder (construct_wf _ _ _ _)).
Defined.

Example approveAndSwap_bad_path_keeps_approval :
  (approveAndSwap bad_path_swap new_builder).1
  = Throw (ThrownError "InvalidAddressError" "Address is invalid")
  /\ calls_in (heap (approveAndSwap bad_path_swap new_builder).2) (calls new_builder)
     = [ {| target := TOKEN_USDC; value := 0;
            callData := "0x095ea7b3000000000000000000000000222222222222222222222222222222222222222200000000000000000000000000000000000000000000000000000000000003e8" |} ].
Proof. vm_compute. by split. Qed.

Example execution_refused_without_wallet :
  refusal one_call_builder = Some walletNotConnectedError
  /\ run healthy_client (executeSync one_call_builder no_options) 0
     = (Threw walletNotConnectedError, [], 0)
  /\ run healthy_client (executeRealtime one_call_builder no_options) 0
     = (Threw walletNotConnectedError, [], 0).
Proof. by repeat split. Qed.

Example refusal_empty_before_wallet : refusal new_builder = Some emptyBatchError.
Proof. reflexivity. Qed.

Lemma reverting_client_rejects_dry_run : rejects_dry_run reverting_client.
Proof. intros call w. by eexists _, _. Qed.

Lemma executeSync_signs_after_dry_run_witness :
  rejects_dry_run reverting_client
  /\ exists e t w',
       run reverting_client (executeSync connected_builder no_options) 0 = (Threw e, t, w')
       /\ submissions t = [].
Proof.
  split; [exact reverting_client_rejects_dry_run|].
  exact (executeSync_signs_after_dry_run Z reverting_client connected_builder no_options 0
           reverting_client_rejects_dry_run).
Defined.

(** The run of [executeSync] on the healthy client. *)
Definition healthy_result : MegaFlowSyncResult :=
  mkSyncResult one_event_receipt [ {| success := Some true; returnData := "0x" |} ] 21000 7.

Definition healthy_call : ContractCall :=
  {| cc_address := MAINNET_ROUTER_ADDRESS; cc_functionName := "executeBatch";
     cc_args := [ {| target := TOKEN_USDC; value := 100; callData := "0x00" |} ];
     cc_value := 1100;
     cc_account := wallet_account example_wallet; cc_gas := None |}.

Definition healthy_trace : list Event :=
  [ performed performance_now;
    requested (readContract MAINNET_ROUTER_ADDRESS "calculateRequiredETH"
                 [ {| target := TOKEN_USDC; value := 100; callData := "0x00" |} ]);
    requested (simulateContract healthy_call);
    requested (signTransaction healthy_call);
    requested (request "eth_sendRawTransactionSync" ["0x02f86b"]);
    performed performance_now ].

Lemma executeSync_returns_one_receipt_witness :
  run healthy_client (executeSync connected_builder no_options) 0
  = (Returned healthy_result, healthy_trace, 14)
  /\ refusal connected_builder = None
  /\ length (sync_results healthy_result) = length_ connected_builder
  /\ sync_gasUsed healthy_result = gasUsed (sync_receipt healthy_result)
  /\ exists call signedTx w1 w2,
       submissions healthy_trace
       = [requested (signTransaction call);
          requested (request "eth_sendRawTransactionSync" [signedTx])]
       /\ answer healthy_client (signTransaction call) w1 = (Ok signedTx, w2)
       /\ (answer healthy_client (request "eth_sendRawTransactionSync" [signedTx]) w2).1
          = Ok (sync_receipt healthy_result).
Proof.
  assert (Hrun : run healthy_client (executeSync connected_builder no_options) 0
                 = (Returned healthy_result, healthy_trace, 14))
    by (vm_compute; reflexivity).
  split; [exact Hrun|].
  exact (executeSync_returns_one_receipt Z healthy_client connected_builder no_options 0
           healthy_result healthy_trace 14 Hrun).
Defined.

Example simulate_trace_of_healthy_client :
  (run healthy_client (simulate one_call_builder) 0).1.2
  = [ requested (readContract MAINNET_ROUTER_ADDRESS "calculateRequiredETH"
                   [ {| target := TOKEN_USDC; value := 100; callData := "0x00" |} ]);
      requested (simulateContract (dryCall one_call_builder 1100));
      requested (estimateContractGas (dryCall one_call_builder 1100)) ].
Proof. vm_compute. reflexivity. Qed.

Definition example_client : ClientState :=
  {| config_routerAddress := MAINNET_ROUTER_ADDRESS; config_chain := None;
     client_walletClient := Some example_wallet |}.

Lemma batch_builders_independent_witness :
  ledger_wf one_call_builder
  /\ (let later := invoke_all later_calls (batch (heap one_call_builder) example_client) in
      ledger (set_heap (heap later) one_call_builder) = ledger one_call_builder).
Proof.
  split; [exact one_call_builder_wf|].
  exact (batch_builders_independent one_call_builder example_client later_calls
           one_call_builder_wf).
Defined.

Example batch_is_connected : isConnected (batch ∅ example_client) = true.
Proof. reflexivity. Qed.

End MethodExamples.
